(** * videograb-server: the caches and handlers of the bot server

    A shallow embedding of the two revisions of the server entry point,
    [src/src/index.ts] (module [IndexTs]) and [src/unnamed/part_000]
    (module [Part000]): the [/start] command, the admin video upload and
    the [GET /api/files] listing endpoint, together with the ECMAScript
    built-ins they call ([parseInt], [Number], [String.prototype.trim],
    [Math.max], [Math.ceil]) and the [node-cache] store they share.

    Conventions.
    - A JS string is its sequence of UTF-16 code units ([list N]).
    - A JS number is [NaN], an infinity or a finite value kept as the
      exact rational it denotes (always in lowest terms); the rounding
      of IEEE doubles is not modelled, so the model is exact wherever
      every intermediate value is representable (integers of magnitude
      up to 2^53, short decimal literals).  Beyond that range the code
      rounds, reads a long enough run of digits as [Infinity], and
      prints with an exponent from 1e21 on; a theorem that speaks of
      the value of a page, of a skip, of a key or of a sender id is
      stated within the range.  [-0] is not distinguished from [+0]:
      both are falsy and print alike.
    - [Date.now()] is an integer number of milliseconds.
    - Every awaited call to a collaborator (the bot transport, the
      Telegram file API, GitHub, the catalog store) takes its outcome
      from an [Env] record, so that a handler is a function of its
      input, the outcomes, and the world it runs in. *)

From Stdlib Require Import ZArith QArith Qround Qabs Qcanon List String Ascii Bool Lia.
From Stdlib Require DecimalString DecimalZ DecimalPos.
From stdpp Require Import base gmap list.
Import ListNotations.

Open Scope Z_scope.

(* ================================================================== *)
(** * ECMAScript strings and numbers                                   *)
(* ================================================================== *)

Module JS.

(** A string value: its UTF-16 code units. *)
Abbreviation jsstring := (list N).

(** An ASCII literal of the source, as code units. *)
Definition lit (s : string) : jsstring :=
  map N_of_ascii (list_ascii_of_string s).

(** WhiteSpace and LineTerminator code points (ECMA-262, StrWhiteSpaceChar):
    TAB LF VT FF CR SP NBSP, the Zs category, LS, PS and the BOM. *)
Definition StrWhiteSpaceChar (c : N) : bool :=
  ((c =? 9) || (c =? 10) || (c =? 11) || (c =? 12) || (c =? 13)
   || (c =? 32) || (c =? 160) || (c =? 5760)
   || ((8192 <=? c) && (c <=? 8202))
   || (c =? 8232) || (c =? 8233) || (c =? 8239) || (c =? 8287)
   || (c =? 12288) || (c =? 65279))%N.

Fixpoint trimStart (s : jsstring) : jsstring :=
  match s with
  | c :: r => if StrWhiteSpaceChar c then trimStart r else s
  | [] => []
  end.

Definition trimEnd (s : jsstring) : jsstring := rev (trimStart (rev s)).

(** [String.prototype.trim] *)
Definition trim (s : jsstring) : jsstring := trimEnd (trimStart s).

Fixpoint startsWith (p s : jsstring) : option jsstring :=
  match p, s with
  | [], _ => Some s
  | a :: p', b :: s' => if (a =? b)%N then startsWith p' s' else None
  | _ :: _, [] => None
  end.

(** [s.replace(/^video_/, "")]: the anchored pattern can only match at
    the start of the string. *)
Definition replace_video_prefix (s : jsstring) : jsstring :=
  match startsWith (lit "video_") s with
  | Some rest => rest
  | None => s
  end.

(** ToBoolean on strings: only the empty string is falsy. *)
Definition truthy_string (s : jsstring) : bool :=
  match s with [] => false | _ => true end.

(** ** Numbers *)

Inductive number : Type :=
| NaN
| Infinity (negative : bool)
| Fin (q : Q).

Definition of_Z (z : Z) : number := Fin (inject_Z z).

(** ToBoolean on numbers: [NaN] and zero are falsy. *)
Definition truthy_number (n : number) : bool :=
  match n with
  | NaN => false
  | Infinity _ => true
  | Fin q => negb (Qeq_bool q 0)
  end.

(** [a || b] on numbers. *)
Definition or_else (a b : number) : number :=
  if truthy_number a then a else b.

(** [Math.max(a, b)] *)
Definition Math_max (a b : number) : number :=
  match a, b with
  | NaN, _ | _, NaN => NaN
  | Infinity false, _ | _, Infinity false => Infinity false
  | Infinity true, x | x, Infinity true => x
  | Fin x, Fin y => if Qle_bool x y then Fin y else Fin x
  end.

(** [Math.ceil(a)] *)
Definition Math_ceil (a : number) : number :=
  match a with
  | Fin q => of_Z (Qceiling q)
  | _ => a
  end.

Definition sign_neg (q : Q) : bool := negb (Qle_bool 0 q).

(** [a - b] *)
Definition sub (a b : number) : number :=
  match a, b with
  | NaN, _ | _, NaN => NaN
  | Infinity s, Infinity s' => if Bool.eqb s s' then NaN else Infinity s
  | Infinity s, Fin _ => Infinity s
  | Fin _, Infinity s => Infinity (negb s)
  | Fin x, Fin y => Fin (Qred (x - y))
  end.

(** [a * b] *)
Definition mul (a b : number) : number :=
  match a, b with
  | NaN, _ | _, NaN => NaN
  | Infinity s, Infinity s' => Infinity (xorb s s')
  | Infinity s, Fin y | Fin y, Infinity s =>
      if Qeq_bool y 0 then NaN else Infinity (xorb s (sign_neg y))
  | Fin x, Fin y => Fin (Qred (x * y))
  end.

(** [a / b] *)
Definition div (a b : number) : number :=
  match a, b with
  | NaN, _ | _, NaN => NaN
  | Infinity _, Infinity _ => NaN
  | Infinity s, Fin y => Infinity (xorb s (sign_neg y))
  | Fin _, Infinity _ => Fin 0
  | Fin x, Fin y =>
      if Qeq_bool y 0
      then (if Qeq_bool x 0 then NaN else Infinity (sign_neg x))
      else Fin (Qred (x / y))
  end.

(** ** Digits *)

Definition is_decimal_digit (c : N) : bool := ((48 <=? c) && (c <=? 57))%N.

(** The value of a code unit as a digit in the given radix, if it is one
    ([0-9], [a-z], [A-Z]). *)
Definition digit_of (radix : Z) (c : N) : option Z :=
  let v : Z :=
    if ((48 <=? c) && (c <=? 57))%N then Z.of_N c - 48
    else if ((97 <=? c) && (c <=? 122))%N then Z.of_N c - 87
    else if ((65 <=? c) && (c <=? 90))%N then Z.of_N c - 55
    else 36 in
  if v <? radix then Some v else None.

(** The longest prefix of digits in the radix, and what follows it. *)
Fixpoint span_digits (radix : Z) (s : jsstring) : list Z * jsstring :=
  match s with
  | c :: r =>
      match digit_of radix c with
      | Some d => let '(ds, rest) := span_digits radix r in (d :: ds, rest)
      | None => ([], s)
      end
  | [] => ([], [])
  end.

(** The mathematical value of a digit sequence. *)
Definition digits_value (radix : Z) (ds : list Z) : Z :=
  fold_left (fun acc d => acc * radix + d) ds 0.

(** A leading [+] or [-]: the sign (true when negative) and the rest. *)
Definition strip_sign (s : jsstring) : bool * jsstring :=
  match s with
  | c :: r =>
      if (c =? 45)%N then (true, r)
      else if (c =? 43)%N then (false, r)
      else (false, s)
  | [] => (false, [])
  end.

Definition signed (neg : bool) (z : Z) : Z := if neg then - z else z.

(** A leading [0x] or [0X] selects radix 16 and is removed; otherwise
    the radix is 10. *)
Definition strip_hex_prefix (s : jsstring) : Z * jsstring :=
  match s with
  | c0 :: c1 :: r =>
      if ((c0 =? 48) && ((c1 =? 120) || (c1 =? 88)))%N
      then (16, r) else (10, s)
  | _ => (10, s)
  end.

(** ** [parseInt(string)] with no radix argument (ECMA-262 19.2.5)

    The result is the integer the digits denote.  The code returns the
    double nearest to it: the same number while its magnitude is at
    most 2^53, which holds of every input of at most 14 characters; a
    rounded one, or [Infinity], for longer runs of digits. *)
Definition parseInt_string (inputString : jsstring) : number :=
  let S := trimStart inputString in
  let '(neg, S1) := strip_sign S in
  let '(R, S2) := strip_hex_prefix S1 in
  let '(ds, _) := span_digits R S2 in
  match ds with
  | [] => NaN
  | _ => of_Z (signed neg (digits_value R ds))
  end.

(** ToString of [undefined] or a string. *)
Definition ToString (v : option jsstring) : jsstring :=
  match v with
  | Some s => s
  | None => lit "undefined"
  end.

Definition parseInt (v : option jsstring) : number :=
  parseInt_string (ToString v).

(** ** [Number(value)]: StringToNumber (ECMA-262 7.1.4.1.1) *)

(** [0b], [0o] and [0x] literals: no sign, at least one digit, nothing
    after the digits. *)
Definition NonDecimalIntegerLiteral (t : jsstring) : option Z :=
  match t with
  | 48%N :: c :: r =>
      let radix : option Z :=
        if ((c =? 98) || (c =? 66))%N then Some 2
        else if ((c =? 111) || (c =? 79))%N then Some 8
        else if ((c =? 120) || (c =? 88))%N then Some 16
        else None in
      match radix with
      | Some R =>
          match span_digits R r with
          | (d :: ds, []) => Some (digits_value R (d :: ds))
          | _ => None
          end
      | None => None
      end
  | _ => None
  end.

(** ExponentPart, or nothing: the exponent, when the text is well formed. *)
Definition ExponentPart (s : jsstring) : option Z :=
  match s with
  | [] => Some 0
  | c :: r =>
      if ((c =? 101) || (c =? 69))%N then
        let '(neg, r1) := strip_sign r in
        match span_digits 10 r1 with
        | (d :: ds, []) => Some (signed neg (digits_value 10 (d :: ds)))
        | _ => None
        end
      else None
  end.

(** StrUnsignedDecimalLiteral other than [Infinity]. *)
Definition StrUnsignedDecimalLiteral (u : jsstring) : option Q :=
  let '(ip, r1) := span_digits 10 u in
  let '(fp, r2) :=
    match r1 with
    | 46%N :: r => span_digits 10 r
    | _ => ([], r1)
    end in
  match ip ++ fp, ExponentPart r2 with
  | _ :: _, Some e =>
      Some (Qred (inject_Z (digits_value 10 (ip ++ fp))
                  * Qpower 10 (e - Z.of_nat (length fp))))
  | _, _ => None
  end.

Definition jsstring_eqb (a b : jsstring) : bool :=
  bool_decide (a = b).

Definition StrDecimalLiteral (t : jsstring) : number :=
  let '(neg, u) := strip_sign t in
  if jsstring_eqb u (lit "Infinity") then Infinity neg
  else match StrUnsignedDecimalLiteral u with
       | Some q => Fin (if neg then Qred (- q) else q)
       | None => NaN
       end.

Definition StringToNumber (s : jsstring) : number :=
  match trim s with
  | [] => Fin 0
  | t =>
      match NonDecimalIntegerLiteral t with
      | Some z => of_Z z
      | None => StrDecimalLiteral t
      end
  end.

(** [Number(v)] for [undefined] or a string. *)
Definition Number (v : option jsstring) : number :=
  match v with
  | None => NaN
  | Some s => StringToNumber s
  end.

(** ** Number to string, as in a template literal *)

Definition Z_to_string (z : Z) : jsstring :=
  lit (DecimalString.NilZero.string_of_int (Z.to_int z)).

(** The digits after the decimal point of [f], [0 <= f < 1], at most
    [fuel] of them: the exact expansion when it ends within [fuel] digits. *)
Fixpoint fraction_digits (fuel : nat) (f : Q) : jsstring :=
  match fuel with
  | O => []
  | S fuel' =>
      if Qeq_bool f 0 then []
      else
        let f10 := Qred (f * 10) in
        let d := Qfloor f10 in
        (48 + Z.to_N d)%N :: fraction_digits fuel' (Qred (f10 - inject_Z d))
  end.

(** Number::toString in radix 10, for values printed without an exponent
    (magnitude below 1e21, at most 20 decimals).  An integer of
    magnitude up to 2^53 prints as its decimal notation, in the code as
    here; from 1e21 on the code prints an exponent ([1e+21]), which is
    not modelled. *)
Definition Number_toString (n : number) : jsstring :=
  match n with
  | NaN => lit "NaN"
  | Infinity false => lit "Infinity"
  | Infinity true => lit "-Infinity"
  | Fin q =>
      let a := Qabs q in
      let ip := Qfloor a in
      let f := Qred (a - inject_Z ip) in
      (if sign_neg q then lit "-" else [])
        ++ Z_to_string ip
        ++ (if Qeq_bool f 0 then [] else lit "." ++ fraction_digits 20 f)
  end.

(** [String(id)] for [ctx.from?.id]: an integer identifier or [undefined].
    The identifier is a number of the code, and the decimal notation
    written here is what [String] gives for an integer of magnitude up
    to 2^53 (a Telegram user id has at most 52 significant bits). *)
Definition String_of_id (id : option Z) : jsstring :=
  match id with
  | Some z => Z_to_string z
  | None => lit "undefined"
  end.

End JS.

Import JS.

(* ================================================================== *)
(** * node-cache                                                       *)
(* ================================================================== *)

Module NodeCache.

(** Modelled from the spec: the [node-cache] package is a dependency and
    not part of the sources; [get], [set] and [flushAll] follow §4.3 of
    the specification ([get]: the snapshot if present and not older than
    the TTL, otherwise a miss; [put]: stores a snapshot with age zero;
    [invalidateAll]: discards every entry), with the representation the
    package uses: each key maps to the value and the instant [t], in
    milliseconds, after which it is expired ([0]: never). *)
Record entry (V : Type) : Type := Entry { t : Z; v : V }.
Arguments Entry {V}.
Arguments t {V}.
Arguments v {V}.

Record cache (V : Type) : Type := Cache {
  stdTTL : Z;                       (* seconds *)
  checkperiod : Z;                  (* seconds *)
  data : gmap jsstring (entry V)
}.
Arguments Cache {V}.
Arguments stdTTL {V}.
Arguments checkperiod {V}.
Arguments data {V}.

Section Operations.
Context {V : Type}.

(** [new NodeCache({ stdTTL, checkperiod })] *)
Definition create (ttl period : Z) : cache V :=
  Cache ttl period ∅.

Definition with_data (c : cache V) (d : gmap jsstring (entry V)) : cache V :=
  Cache (stdTTL c) (checkperiod c) d.

(** An entry is served unless it has a deadline and the deadline is past. *)
Definition check (now : Z) (e : entry V) : bool :=
  negb (negb (t e =? 0) && (t e <? now)).

(** Modelled from the spec: [get(page)], the snapshot if present and not
    older than the TTL, otherwise a miss.  [get(key)] at instant [now]:
    the value and the cache afterwards (an expired entry is deleted on
    the way). *)
Definition get (c : cache V) (key : jsstring) (now : Z) : option V * cache V :=
  match data c !! key with
  | Some e =>
      if check now e then (Some (v e), c)
      else (None, with_data c (delete key (data c)))
  | None => (None, c)
  end.

Definition wrap (c : cache V) (value : V) (now : Z) : entry V :=
  Entry (if stdTTL c =? 0 then 0 else now + stdTTL c * 1000) value.

(** Modelled from the spec: [put(page, snapshot)], age reset to zero.
    [set(key, value)] at instant [now], with the standard TTL. *)
Definition set (c : cache V) (key : jsstring) (value : V) (now : Z) : cache V :=
  with_data c (<[key := wrap c value now]> (data c)).

(** Modelled from the spec: [invalidateAll()], every entry discarded.
    [flushAll()] *)
Definition flushAll (c : cache V) : cache V := with_data c ∅.

(** The periodic sweep ([checkperiod]): expired entries are deleted. *)
Definition checkData (c : cache V) (now : Z) : cache V :=
  with_data c (filter (fun kv => check now (snd kv) = true) (data c)).

End Operations.

End NodeCache.

(* ================================================================== *)
(** * The world of the server                                          *)
(* ================================================================== *)

(** A record of the catalog (the [File] model). *)
Record FileDoc : Type := {
  _id : jsstring;
  file_id : jsstring;
  title : jsstring;
  thumbnail : jsstring;
  createdAt : Z
}.

(** The body of a successful listing reply. *)
Record Listing : Type := {
  success : bool;
  page : number;
  perPage : number;
  total : number;
  totalPages : number;
  data : list FileDoc
}.

(** The process state the handlers share: the catalog held by the store,
    the identifier map ([cache] in index.ts, [fileIdCache] in part_000)
    and the listing cache [filesCache]. *)
Record World : Type := {
  catalog : list FileDoc;
  fileIdCache : gmap jsstring jsstring;
  filesCache : NodeCache.cache Listing
}.

(** The text of a chat message: literal pieces of the source, a line
    break, a double quote, or an interpolated value. *)
Inductive Fragment : Type :=
| Text (s : string)
| NL
| DQ
| Value (s : jsstring).

Definition message : Type := list Fragment.

Inductive Body : Type :=
| ListingBody (l : Listing)
| FailureBody (msg : option string).

(** The calls a handler makes, in the order it makes them. *)
Inductive Event : Type :=
| deleteMessage
| reply (text : message)
| sendVideo (chat : option Z) (handle : jsstring)
| getFile (handle : jsstring)
| fetch_get (url : jsstring)
| fetch_put (url : jsstring)
| File_create (doc : FileDoc)
| File_findById (id : jsstring)
| File_find (skip limit : number)
| File_countDocuments
| flushAll
| res_json (status : Z) (body : Body)
| console_error.

(** [process.env] *)
Record ProcessEnv : Type := {
  BOT_TOKEN : option jsstring;
  ADMIN_ID : option jsstring;
  GITHUB_USERNAME : option jsstring;
  GITHUB_REPO : option jsstring;
  GITHUB_TOKEN : option jsstring;
  GITHUB_BRANCH : option jsstring
}.

(** The outcomes of the awaited calls of one run of a handler. *)
Record Env : Type := {
  now : Z;                                   (* Date.now() on entry *)
  now_set : Z;                               (* Date.now() when a listing is stored *)
  deleteMessage_ok : bool;
  reply_ok : bool;
  sendVideo_ok : bool;
  getFile_path : option jsstring;            (* file_path, or the call throws *)
  download_ok : option bool;                 (* res.ok of the download, or fetch throws *)
  github_ok : option bool;                   (* res.ok of the PUT, or fetch throws *)
  randomUUID : jsstring;
  create_id : option jsstring;               (* the new _id, or the store rejects *)
  findById_ok : bool;
  find_ok : bool;
  find_irregular : option (list FileDoc);    (* the store's answer to a skip that is
                                                not a non-negative integer *)
  countDocuments_ok : bool
}.

Record Video : Type := {
  video_file_id : jsstring;
  video_thumbnail : option jsstring          (* thumbnail.file_id *)
}.

(** The update a bot handler receives. *)
Record Ctx : Type := {
  from_id : option Z;                        (* ctx.from?.id *)
  match_ : option jsstring;                  (* ctx.match *)
  message_video : option Video;              (* ctx.message?.video *)
  message_caption : option jsstring          (* ctx.message?.caption *)
}.

(** ** Handlers as computations: state, a log of calls, exceptions *)

Inductive outcome (A : Type) : Type :=
| Ok (a : A)
| Throw (error : string).
Arguments Ok {A}.
Arguments Throw {A}.

Record Run (A : Type) : Type := MkRun {
  result : outcome A;
  world : World;
  events : list Event
}.
Arguments MkRun {A}.
Arguments result {A}.
Arguments world {A}.
Arguments events {A}.

Definition M (A : Type) : Type := World -> Run A.

Definition ret {A} (a : A) : M A := fun w => MkRun (Ok a) w [].

Definition bind {A B} (m : M A) (f : A -> M B) : M B :=
  fun w =>
    match m w with
    | MkRun (Ok a) w1 evs1 =>
        match f a w1 with
        | MkRun r w2 evs2 => MkRun r w2 (evs1 ++ evs2)
        end
    | MkRun (Throw e) w1 evs1 => MkRun (Throw e) w1 evs1
    end.

#[global] Instance M_ret : MRet M := @ret.
#[global] Instance M_bind : MBind M := fun A B f m => bind m f.

(** [try { body } catch (error) { handler }] *)
Definition try_catch (body : M unit) (handler : M unit) : M unit :=
  fun w =>
    match body w with
    | MkRun (Ok u) w1 evs1 => MkRun (Ok u) w1 evs1
    | MkRun (Throw _) w1 evs1 =>
        match handler w1 with
        | MkRun r w2 evs2 => MkRun r w2 (evs1 ++ evs2)
        end
    end.

Definition throw {A} (e : string) : M A := fun w => MkRun (Throw e) w [].

(** A call to a collaborator: it is logged, and succeeds or throws. *)
Definition call (e : Event) (ok : bool) : M unit :=
  fun w => MkRun (if ok then Ok () else Throw "rejected") w [e].

Definition log (e : Event) : M unit := call e true.

Definition get_world : M World := fun w => MkRun (Ok w) w [].
Definition put_world (w' : World) : M unit := fun _ => MkRun (Ok ()) w' [].

(** ** The catalog store ([File]) *)

(** The [File] model ([./models/file.model]) is not among the sources.
    Following §6 of the specification, the store creates a record and
    gives it its id, finds a record by id or answers [null], returns a
    page of records sorted by creation time, newest first, and counts
    the records; any of its calls may be rejected, which the [Env] of
    the run decides. *)

Fixpoint insert_desc (d : FileDoc) (l : list FileDoc) : list FileDoc :=
  match l with
  | [] => [d]
  | x :: r => if createdAt x <? createdAt d then d :: l else x :: insert_desc d r
  end.

(** [.sort({ createdAt: -1 })]: newest first; records of equal age keep
    their order. *)
Definition sort_createdAt_desc (l : list FileDoc) : list FileDoc :=
  foldr insert_desc [] l.

Definition nonneg_integer (n : number) : option nat :=
  match n with
  | Fin q =>
      if Qle_bool 0 q && Qeq_bool q (inject_Z (Qfloor q))
      then Some (Z.to_nat (Qfloor q)) else None
  | _ => None
  end.

(** Modelled from the spec: [findPage(skip, limit, sortByCreatedAtDesc)].
    What [File.find({}).sort({createdAt: -1}).skip(skip).limit(limit).lean()]
    resolves to. *)
Definition find_page (env : Env) (docs : list FileDoc) (skip limit : number)
    : outcome (list FileDoc) :=
  if find_ok env then
    match nonneg_integer skip, nonneg_integer limit with
    | Some s, Some l => Ok (take l (drop s (sort_createdAt_desc docs)))
    | _, _ =>
        match find_irregular env with
        | Some answer => Ok answer
        | None => Throw "bad skip"
        end
    end
  else Throw "rejected".

(** Modelled from the spec: [count()].  What [File.countDocuments()]
    resolves to. *)
Definition countDocuments (env : Env) (docs : list FileDoc) : outcome number :=
  if countDocuments_ok env then Ok (of_Z (Z.of_nat (length docs)))
  else Throw "rejected".

(** What [Promise.all([find, count])] resolves to. *)
Definition both {A B} (a : outcome A) (b : outcome B) : outcome (A * B) :=
  match a, b with
  | Ok x, Ok y => Ok (x, y)
  | Throw e, _ => Throw e
  | _, Throw e => Throw e
  end.

Definition settle {A} (o : outcome A) : M A :=
  fun w => MkRun o w [].

(** [await Promise.all([File.find(...)..., File.countDocuments()])]: both
    queries are issued, then the pair or the first rejection arrives. *)
Definition find_and_count (env : Env) (skip limit : number)
    : M (list FileDoc * number) :=
  log (File_find skip limit);;
  log File_countDocuments;;
  w ← get_world;
  settle (both (find_page env (catalog w) skip limit)
               (countDocuments env (catalog w))).

(** Modelled from the spec: [findById(id)], a record or [null].
    [File.findById(id).lean()] *)
Definition findById (env : Env) (id : jsstring) : M (option FileDoc) :=
  call (File_findById id) (findById_ok env);;
  w ← get_world;
  mret (List.find (fun d => bool_decide (_id d = id)) (catalog w)).

(** Modelled from the spec: [create(record)], the record with its id.
    [File.create({ file_id, title, thumbnail })]: the store assigns the
    [_id], which is unique, and the creation time. *)
Definition create (env : Env) (file_id title thumbnail : jsstring) : M FileDoc :=
  w ← get_world;
  match create_id env with
  | Some id =>
      let doc := {| _id := id; file_id := file_id; title := title;
                    thumbnail := thumbnail; createdAt := now env |} in
      if bool_decide (id ∈ map _id (catalog w))
      then call (File_create doc) false;; throw "duplicate key"
      else
        log (File_create doc);;
        put_world {| catalog := doc :: catalog w;
                     fileIdCache := fileIdCache w;
                     filesCache := filesCache w |};;
        mret doc
  | None =>
      call (File_create {| _id := []; file_id := file_id; title := title;
                           thumbnail := thumbnail; createdAt := now env |}) false;;
      throw "rejected"
  end.

(** ** The two in-memory caches *)

(** [Map.prototype.get] on the identifier map. *)
Definition fileIdCache_get (id : jsstring) : M (option jsstring) :=
  w ← get_world; mret (fileIdCache w !! id).

(** [Map.prototype.set] on the identifier map. *)
Definition fileIdCache_set (id handle : jsstring) : M unit :=
  w ← get_world;
  put_world {| catalog := catalog w;
               fileIdCache := <[id := handle]> (fileIdCache w);
               filesCache := filesCache w |}.

Definition filesCache_get (key : jsstring) (now : Z) : M (option Listing) :=
  w ← get_world;
  let '(r, c) := NodeCache.get (filesCache w) key now in
  put_world {| catalog := catalog w; fileIdCache := fileIdCache w;
               filesCache := c |};;
  mret r.

Definition filesCache_set (key : jsstring) (value : Listing) (now : Z) : M unit :=
  w ← get_world;
  put_world {| catalog := catalog w; fileIdCache := fileIdCache w;
               filesCache := NodeCache.set (filesCache w) key value now |}.

Definition filesCache_flushAll : M unit :=
  w ← get_world;
  log flushAll;;
  put_world {| catalog := catalog w; fileIdCache := fileIdCache w;
               filesCache := NodeCache.flushAll (filesCache w) |}.

(** ** Helpers shared by the two revisions *)

(** An interpolated [process.env] value. *)
Definition interpolate (v : option jsstring) : jsstring := ToString v.

(** [process.env.GITHUB_BRANCH || "main"] *)
Definition branch (penv : ProcessEnv) : jsstring :=
  match GITHUB_BRANCH penv with
  | Some (c :: b) => c :: b
  | _ => lit "main"
  end.

(** [generateThumbnailPath] *)
Definition generateThumbnailPath (env : Env) : jsstring :=
  lit "thumbnails/" ++ randomUUID env ++ lit ".jpg".

(** [downloadTelegramFile]: the bytes themselves play no part below. *)
Definition downloadTelegramFile (failure : string) (penv : ProcessEnv) (env : Env)
    (handle : jsstring) : M unit :=
  match getFile_path env with
  | None => call (getFile handle) false
  | Some file_path =>
      log (getFile handle);;
      let url := lit "https://api.telegram.org/file/bot"
                   ++ interpolate (BOT_TOKEN penv) ++ lit "/" ++ file_path in
      match download_ok env with
      | None => call (fetch_get url) false
      | Some ok =>
          log (fetch_get url);;
          if negb ok then throw failure else mret ()
      end
  end.

(** [uploadToGitHub] *)
Definition uploadToGitHub (failure : string) (penv : ProcessEnv) (env : Env)
    (path : jsstring) : M jsstring :=
  let url := lit "https://api.github.com/repos/"
               ++ interpolate (GITHUB_USERNAME penv) ++ lit "/"
               ++ interpolate (GITHUB_REPO penv) ++ lit "/contents/" ++ path in
  match github_ok env with
  | None => call (fetch_put url) false;; throw "rejected"
  | Some ok =>
      log (fetch_put url);;
      if negb ok then throw failure
      else mret (lit "https://raw.githubusercontent.com/"
                   ++ interpolate (GITHUB_USERNAME penv) ++ lit "/"
                   ++ interpolate (GITHUB_REPO penv) ++ lit "/"
                   ++ branch penv ++ lit "/" ++ path)
  end.

(** [ctx.message?.caption?.trim() || "Untitled Video"] *)
Definition title_of (ctx : Ctx) : jsstring :=
  match message_caption ctx with
  | Some c => match trim c with [] => lit "Untitled Video" | t => t end
  | None => lit "Untitled Video"
  end.

(** [String(ctx.from?.id) !== String(process.env.ADMIN_ID)] *)
Definition not_admin (penv : ProcessEnv) (ctx : Ctx) : bool :=
  negb (jsstring_eqb (String_of_id (from_id ctx)) (ToString (ADMIN_ID penv))).

(** [!payload] *)
Definition no_payload (payload : option jsstring) : bool :=
  match payload with
  | Some (_ :: _) => false
  | _ => true
  end.

(* ================================================================== *)
(** * src/src/index.ts                                                 *)
(* ================================================================== *)

Module IndexTs.

Definition msg_welcome : message :=
  [Text "👋 <b>Welcome to Video Downloader</b>"; NL; NL;
   Text "Visit 👉 <a href="; DQ; Text "https://my-web.com"; DQ;
   Text ">Video Downloader</a>"; NL; NL;
   Text "You’ll be redirected back here automatically."].

Definition msg_invalid_link : message :=
  [Text "❌ Invalid or corrupted video link."].

Definition msg_not_available : message :=
  [Text "⚠️ This video is no longer available."; NL; NL;
   Text "It may have been removed or expired."].

Definition msg_ready : message := [Text "🎬 <b>Your video is ready!</b>"].

Definition msg_error : message :=
  [Text "🚫 Something went wrong while processing your request."; NL;
   Text "Please try again later."].

Definition msg_only_admin : message := [Text "❌ Only admin can upload videos."].

Definition msg_uploaded (title id thumbnail_url : jsstring) : message :=
  [Text "✅ <b>Video uploaded successfully</b>"; NL; NL;
   Text "📌 <b>Title:</b> "; Value title; NL;
   Text "🆔 <b>ID:</b> <code>"; Value id; Text "</code>"; NL;
   Text "🖼️ <b>Thumbnail:</b> <a href="; DQ; Value thumbnail_url; DQ;
   Text ">View</a>"].

Definition msg_failed : message :=
  [Text "🚫 Failed to save the video. Please try again."].

(** [const filesCache = new NodeCache({ stdTTL: 60 * 5, checkperiod: 120 })] *)
Definition new_filesCache : NodeCache.cache Listing :=
  NodeCache.create (60 * 5) 120.

(** The state of a freshly started process over a catalog. *)
Definition boot (docs : list FileDoc) : World :=
  {| catalog := docs; fileIdCache := ∅; filesCache := new_filesCache |}.

(** [bot.command("start", ...)] *)
Definition start (env : Env) (ctx : Ctx) : M unit :=
  try_catch
    (let telegramId := from_id ctx in
     let payload := match_ ctx in
     if no_payload payload then call (reply msg_welcome) (reply_ok env)
     else
       let id := replace_video_prefix (trim (default [] payload)) in
       if negb (truthy_string id) then call (reply msg_invalid_link) (reply_ok env)
       else
         let deliver (file_id : jsstring) : M unit :=
           call (reply msg_ready) (reply_ok env);;
           call (sendVideo telegramId file_id) (sendVideo_ok env) in
         cached ← fileIdCache_get id;
         match cached with
         | Some (c :: h) => deliver (c :: h)
         | _ =>
             file ← findById env id;
             match file with
             | None => call (reply msg_not_available) (reply_ok env)
             | Some f =>
                 fileIdCache_set id (file_id f);;
                 deliver (file_id f)
             end
         end)
    (log console_error;;
     call (reply msg_error) (reply_ok env)).

(** [bot.on(":video", ...)] *)
Definition on_video (penv : ProcessEnv) (env : Env) (ctx : Ctx) : M unit :=
  try_catch
    (if not_admin penv ctx then
       call deleteMessage (deleteMessage_ok env);;
       call (reply msg_only_admin) (reply_ok env)
     else
       match message_video ctx with
       | None => mret ()
       | Some video =>
           let file_id := video_file_id video in
           let title := title_of ctx in
           thumbnail_url ←
             match video_thumbnail video with
             | Some thumbnail_file_id =>
                 downloadTelegramFile "Failed to download Telegram file"
                   penv env thumbnail_file_id;;
                 uploadToGitHub "Failed to upload thumbnail to GitHub"
                   penv env (generateThumbnailPath env)
             | None => mret []
             end;
           file ← create env file_id title thumbnail_url;
           call (reply (msg_uploaded title (_id file) thumbnail_url)) (reply_ok env)
       end)
    (log console_error;;
     call (reply msg_failed) (reply_ok env)).

(** [Math.max(parseInt(req.query.page as string) || 1, 1)] *)
Definition page_of (query_page : option jsstring) : number :=
  Math_max (or_else (parseInt query_page) (of_Z 1)) (of_Z 1).

Definition limit : number := of_Z 30.

Definition cacheKey (page : number) : jsstring :=
  lit "files_page_" ++ Number_toString page.

Definition response (page : number) (files : list FileDoc) (total : number)
    : Listing :=
  {| success := true;
     page := page;
     perPage := limit;
     total := total;
     totalPages := Math_ceil (div total limit);
     data := files |}.

Definition failure : M unit :=
  log console_error;;
  log (res_json 500 (FailureBody (Some "Failed to fetch files"%string))).

(** [app.get("/api/files", ...)] *)
Definition api_files (env : Env) (query_page : option jsstring) : M unit :=
  try_catch
    (let page := page_of query_page in
     let skip := mul (sub page (of_Z 1)) limit in
     cached ← filesCache_get (cacheKey page) (now env);
     match cached with
     | Some hit => log (res_json 200 (ListingBody hit))
     | None =>
         '(files, total) ← find_and_count env skip limit;
         filesCache_set (cacheKey page) (response page files total) (now_set env);;
         log (res_json 200 (ListingBody (response page files total)))
     end)
    failure.

End IndexTs.

(* ================================================================== *)
(** * src/unnamed/part_000                                             *)
(* ================================================================== *)

Module Part000.

Definition msg_welcome : message :=
  [Text "👋 <b>Welcome to Video Downloader</b>"; NL; NL;
   Text "Visit 👉 <a href="; DQ; Text "https://my-web.com"; DQ;
   Text ">Video Downloader</a>"].

Definition msg_invalid_link : message := [Text "❌ Invalid video link."].

Definition msg_not_available : message := [Text "⚠️ Video not available."].

Definition msg_ready : message := [Text "🎬 <b>Your video is ready!</b>"].

Definition msg_error : message :=
  [Text "🚫 Something went wrong. Try again later."].

Definition msg_only_admin : message := [Text "❌ Only admin can upload videos."].

Definition msg_uploaded (title id thumbnail_url : jsstring) : message :=
  [Text "✅ <b>Uploaded Successfully</b>"; NL; NL;
   Text "📌 <b>Title:</b> "; Value title; NL;
   Text "🆔 <b>ID:</b> <code>"; Value id; Text "</code>"; NL;
   Text "🖼️ <a href="; DQ; Value thumbnail_url; DQ; Text ">View Thumbnail</a>"].

Definition msg_failed : message := [Text "🚫 Upload failed."].

(** [const filesCache = new NodeCache({ stdTTL: 60 * 5, checkperiod: 120 })] *)
Definition new_filesCache : NodeCache.cache Listing :=
  NodeCache.create (60 * 5) 120.

Definition boot (docs : list FileDoc) : World :=
  {| catalog := docs; fileIdCache := ∅; filesCache := new_filesCache |}.

(** [bot.command("start", ...)] *)
Definition start (env : Env) (ctx : Ctx) : M unit :=
  try_catch
    (let telegramId := from_id ctx in
     let payload := match_ ctx in
     if no_payload payload then call (reply msg_welcome) (reply_ok env)
     else
       let id := replace_video_prefix (trim (default [] payload)) in
       if negb (truthy_string id) then call (reply msg_invalid_link) (reply_ok env)
       else
         let deliver (file_id : jsstring) : M unit :=
           call (reply msg_ready) (reply_ok env);;
           call (sendVideo telegramId file_id) (sendVideo_ok env) in
         cached ← fileIdCache_get id;
         match cached with
         | Some (c :: h) => deliver (c :: h)
         | _ =>
             file ← findById env id;
             match file with
             | None => call (reply msg_not_available) (reply_ok env)
             | Some f =>
                 fileIdCache_set id (file_id f);;
                 deliver (file_id f)
             end
         end)
    (log console_error;;
     call (reply msg_error) (reply_ok env)).

(** [bot.on(":video", ...)] *)
Definition on_video (penv : ProcessEnv) (env : Env) (ctx : Ctx) : M unit :=
  try_catch
    (if not_admin penv ctx then
       call deleteMessage (deleteMessage_ok env);;
       call (reply msg_only_admin) (reply_ok env)
     else
       match message_video ctx with
       | None => mret ()
       | Some video =>
           let title := title_of ctx in
           let file_id := video_file_id video in
           thumbnail_url ←
             match video_thumbnail video with
             | Some thumbnail_file_id =>
                 downloadTelegramFile "Failed to download Telegram file"
                   penv env thumbnail_file_id;;
                 uploadToGitHub "GitHub upload failed"
                   penv env (generateThumbnailPath env)
             | None => mret []
             end;
           file ← create env file_id title thumbnail_url;
           filesCache_flushAll;;
           call (reply (msg_uploaded title (_id file) thumbnail_url)) (reply_ok env)
       end)
    (log console_error;;
     call (reply msg_failed) (reply_ok env)).

(** [Math.max(Number(req.query.page) || 1, 1)] *)
Definition page_of (query_page : option jsstring) : number :=
  Math_max (or_else (Number query_page) (of_Z 1)) (of_Z 1).

Definition limit : number := of_Z 30.

Definition cacheKey (page : number) : jsstring :=
  lit "files_" ++ Number_toString page.

Definition response (page : number) (files : list FileDoc) (total : number)
    : Listing :=
  {| success := true;
     page := page;
     perPage := limit;
     total := total;
     totalPages := Math_ceil (div total limit);
     data := files |}.

Definition failure : M unit :=
  log console_error;;
  log (res_json 500 (FailureBody None)).

(** [app.get("/api/files", ...)] *)
Definition api_files (env : Env) (query_page : option jsstring) : M unit :=
  try_catch
    (let page := page_of query_page in
     let skip := mul (sub page (of_Z 1)) limit in
     cached ← filesCache_get (cacheKey page) (now env);
     match cached with
     | Some hit => log (res_json 200 (ListingBody hit))
     | None =>
         '(files, total) ← find_and_count env skip limit;
         filesCache_set (cacheKey page) (response page files total) (now_set env);;
         log (res_json 200 (ListingBody (response page files total)))
     end)
    failure.

End Part000.

(* ================================================================== *)
(** * Listing requests in flight                                       *)
(* ================================================================== *)

(** The process is single-threaded: a handler runs until it awaits, and
    other handlers may run before it resumes.  [api_files] awaits once,
    at [await Promise.all(...)]; the section splits it there.  The
    store answers the two queries from the catalog as it is when they
    are issued; the answer reaches the handler when it resumes.  The
    section is stated over the parts in which the two revisions differ,
    and instantiated for each below. *)
Section InFlight.

Variable page_of : option jsstring -> number.
Variable limit : number.
Variable cacheKey : number -> jsstring.
Variable response : number -> list FileDoc -> number -> Listing.
Variable failure : M unit.

(** A request suspended at the await: its page and what the two queries
    it issued resolve to. *)
Record Suspended : Type := {
  s_page : number;
  s_answer : outcome (list FileDoc * number)
}.

(** From the arrival of the request to the await (or to the end, on a hit). *)
Definition begin (env : Env) (query_page : option jsstring) : M (option Suspended) :=
  let page := page_of query_page in
  let skip := mul (sub page (of_Z 1)) limit in
  cached ← filesCache_get (cacheKey page) (now env);
  match cached with
  | Some hit => log (res_json 200 (ListingBody hit));; mret None
  | None =>
      log (File_find skip limit);;
      log File_countDocuments;;
      w ← get_world;
      mret (Some {| s_page := page;
                    s_answer := both (find_page env (catalog w) skip limit)
                                     (countDocuments env (catalog w)) |})
  end.

(** From the await to the end. *)
Definition resume (env : Env) (s : Suspended) : M unit :=
  try_catch
    ('(files, total) ← settle (s_answer s);
     filesCache_set (cacheKey (s_page s)) (response (s_page s) files total)
       (now_set env);;
     log (res_json 200 (ListingBody (response (s_page s) files total))))
    failure.

Inductive Task : Type :=
| Arrived (query_page : option jsstring)
| Waiting (s : Suspended)
| Done.

(** One turn of the event loop given to a task. *)
Definition advance (env : Env) (t : Task) : M Task :=
  match t with
  | Arrived q =>
      s ← begin env q;
      mret (match s with Some s => Waiting s | None => Done end)
  | Waiting s => resume env s;; mret Done
  | Done => mret Done
  end.

(** A schedule names, turn by turn, the task that runs and the outcomes
    it meets. *)
Fixpoint run_schedule (schedule : list (nat * Env)) (tasks : list Task)
    : M (list Task) :=
  match schedule with
  | [] => mret tasks
  | (i, env) :: rest =>
      match tasks !! i with
      | Some t =>
          t' ← advance env t;
          run_schedule rest (<[i := t']> tasks)
      | None => run_schedule rest tasks
      end
  end.

End InFlight.

Definition IndexTs_advance : Env -> Task -> M Task :=
  advance IndexTs.page_of IndexTs.limit IndexTs.cacheKey IndexTs.response
    IndexTs.failure.

Definition Part000_advance : Env -> Task -> M Task :=
  advance Part000.page_of Part000.limit Part000.cacheKey Part000.response
    Part000.failure.

Definition IndexTs_schedule : list (nat * Env) -> list Task -> M (list Task) :=
  run_schedule IndexTs.page_of IndexTs.limit IndexTs.cacheKey IndexTs.response
    IndexTs.failure.

Definition Part000_schedule : list (nat * Env) -> list Task -> M (list Task) :=
  run_schedule Part000.page_of Part000.limit Part000.cacheKey Part000.response
    Part000.failure.

(* ================================================================== *)
(** * Vocabulary of the properties                                     *)
(* ================================================================== *)

(** The number of listing queries among the calls made. *)
Definition is_find (e : Event) : bool :=
  match e with File_find _ _ => true | _ => false end.

Definition store_queries (evs : list Event) : nat :=
  length (List.filter is_find evs).

Definition is_relay (e : Event) : bool :=
  match e with
  | getFile _ | fetch_get _ | fetch_put _ => true
  | _ => false
  end.

Definition is_create (e : Event) : bool :=
  match e with File_create _ => true | _ => false end.

(** The handle passed to [sendVideo], if the call was made. *)
Definition delivered (evs : list Event) : option jsstring :=
  match List.find (fun e => match e with sendVideo _ _ => true | _ => false end) evs with
  | Some (sendVideo _ h) => Some h
  | _ => None
  end.

(** The HTTP replies among the calls made. *)
Definition replies (evs : list Event) : list (Z * Body) :=
  omap (fun e => match e with res_json st b => Some (st, b) | _ => None end) evs.

(** The record the store returns for an id. *)
Definition lookup_id (id : jsstring) (docs : list FileDoc) : option FileDoc :=
  List.find (fun d => bool_decide (_id d = id)) docs.

(** Every cached handle is the handle of the record the store returns
    for that id. *)
Definition cache_consistent (w : World) : Prop :=
  forall id h, fileIdCache w !! id = Some h ->
    exists d, lookup_id id (catalog w) = Some d /\ file_id d = h.

(** The id a [/start] payload stands for. *)
Definition short_id (payload : jsstring) : jsstring :=
  replace_video_prefix (trim payload).

(** The thumbnail relay of an upload fails: [getFile] or either [fetch]
    throws, or a response is not [ok]. *)
Definition relay_fails (env : Env) : bool :=
  match getFile_path env, download_ok env, github_ok env with
  | Some _, Some true, Some true => false
  | _, _, _ => true
  end.

(** The listing cache was built with the configuration of the source and
    nothing has changed its settings. *)
Definition configured (w : World) : Prop :=
  NodeCache.stdTTL (filesCache w) = 60 * 5.

(** What the theorems below ask of the world they start from; it holds
    when the process starts and every handler keeps it. *)
Definition sound (w : World) : Prop := cache_consistent w /\ configured w.

(** The life of a listing cache entry, in milliseconds. *)
Definition TTL_ms : Z := 60 * 5 * 1000.

(** What the handlers do to the listing cache, with the instant of each
    call. *)
Inductive CacheOp : Type :=
| op_get (key : jsstring) (at_ : Z)
| op_set (key : jsstring) (value : Listing) (at_ : Z)
| op_flushAll
| op_checkData (at_ : Z).

Definition apply_op (c : NodeCache.cache Listing) (o : CacheOp)
    : NodeCache.cache Listing :=
  match o with
  | op_get key at_ => snd (NodeCache.get c key at_)
  | op_set key value at_ => NodeCache.set c key value at_
  | op_flushAll => NodeCache.flushAll c
  | op_checkData at_ => NodeCache.checkData c at_
  end.

Definition run_ops (ops : list CacheOp) : NodeCache.cache Listing :=
  fold_left apply_op ops IndexTs.new_filesCache.

(** Nothing in [ops] discards or replaces the entry of [key]. *)
Definition keeps (key : jsstring) (o : CacheOp) : Prop :=
  match o with
  | op_flushAll => False
  | op_set key' _ _ => key' <> key
  | _ => True
  end.

Definition set_instants_nonneg (o : CacheOp) : Prop :=
  match o with
  | op_set _ _ at_ => 0 <= at_
  | _ => True
  end.

(** A page parameter that is an integer in decimal notation: optional
    white space around an optional sign and one or more digits. *)
Definition decimal_integer_text (s : jsstring) : bool :=
  let '(_, u) := strip_sign (trim s) in
  match u with
  | [] => false
  | _ => forallb is_decimal_digit u
  end.

(** A page parameter that is empty or all white space. *)
Definition blank_text (s : jsstring) : bool :=
  match trim s with [] => true | _ => false end.

(** The page parameters on which the two revisions are compared: absent,
    blank, or an integer in decimal notation. *)
Definition agreeing_input (q : option jsstring) : bool :=
  match q with
  | None => true
  | Some s => decimal_integer_text s || blank_text s
  end.

(** Where an entry of the listing cache comes from: a [set] of that key
    with that value, not followed by a [flushAll] or another [set] of
    the key, that gave it its deadline. *)
Definition stored_by (ops : list CacheOp) (key : jsstring)
    (e : NodeCache.entry Listing) : Prop :=
  exists before at_ after,
    ops = before ++ op_set key (NodeCache.v e) at_ :: after
    /\ Forall (keeps key) after
    /\ NodeCache.t e = at_ + TTL_ms.

(** The same request, made once with each of the given outcomes, one
    call after the other. *)
Fixpoint repeat_request (handler : Env -> option jsstring -> M unit)
    (envs : list Env) (query_page : option jsstring) : M unit :=
  match envs with
  | [] => mret ()
  | env :: rest => handler env query_page;; repeat_request handler rest query_page
  end.

(** The world after a listing was fetched and stored under [key]. *)
Definition filled (w : World) (key : jsstring) (value : Listing) (env : Env)
    : World :=
  {| catalog := catalog w; fileIdCache := fileIdCache w;
     filesCache := NodeCache.set (snd (NodeCache.get (filesCache w) key (now env)))
                     key value (now_set env) |}.

(** A run of requests that asked the store once and answered every
    request with the listing [l]. *)
Definition served_once (evs : list Event) (requests : nat)
    (skip limit : number) (l : Listing) : Prop :=
  evs = [File_find skip limit; File_countDocuments]
          ++ repeat (res_json 200 (ListingBody l)) requests
  /\ replies evs = repeat (200, ListingBody l) requests
  /\ store_queries evs = 1%nat.

(** A task that has not looked up the cache yet, or has finished. *)
Definition idle_or_asking (q : option jsstring) (t : Task) : Prop :=
  t = Arrived q \/ t = Done.

(** The outcome of an upload that was turned away at the door. *)
Definition turned_away (msg_only_admin : message) (env : Env) (w : World)
    (r : Run unit) : Prop :=
  world r = w
  /\ existsb is_create (events r) = false
  /\ existsb is_relay (events r) = false
  /\ (exists rest, events r = deleteMessage :: rest)
  /\ (deleteMessage_ok env = true ->
      exists rest, events r = deleteMessage :: reply msg_only_admin :: rest)
  /\ (deleteMessage_ok env = true -> reply_ok env = true ->
      events r = [deleteMessage; reply msg_only_admin]).

(** The outcome of an upload that was given up: nothing created, nothing
    changed, the relay calls made so far, then the failure reply. *)
Definition aborted (msg_failed : message) (w : World) (r : Run unit) : Prop :=
  world r = w
  /\ existsb is_create (events r) = false
  /\ exists calls,
       events r = calls ++ [console_error; reply msg_failed]
       /\ forallb is_relay calls = true.

(** What follows a reply in the log: nothing, or the [catch] block when
    the reply itself was rejected. *)
Definition after_reply (msg_error : message) (env : Env) : list Event :=
  if reply_ok env then [] else [console_error; reply msg_error].

(** The three early exits of [/start]. *)
Definition early_exits (start : Env -> Ctx -> M unit)
    (msg_welcome msg_invalid_link msg_not_available msg_error : message)
    (env : Env) (ctx : Ctx) (w : World) : Prop :=
  (no_payload (match_ ctx) = true ->
     events (start env ctx w) = reply msg_welcome :: after_reply msg_error env
     /\ world (start env ctx w) = w)
  /\ (forall p, match_ ctx = Some p -> p <> [] -> short_id p = [] ->
     events (start env ctx w) = reply msg_invalid_link :: after_reply msg_error env
     /\ world (start env ctx w) = w)
  /\ (forall p, match_ ctx = Some p -> short_id p <> [] ->
     cache_consistent w -> lookup_id (short_id p) (catalog w) = None ->
     findById_ok env = true ->
     events (start env ctx w)
       = File_findById (short_id p) :: reply msg_not_available
           :: after_reply msg_error env
     /\ world (start env ctx w) = w)
  /\ msg_not_available <> msg_invalid_link.

(** Resolving an id the store holds delivers the store's handle, cached
    or not. *)
Definition resolution_agrees_with_store (start : Env -> Ctx -> M unit)
    (env : Env) (ctx : Ctx) (w : World) (p : jsstring) : Prop :=
  forall d, lookup_id (short_id p) (catalog w) = Some d ->
    delivered (events (start env ctx w)) = Some (file_id d)
    /\ (forall h, fileIdCache w !! short_id p = Some h -> h = file_id d)
    /\ catalog (world (start env ctx w)) = catalog w
    /\ cache_consistent (world (start env ctx w)).

(** Resolving an id the store does not hold leaves the world as it was,
    and the id resolves once an upload has created it. *)
Definition miss_is_not_cached (start : Env -> Ctx -> M unit)
    (on_video : ProcessEnv -> Env -> Ctx -> M unit)
    (penv : ProcessEnv) (env : Env) (ctx : Ctx) (w : World) (p : jsstring) : Prop :=
  lookup_id (short_id p) (catalog w) = None ->
    world (start env ctx w) = w
    /\ forall env2 ctx2 video env3,
         not_admin penv ctx2 = false ->
         message_video ctx2 = Some video ->
         (video_thumbnail video = None \/ relay_fails env2 = false) ->
         create_id env2 = Some (short_id p) ->
         findById_ok env3 = true -> reply_ok env3 = true ->
         delivered (events (start env3 ctx
                      (world (on_video penv env2 ctx2 (world (start env ctx w))))))
         = Some (video_file_id video).

(** The thumbnail URL of an accepted upload. *)
Definition thumbnail_url_of (penv : ProcessEnv) (env : Env) (video : Video)
    : jsstring :=
  match video_thumbnail video with
  | Some _ =>
      lit "https://raw.githubusercontent.com/"
        ++ interpolate (GITHUB_USERNAME penv) ++ lit "/"
        ++ interpolate (GITHUB_REPO penv) ++ lit "/"
        ++ branch penv ++ lit "/" ++ generateThumbnailPath env
  | None => []
  end.

(** The record an accepted upload creates. *)
Definition new_doc (penv : ProcessEnv) (env : Env) (ctx : Ctx) (video : Video)
    (id : jsstring) : FileDoc :=
  {| _id := id; file_id := video_file_id video; title := title_of ctx;
     thumbnail := thumbnail_url_of penv env video; createdAt := now env |}.

(** The calls of a thumbnail relay that goes through. *)
Definition relay_calls (penv : ProcessEnv) (env : Env) (video : Video)
    : list Event :=
  match video_thumbnail video, getFile_path env with
  | Some h, Some file_path =>
      [getFile h;
       fetch_get (lit "https://api.telegram.org/file/bot"
                    ++ interpolate (BOT_TOKEN penv) ++ lit "/" ++ file_path);
       fetch_put (lit "https://api.github.com/repos/"
                    ++ interpolate (GITHUB_USERNAME penv) ++ lit "/"
                    ++ interpolate (GITHUB_REPO penv) ++ lit "/contents/"
                    ++ generateThumbnailPath env)]
  | _, _ => []
  end.

(** The page parameters the specification singles out. *)
Definition defaulting_inputs : list (option jsstring) :=
  [None; Some (lit "0"); Some (lit "-5"); Some (lit "abc")].

(** The first page of a catalog, as the store returns it. *)
Definition first_page (docs : list FileDoc) : list FileDoc :=
  take 30 (drop 0 (sort_createdAt_desc docs)).

(** The listing endpoint answers a defaulting input with page 1. *)
Definition serves_page_one (api_files : Env -> option jsstring -> M unit)
    (page_of : option jsstring -> number) (cacheKey : number -> jsstring)
    (response : number -> list FileDoc -> number -> Listing)
    (env : Env) (w : World) (q : option jsstring) : Prop :=
  page_of q = of_Z 1
  /\ (fst (NodeCache.get (filesCache w) (cacheKey (page_of q)) (now env)) = None ->
      replies (events (api_files env q w))
      = [(200, ListingBody (response (of_Z 1) (first_page (catalog w))
                              (of_Z (Z.of_nat (length (catalog w))))))]).

(** [totalPages] is the least number of pages of 30 that hold [n] records. *)
Definition totalPages_is_ceiling
    (response : number -> list FileDoc -> number -> Listing) (n : Z) : Prop :=
  forall pg files,
    exists c, totalPages (response pg files (of_Z n)) = of_Z c
              /\ 30 * (c - 1) < n <= 30 * c.

(* ================================================================== *)
(** * Sample runs                                                      *)
(* ================================================================== *)

Definition sample_penv : ProcessEnv :=
  {| BOT_TOKEN := Some (lit "123:abc");
     ADMIN_ID := Some (lit "42");
     GITHUB_USERNAME := Some (lit "owner");
     GITHUB_REPO := Some (lit "thumbs");
     GITHUB_TOKEN := Some (lit "ghp");
     GITHUB_BRANCH := None |}.

(** Every collaborator answers; the clock reads [t]; the store would
    assign the id [id] to a new record. *)
Definition calm (t : Z) (id : string) : Env :=
  {| now := t; now_set := t;
     deleteMessage_ok := true; reply_ok := true; sendVideo_ok := true;
     getFile_path := Some (lit "thumbnails/file_7.jpg");
     download_ok := Some true; github_ok := Some true;
     randomUUID := lit "1b4e28ba-2fa1-41d2-883f-0016d3cca427";
     create_id := Some (lit id);
     findById_ok := true; find_ok := true; find_irregular := None;
     countDocuments_ok := true |}.

(** As [calm], but the download of the thumbnail answers with an error
    status. *)
Definition download_refused (t : Z) (id : string) : Env :=
  {| now := t; now_set := t;
     deleteMessage_ok := true; reply_ok := true; sendVideo_ok := true;
     getFile_path := Some (lit "thumbnails/file_7.jpg");
     download_ok := Some false; github_ok := Some true;
     randomUUID := lit "1b4e28ba-2fa1-41d2-883f-0016d3cca427";
     create_id := Some (lit id);
     findById_ok := true; find_ok := true; find_irregular := None;
     countDocuments_ok := true |}.

(** A video sent by [sender], captioned "Trailer". *)
Definition video_from (sender : Z) (thumbnail_file_id : option jsstring) : Ctx :=
  {| from_id := Some sender; match_ := None;
     message_video := Some {| video_file_id := lit "BAACAgQAAx0";
                              video_thumbnail := thumbnail_file_id |};
     message_caption := Some (lit "Trailer") |}.

(** [/start payload] sent by user 7. *)
Definition start_with (payload : string) : Ctx :=
  {| from_id := Some 7; match_ := Some (lit payload);
     message_video := None; message_caption := None |}.

Definition trailer (id : string) (t : Z) : FileDoc :=
  {| _id := lit id; file_id := lit "BAACAgQAAx0"; title := lit "Trailer";
     thumbnail := []; createdAt := t |}.

(** A catalog of [n] records, the newest first. *)
Definition catalog_of (n : nat) : list FileDoc :=
  map (fun i => {| _id := Z_to_string (Z.of_nat i); file_id := lit "h";
                   title := lit "t"; thumbnail := [];
                   createdAt := Z.of_nat i |})
      (rev (seq 0 n)).

(** Page 1 is listed, then the administrator uploads a video, then page
    1 is listed again: the replies of the second listing. *)
Definition listed_uploaded_listed
    (boot : list FileDoc -> World)
    (api_files : Env -> option jsstring -> M unit)
    (on_video : ProcessEnv -> Env -> Ctx -> M unit) : list Event * list (Z * Body) :=
  let w1 := world (api_files (calm 1000 "65a1") (Some (lit "1")) (boot [])) in
  let upload := on_video sample_penv (calm 2000 "65a1") (video_from 42 None) w1 in
  (events upload,
   replies (events (api_files (calm 3000 "65a1") (Some (lit "1")) (world upload)))).

(** A listing of page 1 is suspended at its await while an upload runs
    to its acknowledgment; it then resumes, and page 1 is listed again:
    the replies of that last listing. *)
Definition listing_suspended_across_upload : list (Z * Body) :=
  let begun := Part000_advance (calm 1000 "65a1") (Arrived (Some (lit "1")))
                 (Part000.boot []) in
  let upload := Part000.on_video sample_penv (calm 2000 "65a1") (video_from 42 None)
                  (world begun) in
  let resumed :=
    match result begun with
    | Ok t => Part000_advance (calm 2500 "65a1") t (world upload)
    | Throw e => MkRun (Throw e) (world upload) []
    end in
  replies (events (Part000.api_files (calm 3000 "65a1") (Some (lit "1"))
                     (world resumed))).

(** Two requests for page 2 arrive together: both look up the cache
    before either query has answered. *)
Definition two_at_once : list (nat * Env) :=
  [(0%nat, calm 1000 "65a1"); (1%nat, calm 1001 "65a1");
   (0%nat, calm 1002 "65a1"); (1%nat, calm 1003 "65a1")].

Definition two_requests : list Task :=
  [Arrived (Some (lit "2")); Arrived (Some (lit "2"))].

(* ================================================================== *)
(** * Further vocabulary                                               *)
(* ================================================================== *)

(** A page number the endpoint can compute: a finite number not below
    1, or positive infinity. *)
Definition at_least_one (n : number) : Prop :=
  match n with
  | Fin x => (1 <= x)%Q
  | Infinity false => True
  | _ => False
  end.

(** A text with no white space at either end. *)
Definition clean_ends (s : jsstring) : Prop :=
  (forall c r, s = c :: r -> StrWhiteSpaceChar c = false)
  /\ (forall r c, s = r ++ [c] -> StrWhiteSpaceChar c = false).

(** What a relay helper does to the world and the log: nothing to the
    world; the calls in [calls] and no other. *)
Definition relay_step {A} (r : Run A) (w : World) (calls : list Event) : Prop :=
  world r = w /\ events r = calls.

(** The URL the download of a Telegram file is fetched from. *)
Definition telegram_file_url (penv : ProcessEnv) (file_path : jsstring) : jsstring :=
  lit "https://api.telegram.org/file/bot"
    ++ interpolate (BOT_TOKEN penv) ++ lit "/" ++ file_path.

(** The URL a thumbnail is put to. *)
Definition github_contents_url (penv : ProcessEnv) (path : jsstring) : jsstring :=
  lit "https://api.github.com/repos/"
    ++ interpolate (GITHUB_USERNAME penv) ++ lit "/"
    ++ interpolate (GITHUB_REPO penv) ++ lit "/contents/" ++ path.

(** The public URL of a thumbnail that was put at [path]. *)
Definition raw_url (penv : ProcessEnv) (path : jsstring) : jsstring :=
  lit "https://raw.githubusercontent.com/"
    ++ interpolate (GITHUB_USERNAME penv) ++ lit "/"
    ++ interpolate (GITHUB_REPO penv) ++ lit "/"
    ++ branch penv ++ lit "/" ++ path.

(** The window of a catalog that page [z] shows. *)
Definition page_window (z : Z) (docs : list FileDoc) : list FileDoc :=
  take 30 (drop (Z.to_nat (30 * (z - 1))) (sort_createdAt_desc docs)).

(** What an upload can do to the world: nothing, or put one new record,
    made from the video and the caption, in front of the catalog
    (emptying the listing cache in the revision that flushes). *)
Definition upload_effect (flushes : bool) (penv : ProcessEnv) (ctx : Ctx)
    (w : World) (r : Run unit) : Prop :=
  world r = w
  \/ exists doc video,
       world r = {| catalog := doc :: catalog w;
                    fileIdCache := fileIdCache w;
                    filesCache := if flushes
                                  then NodeCache.flushAll (filesCache w)
                                  else filesCache w |}
       /\ not_admin penv ctx = false
       /\ message_video ctx = Some video
       /\ file_id doc = video_file_id video
       /\ title doc = title_of ctx
       /\ lookup_id (_id doc) (catalog w) = None.

(** What [/start] can do to the world: nothing, or remember the handle
    of the record the store holds for the id of the link. *)
Definition start_effect (ctx : Ctx) (w : World) (r : Run unit) : Prop :=
  world r = w
  \/ exists p d,
       match_ ctx = Some p
       /\ lookup_id (short_id p) (catalog w) = Some d
       /\ world r = {| catalog := catalog w;
                       fileIdCache := <[short_id p := file_id d]> (fileIdCache w);
                       filesCache := filesCache w |}.

(** What a listing request can do to the world: nothing outside the
    listing cache, and in it nothing to the entries of other keys. *)
Definition listing_effect (key : jsstring) (w : World) (r : Run unit) : Prop :=
  catalog (world r) = catalog w
  /\ fileIdCache (world r) = fileIdCache w
  /\ forall k, k <> key ->
       NodeCache.data (filesCache (world r)) !! k = NodeCache.data (filesCache w) !! k.

(** A listing request has exactly one reply, with status 200 or 500,
    and asks the store at most once. *)
Definition answered_once (r : Run unit) : Prop :=
  result r = Ok ()
  /\ (exists st b, replies (events r) = [(st, b)] /\ (st = 200 \/ st = 500))
  /\ (store_queries (events r) <= 1)%nat.

(** As [calm], but every call to the store is rejected. *)
Definition store_down (t : Z) : Env :=
  {| now := t; now_set := t;
     deleteMessage_ok := true; reply_ok := true; sendVideo_ok := true;
     getFile_path := Some (lit "thumbnails/file_7.jpg");
     download_ok := Some true; github_ok := Some true;
     randomUUID := lit "1b4e28ba-2fa1-41d2-883f-0016d3cca427";
     create_id := None;
     findById_ok := false; find_ok := false; find_irregular := None;
     countDocuments_ok := false |}.

(** The calls of a delivery: the acknowledgment, the video, and the
    [catch] block when sending the video is rejected. *)
Definition delivery (msg_ready msg_error : message) (env : Env) (ctx : Ctx)
    (handle : jsstring) : list Event :=
  reply msg_ready :: sendVideo (from_id ctx) handle
    :: (if sendVideo_ok env then [] else [console_error; reply msg_error]).

(** As [calm], but the store rejects the new record. *)
Definition create_rejected (t : Z) : Env :=
  {| now := t; now_set := t;
     deleteMessage_ok := true; reply_ok := true; sendVideo_ok := true;
     getFile_path := Some (lit "thumbnails/file_7.jpg");
     download_ok := Some true; github_ok := Some true;
     randomUUID := lit "1b4e28ba-2fa1-41d2-883f-0016d3cca427";
     create_id := None;
     findById_ok := true; find_ok := true; find_irregular := None;
     countDocuments_ok := true |}.

(** As [calm], with another UUID drawn. *)
Definition calm_again (t : Z) (id : string) : Env :=
  {| now := t; now_set := t;
     deleteMessage_ok := true; reply_ok := true; sendVideo_ok := true;
     getFile_path := Some (lit "thumbnails/file_8.jpg");
     download_ok := Some true; github_ok := Some true;
     randomUUID := lit "9c5b94b1-35ad-49bb-b118-8e8fc24abf80";
     create_id := Some (lit id);
     findById_ok := true; find_ok := true; find_irregular := None;
     countDocuments_ok := true |}.

(** The number of pages of 30 that hold [n] records. *)
Definition pages_of (n : nat) : nat := Z.to_nat ((Z.of_nat n + 29) / 30).

(** A page parameter of at most 14 characters, or none: the integer
    [parseInt] reads in it is below 2^48 in magnitude, so that the page,
    the skip [(page - 1) * 30] and the cache key are computed without
    rounding, by the code as by this development. *)
Definition short_parameter (q : option jsstring) : Prop :=
  match q with
  | Some s => (length s <= 14)%nat
  | None => True
  end.

(** A sender id that is a safe integer, as the ids of Telegram are, or
    no sender. *)
Definition safe_sender (ctx : Ctx) : Prop :=
  match from_id ctx with
  | Some y => Z.abs y < 2 ^ 53
  | None => True
  end.

(** A page number whose skip is a safe integer. *)
Definition safe_page (z : Z) : Prop := 1 <= z < 2 ^ 48.

(** The query [?page=z]. *)
Definition page_parameter (z : Z) : option jsstring := Some (Z_to_string z).

(** The listing of page [z] of a catalog: the response object of either
    revision, field by field. *)
Definition page_listing (z : Z) (docs : list FileDoc) : Listing :=
  {| success := true;
     page := of_Z z;
     perPage := of_Z 30;
     total := of_Z (Z.of_nat (length docs));
     totalPages := of_Z ((Z.of_nat (length docs) + 29) / 30);
     data := page_window z docs |}.

(** A client asks for the pages in [pages], one request after the
    other, each answered before the next is made. *)
Fixpoint walk (handler : Env -> option jsstring -> M unit) (env : Env)
    (pages : list Z) : M unit :=
  match pages with
  | [] => mret ()
  | z :: rest => handler env (page_parameter z);; walk handler env rest
  end.

(** The records of the listings sent, in the order they were sent. *)
Definition listed (evs : list Event) : list FileDoc :=
  concat (map (fun r => match snd r with
                        | ListingBody l => data l
                        | FailureBody _ => []
                        end) (replies evs)).

(** The pages 1 to [n]. *)
Definition first_pages (n : nat) : list Z := map Z.of_nat (seq 1 n).

(** The store answers the two queries of a listing request: the page of
    records is [files], and the count arrives. *)
Definition store_answers (env : Env) (docs : list FileDoc) (skip limit : number)
    (files : list FileDoc) : Prop :=
  find_page env docs skip limit = Ok files /\ countDocuments_ok env = true.

(** A turn taken within the window of five minutes that begins at [T0]:
    what it stores, it stores at [T0] at the earliest; what it looks
    up, it looks up at [T0 + TTL_ms] at the latest. *)
Definition within_window (T0 : Z) (env : Env) : Prop :=
  T0 <= now_set env /\ now env <= T0 + TTL_ms.

(** A run of requests for one page in which the store was asked
    [queries] times, before any reply, and every reply carried the
    listing [l]. *)
Definition served_by (queries : nat) (evs : list Event) (requests : nat)
    (skip limit : number) (l : Listing) : Prop :=
  evs = concat (repeat [File_find skip limit; File_countDocuments] queries)
          ++ repeat (res_json 200 (ListingBody l)) requests
  /\ replies evs = repeat (200, ListingBody l) requests
  /\ store_queries evs = queries.

(** Two calls for page 1 overlap: the second looks up the cache while
    the first awaits the store.  A third call follows a second later. *)
Definition overlapping_calls : list (nat * Env) :=
  [(0%nat, calm 1000 "65a1"); (1%nat, calm 1500 "65a1");
   (0%nat, calm 2000 "65a1"); (1%nat, calm 2500 "65a1");
   (2%nat, calm 3500 "65a1")].

Definition three_calls : list Task :=
  [Arrived (Some (lit "1")); Arrived (Some (lit "1")); Arrived (Some (lit "1"))].

(** An invalidation among the calls made. *)
Definition is_flush (e : Event) : bool :=
  match e with flushAll => true | _ => false end.

(* ================================================================== *)
(** * Proofs                                                           *)
(* ================================================================== *)

#[local] Arguments NodeCache.get : simpl never.
#[local] Arguments NodeCache.set : simpl never.
#[local] Arguments NodeCache.flushAll : simpl never.
#[local] Arguments IndexTs.cacheKey : simpl never.
#[local] Arguments IndexTs.page_of : simpl never.
#[local] Arguments IndexTs.response : simpl never.
#[local] Arguments Part000.cacheKey : simpl never.
#[local] Arguments Part000.page_of : simpl never.
#[local] Arguments Part000.response : simpl never.
#[local] Arguments find_page : simpl never.
#[local] Arguments mul : simpl never.
#[local] Arguments sub : simpl never.
#[local] Arguments of_Z : simpl never.
#[local] Arguments not_admin : simpl never.
#[local] Arguments title_of : simpl never.
#[local] Arguments generateThumbnailPath : simpl never.
#[local] Arguments replace_video_prefix : simpl never.
#[local] Arguments trim : simpl never.
#[local] Arguments lit : simpl never.
#[local] Arguments interpolate : simpl never.
#[local] Arguments branch : simpl never.
#[local] Arguments lookup_id : simpl never.

(** Unfolds the plumbing of a handler down to matches on outcomes. *)
Ltac unfold_m :=
  unfold try_catch, filesCache_get, filesCache_set, filesCache_flushAll,
    fileIdCache_get, fileIdCache_set, find_and_count, findById, create, settle,
    downloadTelegramFile, uploadToGitHub,
    log, call, throw, get_world, put_world,
    mbind, M_bind, bind, mret, M_ret, ret in *.

(* ------------------------------------------------------------------ *)
(** ** Numbers and text                                                *)
(* ------------------------------------------------------------------ *)

Lemma Qred_inject_Z z : Qred (inject_Z z) = inject_Z z.
Proof. apply Qred_identity. simpl. apply Z.gcd_1_r. Qed.

Lemma Qred_of_integer q z : (q == inject_Z z)%Q -> Qred q = inject_Z z.
Proof. intros H. rewrite <- (Qred_inject_Z z). now apply Qred_complete. Qed.

(** [Math.ceil(n / 30)] on integers. *)
Lemma ceil_div_30 (n : Z) :
  Math_ceil (div (of_Z n) (of_Z 30)) = of_Z ((n + 29) / 30).
Proof.
  unfold div, of_Z, Math_ceil.
  change (Qeq_bool (inject_Z 30) 0) with false. cbv iota.
  unfold of_Z. do 2 f_equal.
  rewrite (Qceiling_comp _ _ (Qred_correct _)).
  unfold Qceiling. rewrite <- (Qfloor_comp (inject_Z (- n) / inject_Z 30)%Q).
  - rewrite <- Zdiv_Qdiv. Z.div_mod_to_equations. lia.
  - unfold Qeq, Qdiv, Qmult, Qopp, Qinv, inject_Z. simpl. lia.
Qed.

Lemma totalPages_ceiling_IndexTs n : totalPages_is_ceiling IndexTs.response n.
Proof.
  intros pg files. exists ((n + 29) / 30). split.
  - apply ceil_div_30.
  - Z.div_mod_to_equations. lia.
Qed.

Lemma totalPages_ceiling_Part000 n : totalPages_is_ceiling Part000.response n.
Proof.
  intros pg files. exists ((n + 29) / 30). split.
  - apply ceil_div_30.
  - Z.div_mod_to_equations. lia.
Qed.

Lemma defaulting_inputs_page_one q :
  In q defaulting_inputs ->
  IndexTs.page_of q = of_Z 1 /\ Part000.page_of q = of_Z 1.
Proof.
  unfold defaulting_inputs.
  intros [<-|[<-|[<-|[<-|[]]]]]; split; vm_compute; reflexivity.
Qed.

Lemma trimStart_split s :
  exists p, s = p ++ trimStart s /\ forallb StrWhiteSpaceChar p = true.
Proof.
  induction s as [|c s (p & Hp & Hws)]; [now exists []|].
  simpl. destruct (StrWhiteSpaceChar c) eqn:E.
  - exists (c :: p). simpl. rewrite E, Hws. split; [now f_equal | reflexivity].
  - now exists [].
Qed.

Lemma trimStart_head s c r : trimStart s = c :: r -> StrWhiteSpaceChar c = false.
Proof.
  induction s as [|a s IH]; [discriminate|].
  simpl. destruct (StrWhiteSpaceChar a) eqn:E; [exact IH|].
  now intros [= <- _].
Qed.

Lemma trimEnd_split s :
  exists p, s = trimEnd s ++ p /\ forallb StrWhiteSpaceChar p = true.
Proof.
  destruct (trimStart_split (rev s)) as (p & Hp & Hws).
  exists (rev p). split.
  - unfold trimEnd. rewrite <- rev_app_distr, <- Hp. symmetry. apply rev_involutive.
  - rewrite forallb_forall in *. intros x Hx. apply Hws. now apply in_rev.
Qed.

Lemma whitespace_not_digit c radix :
  StrWhiteSpaceChar c = true -> radix <= 36 -> digit_of radix c = None.
Proof.
  unfold StrWhiteSpaceChar, digit_of. intros H Hr.
  repeat match goal with
  | |- context [(?a <=? ?b)%N] => destruct (N.leb_spec a b)
  end; cbn [andb];
  repeat match goal with
  | |- context [?a <? ?b] => destruct (Z.ltb_spec a b)
  end; try reflexivity; try lia.
  all: exfalso; revert H;
    repeat match goal with
    | |- context [(?a =? ?b)%N] => destruct (N.eqb_spec a b); try lia
    | |- context [(?a <=? ?b)%N] => destruct (N.leb_spec a b); try lia
    end; cbn; discriminate.
Qed.

Lemma whitespace_not_marker c :
  StrWhiteSpaceChar c = true -> (c =? 120)%N = false /\ (c =? 88)%N = false.
Proof.
  intros H. split; apply N.eqb_neq; intros ->; vm_compute in H; discriminate.
Qed.

Lemma digit_of_decimal c :
  is_decimal_digit c = true -> digit_of 10 c = Some (Z.of_N c - 48).
Proof.
  unfold is_decimal_digit, digit_of. intros H. rewrite H.
  apply andb_true_iff in H as [H1%N.leb_le H2%N.leb_le].
  destruct (Z.ltb_spec (Z.of_N c - 48) 10); [reflexivity | lia].
Qed.

Lemma decimal_digit_not_marker c :
  is_decimal_digit c = true ->
  (c =? 45)%N = false /\ (c =? 43)%N = false /\ (c =? 120)%N = false
  /\ (c =? 88)%N = false /\ (c =? 98)%N = false /\ (c =? 66)%N = false
  /\ (c =? 111)%N = false /\ (c =? 79)%N = false /\ (c =? 73)%N = false.
Proof.
  intros H. repeat split; apply N.eqb_neq; intros ->; vm_compute in H; discriminate.
Qed.

(** The digits of a run of decimal digits followed by nothing or by
    white space. *)
Lemma span_digits_decimal u w :
  forallb is_decimal_digit u = true ->
  forallb StrWhiteSpaceChar w = true ->
  span_digits 10 (u ++ w) = (map (fun c => Z.of_N c - 48) u, w).
Proof.
  intros Hu Hw. induction u as [|c u IH].
  - simpl. destruct w as [|c w]; [reflexivity|]. simpl in *.
    apply andb_true_iff in Hw as [Hc _].
    now rewrite (whitespace_not_digit c 10 Hc).
  - simpl in *. apply andb_true_iff in Hu as [Hc Hu].
    now rewrite (digit_of_decimal c Hc), (IH Hu).
Qed.

(** What [decimal_integer_text] says of the trimmed text. *)
Lemma decimal_integer_text_inv s :
  decimal_integer_text s = true ->
  exists neg c u,
    strip_sign (trim s) = (neg, c :: u)
    /\ forallb is_decimal_digit (c :: u) = true
    /\ (forall w, strip_sign (trim s ++ w) = (neg, (c :: u) ++ w)).
Proof.
  unfold decimal_integer_text. destruct (trim s) as [|a t] eqn:E; [discriminate|].
  unfold strip_sign.
  destruct (N.eqb_spec a 45) as [->|H45]; [|destruct (N.eqb_spec a 43) as [->|H43]].
  - destruct t as [|c u]; [discriminate|]. intros H. exists true, c, u. auto.
  - destruct t as [|c u]; [discriminate|]. intros H. exists false, c, u. auto.
  - intros H. exists false, a, t. split; [reflexivity|]. split; [exact H|].
    intros w. simpl. apply N.eqb_neq in H45, H43. now rewrite H45, H43.
Qed.

Lemma parseInt_decimal s neg c u :
  strip_sign (trim s) = (neg, c :: u) ->
  forallb is_decimal_digit (c :: u) = true ->
  (forall w, strip_sign (trim s ++ w) = (neg, (c :: u) ++ w)) ->
  parseInt_string s
  = of_Z (signed neg (digits_value 10 (map (fun c => Z.of_N c - 48) (c :: u)))).
Proof.
  intros Hs Hd Hw. unfold parseInt_string.
  destruct (trimEnd_split (trimStart s)) as (w & Hsplit & Hws).
  fold (trim s) in Hsplit. rewrite Hsplit, Hw.
  assert (Hnohex : strip_hex_prefix ((c :: u) ++ w) = (10, (c :: u) ++ w)).
  { simpl. destruct (u ++ w) as [|c1 r] eqn:E; [reflexivity|].
    assert (H1 : (c1 =? 120)%N = false /\ (c1 =? 88)%N = false).
    { destruct u as [|d u].
      - simpl in E. subst w. simpl in Hws. apply andb_true_iff in Hws as [Hc1 _].
        now apply whitespace_not_marker.
      - simpl in E. injection E as -> _. simpl in Hd.
        apply andb_true_iff in Hd as [_ Hd]. apply andb_true_iff in Hd as [Hc1 _].
        destruct (decimal_digit_not_marker c1 Hc1) as (_ & _ & ? & ? & _). auto. }
    destruct H1 as [-> ->]. now rewrite andb_false_r. }
  rewrite Hnohex. rewrite (span_digits_decimal _ _ Hd Hws). reflexivity.
Qed.

Lemma Number_decimal s neg c u :
  strip_sign (trim s) = (neg, c :: u) ->
  forallb is_decimal_digit (c :: u) = true ->
  StringToNumber s
  = of_Z (signed neg (digits_value 10 (map (fun c => Z.of_N c - 48) (c :: u)))).
Proof.
  intros Hs Hd. unfold StringToNumber.
  assert (Hc : is_decimal_digit c = true) by (simpl in Hd; now apply andb_true_iff in Hd).
  destruct (trim s) as [|a t] eqn:E; [discriminate|].
  assert (Hnd : NonDecimalIntegerLiteral (a :: t) = None).
  { unfold NonDecimalIntegerLiteral.
    destruct (N.eq_dec a 48%N) as [->|Ha].
    - simpl in Hs. injection Hs as _ _ Ht. subst t.
      destruct u as [|d u]; [reflexivity|].
      simpl in Hd. apply andb_true_iff in Hd as [_ Hd]. apply andb_true_iff in Hd as [Hd1 _].
      destruct (decimal_digit_not_marker d Hd1)
        as (_ & _ & -> & -> & -> & -> & -> & -> & _). reflexivity.
    - destruct a as [|p]; [reflexivity|].
      repeat (destruct p as [p|p|]; try reflexivity). congruence. }
  rewrite Hnd. unfold StrDecimalLiteral. rewrite Hs.
  assert (Hinf : jsstring_eqb (c :: u) (lit "Infinity") = false).
  { unfold jsstring_eqb. apply bool_decide_eq_false. intros [= -> _]. discriminate. }
  rewrite Hinf. unfold StrUnsignedDecimalLiteral.
  rewrite <- (app_nil_r (c :: u)) at 1.
  rewrite (span_digits_decimal (c :: u) [] Hd eq_refl).
  cbn [ExponentPart]. rewrite app_nil_r. cbn [map app length].
  set (v := digits_value 10 _).
  assert (Hv : Qred (inject_Z v * Qpower 10 (0 - Z.of_nat 0)) = inject_Z v).
  { apply Qred_of_integer. change (Qpower 10 (0 - Z.of_nat 0)) with 1%Q. apply Qmult_1_r. }
  rewrite Hv. unfold of_Z, signed. destruct neg; [|reflexivity].
  f_equal. apply Qred_of_integer. reflexivity.
Qed.

Lemma blank_trimStart s : blank_text s = true -> trimStart s = [].
Proof.
  unfold blank_text. destruct (trim s) eqn:E; [|discriminate]. intros _.
  destruct (trimEnd_split (trimStart s)) as (w & Hsplit & Hws).
  fold (trim s) in Hsplit. rewrite E in Hsplit. simpl in Hsplit.
  destruct (trimStart s) as [|c r] eqn:T; [reflexivity|].
  apply trimStart_head in T. subst w. simpl in Hws. rewrite T in Hws. discriminate.
Qed.

(** C10, as amended.  On an absent page parameter, on a blank one, and on
    one that is an integer in decimal notation (optional white space
    around an optional sign and digits), [parseInt] in src/src/index.ts
    and [Number] in src/unnamed/part_000 lead to the same page. *)
Theorem page_of_agree_on_decimal_integers (q : option jsstring) :
  agreeing_input q = true -> IndexTs.page_of q = Part000.page_of q.
Proof.
  destruct q as [s|]; [|reflexivity].
  unfold agreeing_input. intros H. apply orb_true_iff in H as [H|H].
  - destruct (decimal_integer_text_inv s H) as (neg & c & u & Hs & Hd & Hw).
    unfold IndexTs.page_of, Part000.page_of, parseInt, Number, ToString.
    now rewrite (parseInt_decimal s neg c u Hs Hd Hw), (Number_decimal s neg c u Hs Hd).
  - unfold IndexTs.page_of, Part000.page_of, parseInt, Number, ToString.
    unfold parseInt_string. rewrite (blank_trimStart s H).
    unfold StringToNumber. unfold blank_text in H.
    destruct (trim s); [reflexivity | discriminate].
Qed.

Lemma page_of_agree_on_decimal_integers_witness :
  agreeing_input (Some (lit " -12 ")) = true
  /\ IndexTs.page_of (Some (lit " -12 ")) = Part000.page_of (Some (lit " -12 ")).
Proof.
  split; [reflexivity|].
  apply (page_of_agree_on_decimal_integers (Some (lit " -12 "))). reflexivity.
Defined.

(** C10, as stated, fails: on the page parameter [2abc] the endpoint of
    src/src/index.ts computes page 2 ([parseInt] reads the leading
    digits) and the endpoint of src/unnamed/part_000 computes page 1
    ([Number] gives [NaN]). *)
Lemma page_of_differ_on_2abc :
  IndexTs.page_of (Some (lit "2abc")) = of_Z 2
  /\ Part000.page_of (Some (lit "2abc")) = of_Z 1
  /\ IndexTs.page_of (Some (lit "2abc")) <> Part000.page_of (Some (lit "2abc")).
Proof.
  split; [reflexivity|]. split; [reflexivity|]. vm_compute. discriminate.
Qed.

(* ------------------------------------------------------------------ *)
(** ** The listing cache                                               *)
(* ------------------------------------------------------------------ *)

Section CacheFacts.
Context {V : Type}.
Implicit Types (c : NodeCache.cache V) (key : jsstring) (e : NodeCache.entry V).

Lemma get_Some c key now value :
  fst (NodeCache.get c key now) = Some value ->
  exists e, NodeCache.data c !! key = Some e /\ NodeCache.v e = value
            /\ NodeCache.check now e = true.
Proof.
  unfold NodeCache.get. destruct (NodeCache.data c !! key) as [e|] eqn:E; [|discriminate].
  destruct (NodeCache.check now e) eqn:C; [|discriminate].
  simpl. intros [= <-]. exists e. auto.
Qed.

Lemma get_live c key now e :
  NodeCache.data c !! key = Some e -> NodeCache.check now e = true ->
  NodeCache.get c key now = (Some (NodeCache.v e), c).
Proof. intros H C. unfold NodeCache.get. now rewrite H, C. Qed.

Lemma check_deadline now e :
  NodeCache.check now e = true -> NodeCache.t e = 0 \/ now <= NodeCache.t e.
Proof.
  unfold NodeCache.check.
  destruct (Z.eqb_spec (NodeCache.t e) 0); [auto|].
  destruct (Z.ltb_spec (NodeCache.t e) now); simpl; [discriminate | auto].
Qed.

Lemma check_before now e : now <= NodeCache.t e -> NodeCache.check now e = true.
Proof.
  intros H. unfold NodeCache.check.
  destruct (Z.ltb_spec (NodeCache.t e) now); [lia|].
  now rewrite andb_false_r.
Qed.

Lemma get_data_sub c key now k e :
  NodeCache.data (snd (NodeCache.get c key now)) !! k = Some e ->
  NodeCache.data c !! k = Some e.
Proof.
  unfold NodeCache.get. destruct (NodeCache.data c !! key) as [e'|] eqn:E; [|auto].
  destruct (NodeCache.check now e'); [auto|].
  cbn. intros H. apply lookup_delete_Some in H. tauto.
Qed.

Lemma checkData_data_sub c now k e :
  NodeCache.data (NodeCache.checkData c now) !! k = Some e ->
  NodeCache.data c !! k = Some e.
Proof.
  unfold NodeCache.checkData. cbn. intros H.
  apply map_lookup_filter_Some in H. tauto.
Qed.

Lemma stdTTL_get c key now :
  NodeCache.stdTTL (snd (NodeCache.get c key now)) = NodeCache.stdTTL c.
Proof.
  unfold NodeCache.get. destruct (NodeCache.data c !! key) as [e'|]; [|auto].
  destruct (NodeCache.check now e'); auto.
Qed.

Lemma get_flushed c key now :
  NodeCache.get (NodeCache.flushAll c) key now = (None, NodeCache.flushAll c).
Proof.
  unfold NodeCache.get, NodeCache.flushAll, NodeCache.with_data.
  cbn [NodeCache.data]. now rewrite lookup_empty.
Qed.

End CacheFacts.

Lemma get_other_keys {V} (c : NodeCache.cache V) key now k :
  k <> key ->
  NodeCache.data (snd (NodeCache.get c key now)) !! k = NodeCache.data c !! k.
Proof.
  intros Hk. unfold NodeCache.get.
  destruct (NodeCache.data c !! key) as [e|]; [|reflexivity].
  destruct (NodeCache.check now e); [reflexivity|].
  cbn. now rewrite lookup_delete_ne.
Qed.

Lemma get_miss_absent {V} (c : NodeCache.cache V) key now :
  fst (NodeCache.get c key now) = None ->
  NodeCache.data (snd (NodeCache.get c key now)) !! key = None.
Proof.
  unfold NodeCache.get.
  destruct (NodeCache.data c !! key) as [e|] eqn:E; [|intros _; exact E].
  destruct (NodeCache.check now e); [discriminate|].
  intros _. cbn. apply lookup_delete_eq.
Qed.

Lemma get_absent {V} (c : NodeCache.cache V) key now :
  NodeCache.data c !! key = None -> NodeCache.get c key now = (None, c).
Proof. intros H. unfold NodeCache.get. now rewrite H. Qed.

Lemma stdTTL_apply_op c o : NodeCache.stdTTL (apply_op c o) = NodeCache.stdTTL c.
Proof. destruct o; simpl; auto using stdTTL_get. Qed.

Lemma stdTTL_run_ops ops : NodeCache.stdTTL (run_ops ops) = 60 * 5.
Proof.
  unfold run_ops. induction ops as [|o ops IH] using rev_ind; [reflexivity|].
  now rewrite fold_left_app, <- IH; simpl; rewrite stdTTL_apply_op.
Qed.

(** Every entry of the cache was put there by a [set] that no later
    [flushAll] or [set] of the same key has undone. *)
Lemma run_ops_provenance ops key e :
  NodeCache.data (run_ops ops) !! key = Some e -> stored_by ops key e.
Proof.
  revert key e. induction ops as [|o ops IH] using rev_ind; intros key e.
  - unfold run_ops, IndexTs.new_filesCache, NodeCache.create.
    cbn [fold_left NodeCache.data]. rewrite lookup_empty. discriminate.
  - unfold run_ops. rewrite fold_left_app. cbn [fold_left]. fold (run_ops ops).
    assert (Hkeep : keeps key o -> NodeCache.data (run_ops ops) !! key = Some e ->
                    stored_by (ops ++ [o]) key e).
    { intros Hk H. destruct (IH _ _ H) as (b & a & af & -> & Haf & Ht).
      exists b, a, (af ++ [o]). rewrite <- app_assoc. split; [reflexivity|].
      split; [|exact Ht]. apply Forall_app; split; [exact Haf| repeat constructor; exact Hk]. }
    destruct o as [k a | k val a | | a]; cbn [apply_op].
    + intros H. apply Hkeep; [exact I|]. eapply get_data_sub, H.
    + unfold NodeCache.set, NodeCache.with_data. cbn [NodeCache.data].
      destruct (decide (k = key)) as [->|Hne].
      * rewrite lookup_insert_eq. intros [= <-].
        exists ops, a, []. split; [reflexivity|]. split; [constructor|].
        unfold NodeCache.wrap. cbn. rewrite stdTTL_run_ops. reflexivity.
      * rewrite lookup_insert_ne by exact Hne. apply Hkeep. exact Hne.
    + unfold NodeCache.flushAll, NodeCache.with_data. cbn [NodeCache.data].
      rewrite lookup_empty. discriminate.
    + intros H. apply Hkeep; [exact I|]. eapply checkData_data_sub, H.
Qed.

(** C3.  Whatever was done to the listing cache since it was created
    (lookups, stores, invalidations, periodic sweeps), a snapshot that
    [get] returns was stored by a [set] of that key that happened after
    the last [flushAll], with nothing stored over it since, and at most
    five minutes (the TTL) before the lookup.  So a snapshot older than
    the TTL, or older than the last invalidation, is never returned:
    [get] reports a miss instead. *)
Theorem filesCache_get_is_recent (ops : list CacheOp) (key : jsstring) (now : Z)
    (value : Listing) :
  Forall set_instants_nonneg ops ->
  fst (NodeCache.get (run_ops ops) key now) = Some value ->
  exists before at_ after,
    ops = before ++ op_set key value at_ :: after
    /\ Forall (keeps key) after
    /\ now - at_ <= TTL_ms.
Proof.
  intros Hpos H.
  destruct (get_Some _ _ _ _ H) as (e & He & Hv & Hc).
  destruct (run_ops_provenance _ _ _ He) as (b & a & af & -> & Haf & Ht).
  exists b, a, af. rewrite <- Hv. split; [reflexivity|]. split; [exact Haf|].
  apply Forall_app in Hpos as [_ Hpos]. apply Forall_cons in Hpos as [Ha _].
  simpl in Ha. destruct (check_deadline _ _ Hc) as [Hz|Hd]; unfold TTL_ms in *; lia.
Qed.

Lemma filesCache_get_is_recent_witness :
  let l := IndexTs.response (of_Z 1) [] (of_Z 0) in
  let ops := [op_set (lit "files_page_1") l 1000; op_get (lit "files_page_2") 2000] in
  Forall set_instants_nonneg ops
  /\ fst (NodeCache.get (run_ops ops) (lit "files_page_1") 301000) = Some l
  /\ exists before at_ after,
       ops = before ++ op_set (lit "files_page_1") l at_ :: after
       /\ Forall (keeps (lit "files_page_1")) after
       /\ 301000 - at_ <= TTL_ms.
Proof.
  intros l ops.
  assert (Hpos : Forall set_instants_nonneg ops).
  { repeat constructor. simpl. lia. }
  assert (Hget : fst (NodeCache.get (run_ops ops) (lit "files_page_1") 301000) = Some l).
  { vm_compute. reflexivity. }
  split; [exact Hpos|]. split; [exact Hget|].
  exact (filesCache_get_is_recent ops (lit "files_page_1") 301000 l Hpos Hget).
Defined.

(* ------------------------------------------------------------------ *)
(** ** The upload handler                                              *)
(* ------------------------------------------------------------------ *)

(** C7.  When the sender of a video is not the configured administrator,
    the handler first asks for the message to be deleted and then, the
    deletion accepted, tells the sender that only the administrator can
    upload; it calls neither the file API nor GitHub, creates no record,
    and leaves the catalog and both caches as they were, in both
    revisions of the handler and whatever the transport answers. *)
Theorem non_admin_upload_is_turned_away penv env ctx w :
  not_admin penv ctx = true ->
  turned_away IndexTs.msg_only_admin env w (IndexTs.on_video penv env ctx w)
  /\ turned_away Part000.msg_only_admin env w (Part000.on_video penv env ctx w).
Proof.
  intros H. unfold turned_away, IndexTs.on_video, Part000.on_video.
  rewrite H. unfold_m.
  destruct (deleteMessage_ok env), (reply_ok env); cbn;
    repeat split; eauto; try discriminate.
Qed.

Lemma non_admin_upload_is_turned_away_witness :
  let env := calm 1000 "65a1" in
  let ctx := video_from 7 (Some (lit "AAMCBAAD")) in
  let w := IndexTs.boot [trailer "64ff" 500] in
  not_admin sample_penv ctx = true
  /\ turned_away IndexTs.msg_only_admin env w (IndexTs.on_video sample_penv env ctx w)
  /\ turned_away Part000.msg_only_admin env w (Part000.on_video sample_penv env ctx w).
Proof.
  intros env ctx w.
  assert (H : not_admin sample_penv ctx = true) by (vm_compute; reflexivity).
  split; [exact H|].
  exact (non_admin_upload_is_turned_away sample_penv env ctx w H).
Defined.

(** C2, as amended.  When the administrator uploads a video that has a
    thumbnail and the thumbnail relay fails ([getFile] or a [fetch]
    throws, or a response is not [ok]), the upload is given up: the
    handler makes no call after the failed one but the failure reply,
    no record is created, and the catalog and the caches are unchanged. *)
Theorem thumbnail_relay_failure_aborts_upload penv env ctx w video thumbnail_file_id :
  not_admin penv ctx = false ->
  message_video ctx = Some video ->
  video_thumbnail video = Some thumbnail_file_id ->
  relay_fails env = true ->
  aborted IndexTs.msg_failed w (IndexTs.on_video penv env ctx w)
  /\ aborted Part000.msg_failed w (Part000.on_video penv env ctx w).
Proof.
  intros Ha Hv Ht Hf. unfold aborted, IndexTs.on_video, Part000.on_video.
  rewrite Ha, Hv, Ht. unfold relay_fails in Hf. unfold_m.
  destruct (getFile_path env) as [path|]; [destruct (download_ok env) as [[|]|];
    [destruct (github_ok env) as [[|]|]; [discriminate| |] | |] |];
  cbn; repeat split;
  first [ solve [eexists [_]; split; reflexivity]
        | solve [eexists [_; _]; split; reflexivity]
        | solve [eexists [_; _; _]; split; reflexivity] ].
Qed.

Lemma thumbnail_relay_failure_aborts_upload_witness :
  let env := download_refused 2000 "65a1" in
  let ctx := video_from 42 (Some (lit "AAMCBAAD")) in
  let w := IndexTs.boot [trailer "64ff" 500] in
  not_admin sample_penv ctx = false
  /\ relay_fails env = true
  /\ aborted IndexTs.msg_failed w (IndexTs.on_video sample_penv env ctx w)
  /\ aborted Part000.msg_failed w (Part000.on_video sample_penv env ctx w).
Proof.
  intros env ctx w.
  assert (Ha : not_admin sample_penv ctx = false) by (vm_compute; reflexivity).
  assert (Hf : relay_fails env = true) by reflexivity.
  split; [exact Ha|]. split; [exact Hf|].
  exact (thumbnail_relay_failure_aborts_upload sample_penv env ctx w
           {| video_file_id := lit "BAACAgQAAx0"; video_thumbnail := Some (lit "AAMCBAAD") |}
           (lit "AAMCBAAD") Ha eq_refl eq_refl Hf).
Defined.

(** C2, as stated, fails: the administrator uploads a video with a
    thumbnail, the download of the thumbnail is refused; no record is
    persisted (the catalog stays empty) and the reply is the failure
    message, not an acknowledgment, in both revisions. *)
Lemma thumbnail_failure_persists_nothing :
  let env := download_refused 2000 "65a1" in
  let ctx := video_from 42 (Some (lit "AAMCBAAD")) in
  let gave_up (msg_failed : message) :=
    [getFile (lit "AAMCBAAD");
     fetch_get (lit "https://api.telegram.org/file/bot123:abc/thumbnails/file_7.jpg");
     console_error; reply msg_failed] in
  (catalog (world (IndexTs.on_video sample_penv env ctx (IndexTs.boot []))) = []
   /\ events (IndexTs.on_video sample_penv env ctx (IndexTs.boot []))
      = gave_up IndexTs.msg_failed)
  /\ (catalog (world (Part000.on_video sample_penv env ctx (Part000.boot []))) = []
      /\ events (Part000.on_video sample_penv env ctx (Part000.boot []))
         = gave_up Part000.msg_failed).
Proof. vm_compute. repeat split; reflexivity. Qed.

Lemma lookup_id_cons id d docs :
  lookup_id id (d :: docs)
  = if bool_decide (_id d = id) then Some d else lookup_id id docs.
Proof. reflexivity. Qed.

Lemma lookup_id_None id docs :
  lookup_id id docs = None -> bool_decide (id ∈ map _id docs) = false.
Proof.
  intros H. apply bool_decide_eq_false. intros Hin.
  apply list_elem_of_In, in_map_iff in Hin as (d & Hd & Hin).
  unfold lookup_id in H. eapply find_none in H; [|exact Hin].
  simpl in H. apply bool_decide_eq_false in H. congruence.
Qed.

Section Upload.
Variables (penv : ProcessEnv) (env : Env) (ctx : Ctx) (w : World) (video : Video)
  (id : jsstring).
Hypothesis Ha : not_admin penv ctx = false.
Hypothesis Hv : message_video ctx = Some video.
Hypothesis Ht : video_thumbnail video = None \/ relay_fails env = false.
Hypothesis Hi : create_id env = Some id.
Hypothesis Hn : lookup_id id (catalog w) = None.

Ltac run_upload :=
  rewrite Ha, Hv; unfold_m; cbn;
  unfold new_doc, thumbnail_url_of, relay_calls, relay_fails in *;
  destruct (video_thumbnail video) as [h|];
  [ destruct Ht as [Ht'|Ht']; [discriminate|];
    destruct (getFile_path env) as [path|]; [|discriminate];
    destruct (download_ok env) as [[|]|]; try discriminate;
    destruct (github_ok env) as [[|]|]; try discriminate
  | ];
  cbn; rewrite Hi, (lookup_id_None _ _ Hn); cbn;
  destruct (reply_ok env); cbn;
  (split; [reflexivity | eexists; split; [reflexivity | intros; congruence]]).

(** An accepted upload in src/src/index.ts: the relay calls, the record,
    the acknowledgment; the listing cache is not touched. *)
Lemma IndexTs_on_video_accepts :
  world (IndexTs.on_video penv env ctx w)
  = {| catalog := new_doc penv env ctx video id :: catalog w;
       fileIdCache := fileIdCache w;
       filesCache := filesCache w |}
  /\ exists rest,
       events (IndexTs.on_video penv env ctx w)
       = relay_calls penv env video
           ++ File_create (new_doc penv env ctx video id)
           :: reply (IndexTs.msg_uploaded (title_of ctx) id
                       (thumbnail_url_of penv env video)) :: rest
       /\ (reply_ok env = true -> rest = []).
Proof. unfold IndexTs.on_video. run_upload. Qed.

(** An accepted upload in src/unnamed/part_000: the relay calls, the
    record, the invalidation of the listing cache, the acknowledgment,
    in this order. *)
Lemma Part000_on_video_accepts :
  world (Part000.on_video penv env ctx w)
  = {| catalog := new_doc penv env ctx video id :: catalog w;
       fileIdCache := fileIdCache w;
       filesCache := NodeCache.flushAll (filesCache w) |}
  /\ exists rest,
       events (Part000.on_video penv env ctx w)
       = relay_calls penv env video
           ++ File_create (new_doc penv env ctx video id) :: flushAll
           :: reply (Part000.msg_uploaded (title_of ctx) id
                       (thumbnail_url_of penv env video)) :: rest
       /\ (reply_ok env = true -> rest = []).
Proof. unfold Part000.on_video. run_upload. Qed.

End Upload.

(* ------------------------------------------------------------------ *)
(** ** The [/start] command                                            *)
(* ------------------------------------------------------------------ *)

Lemma boot_consistent docs : cache_consistent (IndexTs.boot docs).
Proof. intros id h H. cbn in H. rewrite lookup_empty in H. discriminate. Qed.

Lemma consistent_absent w id :
  cache_consistent w -> lookup_id id (catalog w) = None -> fileIdCache w !! id = None.
Proof.
  intros Hc Hn. destruct (fileIdCache w !! id) as [h|] eqn:E; [|reflexivity].
  destruct (Hc _ _ E) as (d & Hd & _). congruence.
Qed.

Lemma consistent_hit w id h d :
  cache_consistent w -> fileIdCache w !! id = Some h ->
  lookup_id id (catalog w) = Some d -> h = file_id d.
Proof.
  intros Hc Hh Hd. destruct (Hc _ _ Hh) as (d' & Hd' & <-). congruence.
Qed.

Lemma consistent_after_create w d fc :
  cache_consistent w -> lookup_id (_id d) (catalog w) = None ->
  cache_consistent {| catalog := d :: catalog w; fileIdCache := fileIdCache w;
                      filesCache := fc |}.
Proof.
  intros Hc Hn id h Hh. cbn in *. destruct (Hc _ _ Hh) as (d' & Hd' & Hf).
  exists d'. split; [|exact Hf]. rewrite lookup_id_cons.
  destruct (bool_decide_reflect (_id d = id)) as [E|E]; [|exact Hd'].
  subst id. congruence.
Qed.

Lemma consistent_after_fill w id d :
  cache_consistent w -> lookup_id id (catalog w) = Some d ->
  cache_consistent {| catalog := catalog w;
                      fileIdCache := <[id := file_id d]> (fileIdCache w);
                      filesCache := filesCache w |}.
Proof.
  intros Hc Hd id' h. cbn. rewrite lookup_insert.
  destruct (decide (id = id')) as [<-|Hne].
  - intros [= <-]. eauto.
  - apply Hc.
Qed.

Lemma start_exits env ctx w :
  early_exits IndexTs.start IndexTs.msg_welcome IndexTs.msg_invalid_link
    IndexTs.msg_not_available IndexTs.msg_error env ctx w
  /\ early_exits Part000.start Part000.msg_welcome Part000.msg_invalid_link
    Part000.msg_not_available Part000.msg_error env ctx w.
Proof.
  unfold early_exits, after_reply, IndexTs.start, Part000.start.
  split; (split; [|split; [|split; [|discriminate]]]).
  1,4: intros H; rewrite H; unfold_m; destruct (reply_ok env); destruct w; cbn; auto.
  1,3: intros p Hp Hne Hid; rewrite Hp; destruct p as [|c p]; [congruence|];
       cbn [no_payload default from_option id]; fold (short_id (c :: p)); rewrite Hid;
       unfold_m; destruct (reply_ok env); destruct w; cbn; auto.
  all: intros p Hp Hid Hc Hn Hf; rewrite Hp;
       assert (Hpne : p <> []) by (intros ->; apply Hid; reflexivity);
       destruct p as [|c p]; [congruence|];
       cbn [no_payload default from_option id]; fold (short_id (c :: p));
       destruct (short_id (c :: p)) as [|i id] eqn:E; [congruence|];
       unfold_m; cbn;
       rewrite (consistent_absent w _ Hc Hn), Hf; cbn;
       fold (lookup_id (i :: id) (catalog w)); rewrite Hn;
       destruct (reply_ok env); destruct w; cbn; auto.
Qed.

(** C6.  For every [/start] command, in both revisions: with no payload
    the reply is the welcome message; with a payload that is empty once
    trimmed and stripped of [video_] the reply is the malformed-link
    message; with an id for which the store has no record the store is
    asked and the reply is the not-available message, which is another
    text than the malformed-link message.  (A reply the transport
    rejects is followed by the calls of the [catch] block.) *)
Theorem start_early_exits env ctx w :
  early_exits IndexTs.start IndexTs.msg_welcome IndexTs.msg_invalid_link
    IndexTs.msg_not_available IndexTs.msg_error env ctx w
  /\ early_exits Part000.start Part000.msg_welcome Part000.msg_invalid_link
    Part000.msg_not_available Part000.msg_error env ctx w.
Proof. exact (start_exits env ctx w). Qed.

Lemma start_early_exits_witness :
  let env := calm 1000 "65a1" in
  let ctx := start_with "video_abc123" in
  events (IndexTs.start env ctx (IndexTs.boot []))
    = [File_findById (lit "abc123"); reply IndexTs.msg_not_available]
  /\ events (Part000.start env ctx (Part000.boot []))
    = [File_findById (lit "abc123"); reply Part000.msg_not_available]
  /\ events (IndexTs.start env (start_with "  video_ ") (IndexTs.boot []))
    = [reply IndexTs.msg_invalid_link]
  /\ events (IndexTs.start env (start_with "") (IndexTs.boot []))
    = [reply IndexTs.msg_welcome].
Proof.
  intros env ctx.
  assert (Hid : short_id (lit "video_abc123") <> []) by (vm_compute; discriminate).
  assert (Hne : lit "  video_ " <> []) by (vm_compute; discriminate).
  pose proof (start_early_exits env ctx (IndexTs.boot [])) as [(_ & _ & HI & _) (_ & _ & HP & _)].
  pose proof (start_early_exits env (start_with "  video_ ") (IndexTs.boot []))
    as [(_ & HM & _) _].
  pose proof (start_early_exits env (start_with "") (IndexTs.boot []))
    as [(HW & _) _].
  split; [exact (proj1 (HI _ eq_refl Hid (boot_consistent []) eq_refl eq_refl))|].
  split; [exact (proj1 (HP _ eq_refl Hid (boot_consistent []) eq_refl eq_refl))|].
  split; [exact (proj1 (HM _ eq_refl Hne eq_refl)) | exact (proj1 (HW eq_refl))].
Defined.

Section Resolution.
Variables (env : Env) (ctx : Ctx) (w : World) (p : jsstring) (d : FileDoc).
Hypothesis Hp : match_ ctx = Some p.
Hypothesis Hid : short_id p <> [].
Hypothesis Hc : cache_consistent w.
Hypothesis Hf : findById_ok env = true.
Hypothesis Hr : reply_ok env = true.
Hypothesis Hd : lookup_id (short_id p) (catalog w) = Some d.

Ltac resolve_start :=
  rewrite Hp;
  assert (Hpne : p <> []) by (intros ->; apply Hid; reflexivity);
  destruct p as [|c p']; [congruence|];
  cbn [no_payload default from_option id];
  fold (short_id (c :: p')); fold (short_id (c :: p')) in Hd;
  destruct (short_id (c :: p')) as [|i id] eqn:E; [congruence|];
  unfold_m; cbn;
  match goal with
  | |- context [fileIdCache w !! ?k] =>
      destruct (fileIdCache w !! k) as [[|c0 h]|] eqn:?
  end;
  [ | match goal with
      | Hx : _ !! _ = Some (_ :: _) |- _ =>
          rewrite <- (consistent_hit _ _ _ _ Hc Hx Hd)
      end;
      rewrite Hr; cbn; destruct (sendVideo_ok env); cbn;
      (split; [reflexivity | split; [reflexivity | destruct w; exact Hc]])
    | ];
  rewrite Hf; cbn; fold (lookup_id (i :: id) (catalog w)); rewrite Hd; cbn;
  rewrite Hr; cbn; destruct (sendVideo_ok env); cbn;
  (split; [reflexivity | split; [reflexivity | now apply consistent_after_fill]]).

Lemma IndexTs_start_resolves :
  delivered (events (IndexTs.start env ctx w)) = Some (file_id d)
  /\ catalog (world (IndexTs.start env ctx w)) = catalog w
  /\ cache_consistent (world (IndexTs.start env ctx w)).
Proof. unfold IndexTs.start. resolve_start. Qed.

Lemma Part000_start_resolves :
  delivered (events (Part000.start env ctx w)) = Some (file_id d)
  /\ catalog (world (Part000.start env ctx w)) = catalog w
  /\ cache_consistent (world (Part000.start env ctx w)).
Proof. unfold Part000.start. resolve_start. Qed.

End Resolution.

(** C4.  In a world where every cached handle is the store's handle for
    its id (true of a fresh process, and kept by [/start] and by
    uploads), and with a store and a transport that answer: resolving an
    id the store holds delivers the handle of the store's record,
    whether the identifier cache holds the id or not, and a cached
    handle is that same handle; resolving an id the store does not hold
    changes nothing, in particular not the identifier cache, so that
    once an upload has created a record under that id, the same link
    delivers the handle of that record.  Both revisions. *)
Theorem identifier_cache_is_transparent penv env ctx w p :
  match_ ctx = Some p ->
  short_id p <> [] ->
  cache_consistent w ->
  findById_ok env = true ->
  reply_ok env = true ->
  (resolution_agrees_with_store IndexTs.start env ctx w p
   /\ miss_is_not_cached IndexTs.start IndexTs.on_video penv env ctx w p)
  /\ (resolution_agrees_with_store Part000.start env ctx w p
      /\ miss_is_not_cached Part000.start Part000.on_video penv env ctx w p).
Proof.
  intros Hp Hid Hc Hf Hr.
  pose proof (start_exits env ctx w) as [(_ & _ & HI & _) (_ & _ & HP & _)].
  split; split.
  - intros d Hd.
    destruct (IndexTs_start_resolves env ctx w p d Hp Hid Hc Hf Hr Hd) as (? & ? & ?).
    repeat split; auto. intros h Hh. apply (consistent_hit w _ _ _ Hc Hh Hd).
  - intros Hn. destruct (HI p Hp Hid Hc Hn Hf) as [_ Hw]. split; [exact Hw|].
    intros env2 ctx2 video env3 Ha Hv Ht Hi Hf3 Hr3. rewrite Hw.
    destruct (IndexTs_on_video_accepts penv env2 ctx2 w video _ Ha Hv Ht Hi Hn) as [-> _].
    apply (IndexTs_start_resolves env3 ctx _ p (new_doc penv env2 ctx2 video (short_id p)));
      auto.
    + now apply (consistent_after_create w (new_doc penv env2 ctx2 video (short_id p))).
    + cbn. rewrite lookup_id_cons. cbn. now rewrite bool_decide_eq_true_2.
  - intros d Hd.
    destruct (Part000_start_resolves env ctx w p d Hp Hid Hc Hf Hr Hd) as (? & ? & ?).
    repeat split; auto. intros h Hh. apply (consistent_hit w _ _ _ Hc Hh Hd).
  - intros Hn. destruct (HP p Hp Hid Hc Hn Hf) as [_ Hw]. split; [exact Hw|].
    intros env2 ctx2 video env3 Ha Hv Ht Hi Hf3 Hr3. rewrite Hw.
    destruct (Part000_on_video_accepts penv env2 ctx2 w video _ Ha Hv Ht Hi Hn) as [-> _].
    apply (Part000_start_resolves env3 ctx _ p (new_doc penv env2 ctx2 video (short_id p)));
      auto.
    + now apply (consistent_after_create w (new_doc penv env2 ctx2 video (short_id p))).
    + cbn. rewrite lookup_id_cons. cbn. now rewrite bool_decide_eq_true_2.
Qed.

Lemma identifier_cache_is_transparent_witness :
  let env := calm 1000 "65a1" in
  let ctx := start_with "video_64ff" in
  let w := IndexTs.boot [trailer "64ff" 500] in
  short_id (lit "video_64ff") <> []
  /\ cache_consistent w
  /\ (resolution_agrees_with_store IndexTs.start env ctx w (lit "video_64ff")
      /\ miss_is_not_cached IndexTs.start IndexTs.on_video sample_penv env ctx w
           (lit "video_64ff"))
  /\ (resolution_agrees_with_store Part000.start env ctx w (lit "video_64ff")
      /\ miss_is_not_cached Part000.start Part000.on_video sample_penv env ctx w
           (lit "video_64ff")).
Proof.
  intros env ctx w.
  assert (Hid : short_id (lit "video_64ff") <> []) by (vm_compute; discriminate).
  split; [exact Hid|]. split; [exact (boot_consistent _)|].
  exact (identifier_cache_is_transparent sample_penv env ctx w (lit "video_64ff")
           eq_refl Hid (boot_consistent _) eq_refl eq_refl).
Defined.

(* ------------------------------------------------------------------ *)
(** ** The listing endpoint                                            *)
(* ------------------------------------------------------------------ *)

Lemma store_queries_app a b :
  store_queries (a ++ b) = (store_queries a + store_queries b)%nat.
Proof. unfold store_queries. now rewrite List.filter_app, List.length_app. Qed.

Lemma store_queries_replies b n : store_queries (repeat (res_json 200 b) n) = 0%nat.
Proof. induction n; [reflexivity|exact IHn]. Qed.

Lemma replies_app a b : replies (a ++ b) = replies a ++ replies b.
Proof. unfold replies. apply omap_app. Qed.

Lemma replies_repeat st b n : replies (repeat (res_json st b) n) = repeat (st, b) n.
Proof.
  induction n; [reflexivity|]. cbn [repeat]. unfold replies in *. cbn. now rewrite IHn.
Qed.

Lemma served_once_intro evs n skip limit l :
  evs = [File_find skip limit; File_countDocuments]
          ++ repeat (res_json 200 (ListingBody l)) n ->
  served_once evs n skip limit l.
Proof.
  intros ->. unfold served_once. split; [reflexivity|].
  rewrite replies_app, replies_repeat, store_queries_app, store_queries_replies.
  split; reflexivity.
Qed.

Lemma filled_entry w key value env :
  configured w ->
  exists e, NodeCache.data (filesCache (filled w key value env)) !! key = Some e
            /\ NodeCache.v e = value /\ NodeCache.t e = now_set env + TTL_ms.
Proof.
  intros Hcfg. eexists. unfold filled, NodeCache.set, NodeCache.with_data. cbn.
  rewrite lookup_insert_eq. split; [reflexivity|]. split; [reflexivity|].
  unfold NodeCache.wrap. cbn. rewrite stdTTL_get. unfold configured in Hcfg.
  rewrite Hcfg. reflexivity.
Qed.

(** The facts below hold of both revisions of the endpoint; they are
    proved once, over what the revisions differ in. *)
Section Listing.
Variable page_of : option jsstring -> number.
Variable limit : number.
Variable cacheKey : number -> jsstring.
Variable response : number -> list FileDoc -> number -> Listing.
Variable failure : M unit.
Variable api_files : Env -> option jsstring -> M unit.

Local Abbreviation skip_of q := (mul (sub (page_of q) (of_Z 1)) limit).
Local Abbreviation fresh q w files :=
  (response (page_of q) files (of_Z (Z.of_nat (length (catalog w))))).
Local Abbreviation turn := (advance page_of limit cacheKey response failure).
Local Abbreviation turns := (run_schedule page_of limit cacheKey response failure).

Hypothesis api_files_eq : forall env q,
  api_files env q =
  try_catch
    (cached ← filesCache_get (cacheKey (page_of q)) (now env);
     match cached with
     | Some hit => log (res_json 200 (ListingBody hit))
     | None =>
         '(files, total) ← find_and_count env (skip_of q) limit;
         filesCache_set (cacheKey (page_of q)) (response (page_of q) files total)
           (now_set env);;
         log (res_json 200 (ListingBody (response (page_of q) files total)))
     end)
    failure.

Lemma api_files_hit env q w e :
  NodeCache.data (filesCache w) !! cacheKey (page_of q) = Some e ->
  now env <= NodeCache.t e ->
  api_files env q w
  = MkRun (Ok ()) w [res_json 200 (ListingBody (NodeCache.v e))].
Proof.
  intros He Ht. rewrite api_files_eq. unfold_m.
  rewrite (get_live _ _ _ _ He (check_before _ _ Ht)). cbn. now destruct w.
Qed.

Lemma api_files_miss env q w files :
  fst (NodeCache.get (filesCache w) (cacheKey (page_of q)) (now env)) = None ->
  find_page env (catalog w) (skip_of q) limit = Ok files ->
  countDocuments_ok env = true ->
  api_files env q w
  = MkRun (Ok ()) (filled w (cacheKey (page_of q)) (fresh q w files) env)
      [File_find (skip_of q) limit; File_countDocuments;
       res_json 200 (ListingBody (fresh q w files))].
Proof.
  intros Hm Hf Hc. rewrite api_files_eq. unfold_m. unfold filled.
  destruct (NodeCache.get _ _ _) as [r c]. cbn in Hm. subst r. cbn.
  rewrite Hf. unfold countDocuments. rewrite Hc. reflexivity.
Qed.

Lemma warm_repeat envs q w e :
  NodeCache.data (filesCache w) !! cacheKey (page_of q) = Some e ->
  Forall (fun env => now env <= NodeCache.t e) envs ->
  repeat_request api_files envs q w
  = MkRun (Ok ()) w (repeat (res_json 200 (ListingBody (NodeCache.v e))) (length envs)).
Proof.
  intros He. induction 1 as [|env envs Hnow _ IH]; [reflexivity|].
  cbn [repeat_request length repeat]. unfold mbind, M_bind, bind.
  rewrite (api_files_hit env q w e He Hnow), IH. reflexivity.
Qed.

Lemma cold_then_warm env envs q w files :
  configured w ->
  fst (NodeCache.get (filesCache w) (cacheKey (page_of q)) (now env)) = None ->
  find_page env (catalog w) (skip_of q) limit = Ok files ->
  countDocuments_ok env = true ->
  Forall (fun env' => now env' <= now_set env + TTL_ms) envs ->
  events (repeat_request api_files (env :: envs) q w)
  = [File_find (skip_of q) limit; File_countDocuments]
      ++ repeat (res_json 200 (ListingBody (fresh q w files))) (S (length envs)).
Proof.
  intros Hcfg Hm Hf Hc Hnow.
  cbn [repeat_request]. unfold mbind, M_bind, bind.
  rewrite (api_files_miss env q w files Hm Hf Hc).
  destruct (filled_entry w (cacheKey (page_of q)) (fresh q w files) env Hcfg)
    as (e & He & Hv & Ht).
  rewrite (warm_repeat envs q _ e He).
  - rewrite Hv. reflexivity.
  - rewrite Ht. exact Hnow.
Qed.

End Listing.

Lemma IndexTs_api_files_eq env q :
  IndexTs.api_files env q =
  try_catch
    (cached ← filesCache_get (IndexTs.cacheKey (IndexTs.page_of q)) (now env);
     match cached with
     | Some hit => log (res_json 200 (ListingBody hit))
     | None =>
         '(files, total) ← find_and_count env
            (mul (sub (IndexTs.page_of q) (of_Z 1)) IndexTs.limit) IndexTs.limit;
         filesCache_set (IndexTs.cacheKey (IndexTs.page_of q))
           (IndexTs.response (IndexTs.page_of q) files total) (now_set env);;
         log (res_json 200 (ListingBody (IndexTs.response (IndexTs.page_of q) files total)))
     end)
    IndexTs.failure.
Proof. reflexivity. Qed.

Lemma Part000_api_files_eq env q :
  Part000.api_files env q =
  try_catch
    (cached ← filesCache_get (Part000.cacheKey (Part000.page_of q)) (now env);
     match cached with
     | Some hit => log (res_json 200 (ListingBody hit))
     | None =>
         '(files, total) ← find_and_count env
            (mul (sub (Part000.page_of q) (of_Z 1)) Part000.limit) Part000.limit;
         filesCache_set (Part000.cacheKey (Part000.page_of q))
           (Part000.response (Part000.page_of q) files total) (now_set env);;
         log (res_json 200 (ListingBody (Part000.response (Part000.page_of q) files total)))
     end)
    Part000.failure.
Proof. reflexivity. Qed.

(** C8, as amended.  A listing request that misses the cache and is
    answered by the store, followed by any number of requests for the
    same page, each made after the one before it was answered and no
    later than five minutes after the first answer was stored: every
    request gets the same reply, value for value, and the store is
    asked once, by the first request.  Both revisions; no upload or
    invalidation in between. *)
Theorem listing_is_idempotent_within_ttl env envs q w filesI filesP :
  configured w ->
  fst (NodeCache.get (filesCache w) (IndexTs.cacheKey (IndexTs.page_of q)) (now env))
    = None ->
  fst (NodeCache.get (filesCache w) (Part000.cacheKey (Part000.page_of q)) (now env))
    = None ->
  find_page env (catalog w)
    (mul (sub (IndexTs.page_of q) (of_Z 1)) IndexTs.limit) IndexTs.limit = Ok filesI ->
  find_page env (catalog w)
    (mul (sub (Part000.page_of q) (of_Z 1)) Part000.limit) Part000.limit = Ok filesP ->
  countDocuments_ok env = true ->
  Forall (fun env' => now env' <= now_set env + TTL_ms) envs ->
  served_once (events (repeat_request IndexTs.api_files (env :: envs) q w))
    (S (length envs))
    (mul (sub (IndexTs.page_of q) (of_Z 1)) IndexTs.limit) IndexTs.limit
    (IndexTs.response (IndexTs.page_of q) filesI (of_Z (Z.of_nat (length (catalog w)))))
  /\ served_once (events (repeat_request Part000.api_files (env :: envs) q w))
    (S (length envs))
    (mul (sub (Part000.page_of q) (of_Z 1)) Part000.limit) Part000.limit
    (Part000.response (Part000.page_of q) filesP (of_Z (Z.of_nat (length (catalog w))))).
Proof.
  intros Hcfg HmI HmP HfI HfP Hc Hnow. split; apply served_once_intro.
  - exact (cold_then_warm IndexTs.page_of IndexTs.limit IndexTs.cacheKey
             IndexTs.response IndexTs.failure IndexTs.api_files IndexTs_api_files_eq
             env envs q w filesI Hcfg HmI HfI Hc Hnow).
  - exact (cold_then_warm Part000.page_of Part000.limit Part000.cacheKey
             Part000.response Part000.failure Part000.api_files Part000_api_files_eq
             env envs q w filesP Hcfg HmP HfP Hc Hnow).
Qed.

Lemma listing_is_idempotent_within_ttl_witness :
  let w := IndexTs.boot (catalog_of 45) in
  let q := Some (lit "2") in
  let env := calm 1000 "65a1" in
  let envs := [calm 2000 "65a1"; calm 301000 "65a1"] in
  let files := drop 30 (catalog_of 45) in
  Forall (fun env' => now env' <= now_set env + TTL_ms) envs
  /\ served_once (events (repeat_request IndexTs.api_files (env :: envs) q w)) 3
       (of_Z 30) (of_Z 30) (IndexTs.response (of_Z 2) files (of_Z 45))
  /\ served_once (events (repeat_request Part000.api_files (env :: envs) q w)) 3
       (of_Z 30) (of_Z 30) (Part000.response (of_Z 2) files (of_Z 45)).
Proof.
  intros w q env envs files.
  assert (Hnow : Forall (fun env' => now env' <= now_set env + TTL_ms) envs).
  { repeat constructor; vm_compute; discriminate. }
  split; [exact Hnow|].
  exact (listing_is_idempotent_within_ttl env envs q w files files
           eq_refl eq_refl eq_refl eq_refl eq_refl eq_refl Hnow).
Defined.

(** C8, as stated, fails: it does not ask that the calls follow one
    another.  Three calls for page 1 within three seconds, nothing
    invalidated; the second looks up the cache while the first awaits
    the store, misses as the first did, and asks the store too.  The
    three replies are the same listing, but the store was asked twice
    for one page in one window, in both revisions. *)
Lemma overlapping_calls_ask_twice :
  let runI := IndexTs_schedule overlapping_calls three_calls
                (IndexTs.boot (catalog_of 3)) in
  let runP := Part000_schedule overlapping_calls three_calls
                (Part000.boot (catalog_of 3)) in
  Forall (fun turn => within_window 1000 (snd turn)) overlapping_calls
  /\ (existsb is_flush (events runI) = false
      /\ replies (events runI)
         = repeat (200, ListingBody (page_listing 1 (catalog_of 3))) 3
      /\ store_queries (events runI) = 2%nat)
  /\ (existsb is_flush (events runP) = false
      /\ replies (events runP)
         = repeat (200, ListingBody (page_listing 1 (catalog_of 3))) 3
      /\ store_queries (events runP) = 2%nat)
  /\ ~ (store_queries (events runI) <= 1)%nat
  /\ ~ (store_queries (events runP) <= 1)%nat.
Proof.
  intros runI runP.
  split; [repeat constructor; vm_compute; congruence|].
  split; [repeat split; vm_compute; reflexivity|].
  split; [repeat split; vm_compute; reflexivity|].
  split; vm_compute; lia.
Qed.

Lemma store_queries_asks skip limit k :
  store_queries (concat (repeat [File_find skip limit; File_countDocuments] k)) = k.
Proof.
  induction k as [|k IH]; [reflexivity|]. cbn [repeat concat].
  rewrite store_queries_app, IH. reflexivity.
Qed.

Lemma replies_asks skip limit k :
  replies (concat (repeat [File_find skip limit; File_countDocuments] k)) = [].
Proof.
  induction k as [|k IH]; [reflexivity|]. cbn [repeat concat].
  now rewrite replies_app, IH.
Qed.

Lemma served_by_intro k evs n skip limit l :
  evs = concat (repeat [File_find skip limit; File_countDocuments] k)
          ++ repeat (res_json 200 (ListingBody l)) n ->
  served_by k evs n skip limit l.
Proof.
  intros ->. unfold served_by. split; [reflexivity|].
  rewrite replies_app, replies_repeat, replies_asks, store_queries_app,
    store_queries_replies, store_queries_asks.
  split; [reflexivity | lia].
Qed.

(** Requests for one page that overlap.  As [Listing] above, the
    section is stated over what the two revisions differ in. *)
Section Overlap.
Variable page_of : option jsstring -> number.
Variable limit : number.
Variable cacheKey : number -> jsstring.
Variable response : number -> list FileDoc -> number -> Listing.
Variable failure : M unit.

Variable q : option jsstring.
Variable docs : list FileDoc.
Variable files : list FileDoc.
Variable T0 : Z.

Local Abbreviation key := (cacheKey (page_of q)).
Local Abbreviation skip := (mul (sub (page_of q) (of_Z 1)) limit).
Local Abbreviation value := (response (page_of q) files (of_Z (Z.of_nat (length docs)))).
Local Abbreviation turn := (advance page_of limit cacheKey response failure).
Local Abbreviation turns := (run_schedule page_of limit cacheKey response failure).
Local Abbreviation asked :=
  {| s_page := page_of q;
     s_answer := Ok (files, of_Z (Z.of_nat (length docs))) |}.

(** The turns met: within the window, with the store answering. *)
Local Abbreviation good :=
  (fun env : Env =>
     within_window T0 env /\ store_answers env docs skip limit files).

(** A task of the run: a request for the page that has not begun, one
    that awaits the answer [files], or one that is over. *)
Local Abbreviation task_of :=
  (fun t : Task => t = Arrived q \/ t = Waiting asked \/ t = Done).

(** No snapshot of the page is stored yet. *)
Local Abbreviation cold :=
  (fun w : World =>
     catalog w = docs /\ configured w
     /\ NodeCache.data (filesCache w) !! key = None).

(** A snapshot of the page is stored, good until the end of the window. *)
Local Abbreviation warm :=
  (fun w : World =>
     catalog w = docs /\ configured w
     /\ exists e, NodeCache.data (filesCache w) !! key = Some e
                  /\ NodeCache.v e = value /\ T0 + TTL_ms <= NodeCache.t e).

Lemma turns_app a : forall b tasks w tasks' w' evs r w'' evs',
  turns a tasks w = MkRun (Ok tasks') w' evs ->
  turns b tasks' w' = MkRun r w'' evs' ->
  turns (a ++ b) tasks w = MkRun r w'' (evs ++ evs').
Proof.
  induction a as [|[i env] a IH]; intros b tasks w tasks' w' evs r w'' evs' Ha Hb.
  - cbn in Ha. injection Ha as -> -> <-. exact Hb.
  - cbn [app run_schedule] in *. destruct (tasks !! i) as [t|]; [|now apply (IH b _ _ tasks' w')].
    unfold mbind, M_bind, bind in *.
    destruct (turn env t w) as [[t'|err] w1 e1]; [|discriminate].
    destruct (turns a (<[i:=t']> tasks) w1) as [r2 w2 e2] eqn:E.
    injection Ha as -> -> <-.
    rewrite (IH b _ _ tasks' w' e2 r w'' evs' E Hb). now rewrite app_assoc.
Qed.

(** A request that looks up the cache and misses asks the store. *)
Lemma begin_miss env w :
  catalog w = docs -> configured w -> good env ->
  fst (NodeCache.get (filesCache w) key (now env)) = None ->
  exists w', turn env (Arrived q) w
             = MkRun (Ok (Waiting asked)) w' [File_find skip limit; File_countDocuments]
             /\ cold w'.
Proof.
  intros Hcat Hcfg [_ [Hf Hc]] Hm.
  exists {| catalog := catalog w; fileIdCache := fileIdCache w;
            filesCache := snd (NodeCache.get (filesCache w) key (now env)) |}.
  unfold advance, begin. unfold_m.
  pose proof (get_miss_absent (filesCache w) key (now env) Hm) as Ha.
  pose proof (stdTTL_get (filesCache w) key (now env)) as Ht.
  destruct (NodeCache.get _ _ _) as [r c]. cbn in Hm, Ha, Ht. subst r. cbn.
  rewrite Hcat, Hf. unfold countDocuments. rewrite Hc. cbn.
  split; [reflexivity|]. split; [reflexivity|]. split; [|exact Ha].
  unfold configured in *. cbn. congruence.
Qed.

(** A request that resumes stores the listing and sends it. *)
Lemma resume_stores env w :
  catalog w = docs -> configured w -> good env ->
  exists w', turn env (Waiting asked) w
             = MkRun (Ok Done) w' [res_json 200 (ListingBody value)]
             /\ warm w'.
Proof.
  intros Hcat Hcfg [[Hset _] _].
  exists {| catalog := catalog w; fileIdCache := fileIdCache w;
            filesCache := NodeCache.set (filesCache w) key value (now_set env) |}.
  unfold advance, resume. unfold_m. cbn.
  split; [reflexivity|]. split; [exact Hcat|]. split; [exact Hcfg|].
  eexists. unfold NodeCache.set, NodeCache.with_data. cbn.
  rewrite lookup_insert_eq. split; [reflexivity|]. split; [reflexivity|].
  unfold NodeCache.wrap. cbn. unfold configured in Hcfg. rewrite Hcfg.
  unfold TTL_ms. change (60 * 5 =? 0) with false. cbv iota. cbn [NodeCache.t]. lia.
Qed.

(** A request that looks up the cache once a snapshot is stored is
    served from the cache. *)
Lemma lookup_hits env w :
  warm w -> good env ->
  turn env (Arrived q) w = MkRun (Ok Done) w [res_json 200 (ListingBody value)].
Proof.
  intros (_ & _ & e & He & Hv & Ht) [[_ Hnow] _].
  assert (Hlive : now env <= NodeCache.t e) by lia.
  unfold advance, begin. unfold_m.
  rewrite (get_live _ _ _ _ He (check_before _ _ Hlive)). cbn.
  rewrite Hv. now destruct w.
Qed.

Lemma cold_misses env w :
  cold w -> fst (NodeCache.get (filesCache w) key (now env)) = None.
Proof. intros (_ & _ & Ha). now rewrite get_absent. Qed.

(** Before any answer is stored: every request that begins asks. *)
Lemma cold_turns pre : forall tasks w,
  cold w -> Forall task_of tasks ->
  NoDup (map fst pre) ->
  Forall (fun turn => tasks !! fst turn = Some (Arrived q)) pre ->
  Forall (fun turn => good (snd turn)) pre ->
  exists tasks' w',
    turns pre tasks w
    = MkRun (Ok tasks') w'
        (concat (repeat [File_find skip limit; File_countDocuments] (length pre)))
    /\ cold w' /\ Forall task_of tasks'
    /\ (forall i, i ∈ map fst pre -> tasks' !! i = Some (Waiting asked))
    /\ (forall i, i ∉ map fst pre -> tasks' !! i = tasks !! i).
Proof.
  induction pre as [|[i env] pre IH]; intros tasks w Hw Ht Hnd Hl Hg.
  - exists tasks, w. split; [reflexivity|]. split; [exact Hw|]. split; [exact Ht|].
    split; [intros i Hi; cbn in Hi; inversion Hi | reflexivity].
  - cbn [map fst] in Hnd. apply NoDup_cons in Hnd as [Hi Hnd].
    apply Forall_cons in Hl as [Hli Hl]. apply Forall_cons in Hg as [Hgi Hg].
    cbn [fst snd] in Hli, Hgi.
    destruct Hw as (Hcat & Hcfg & Ha).
    destruct (begin_miss env w Hcat Hcfg Hgi (cold_misses env w (conj Hcat (conj Hcfg Ha))))
      as (w1 & Hrun & Hw1).
    destruct (IH (<[i := Waiting asked]> tasks) w1 Hw1) as (tasks' & w' & Hrest & Hw' & Ht' & Hin & Hout).
    + apply Forall_insert; [exact Ht | right; now left].
    + exact Hnd.
    + apply Forall_forall. intros [i' env'] Hmem. cbn [fst].
      rewrite list_lookup_insert_ne.
      * exact (proj1 (Forall_forall _ _) Hl _ Hmem).
      * intros ->. apply Hi. now apply (list_elem_of_fmap_2 fst _ (i', env')).
    + exact Hg.
    + exists tasks', w'. cbn [run_schedule]. rewrite Hli.
      unfold mbind, M_bind, bind. rewrite Hrun, Hrest.
      split; [reflexivity|]. split; [exact Hw'|]. split; [exact Ht'|]. split.
      * intros i' Hi'. cbn [map fst] in Hi'. apply elem_of_cons in Hi' as [->|Hi'].
        -- rewrite (Hout i Hi). apply list_lookup_insert_eq.
           now apply lookup_lt_Some in Hli.
        -- now apply Hin.
      * intros i' Hi'. cbn [map fst] in Hi'. apply not_elem_of_cons in Hi' as [Hne Hi'].
        rewrite (Hout i' Hi'). now apply list_lookup_insert_ne.
Qed.

(** Once an answer is stored: no request asks, every request that
    takes a turn is answered with the stored listing. *)
Lemma warm_turns sched : forall tasks w,
  warm w -> Forall task_of tasks ->
  Forall (fun turn => good (snd turn)) sched ->
  exists tasks' w' n,
    turns sched tasks w
    = MkRun (Ok tasks') w' (repeat (res_json 200 (ListingBody value)) n).
Proof.
  induction sched as [|[i env] sched IH]; intros tasks w Hw Ht Hg.
  - exists tasks, w, 0%nat. reflexivity.
  - apply Forall_cons in Hg as [Hgi Hg]. cbn [snd] in Hgi. cbn [run_schedule].
    destruct (tasks !! i) as [t|] eqn:E; [|now apply IH].
    assert (Hstep : exists w1 k, turn env t w
              = MkRun (Ok Done) w1 (repeat (res_json 200 (ListingBody value)) k)
              /\ warm w1).
    { destruct (proj1 (Forall_lookup _ _) Ht _ _ E) as [->|[->| ->]].
      - exists w, 1%nat. split; [now apply lookup_hits | exact Hw].
      - destruct Hw as (Hcat & Hcfg & _).
        destruct (resume_stores env w Hcat Hcfg Hgi) as (w1 & Hrun & Hw1).
        now exists w1, 1%nat.
      - exists w, 0%nat. split; [reflexivity | exact Hw]. }
    destruct Hstep as (w1 & k & Hk & Hw1).
    destruct (IH (<[i := Done]> tasks) w1 Hw1) as (tasks' & w' & n & Hrun).
    { apply Forall_insert; [exact Ht | right; now right]. }
    { exact Hg. }
    exists tasks', w', (k + n)%nat. unfold mbind, M_bind, bind.
    rewrite Hk, Hrun. now rewrite repeat_app.
Qed.

(** The requests that begin before the first answer is stored each ask
    the store; after that no request does. *)
Lemma overlapped w tasks first pre j env_j post :
  catalog w = docs -> configured w ->
  fst (NodeCache.get (filesCache w) key (now (snd first))) = None ->
  Forall (idle_or_asking q) tasks ->
  NoDup (map fst (first :: pre)) ->
  Forall (fun turn => tasks !! fst turn = Some (Arrived q)) (first :: pre) ->
  j ∈ map fst (first :: pre) ->
  Forall (fun turn => good (snd turn)) (first :: pre ++ (j, env_j) :: post) ->
  exists n,
    events (turns (first :: pre ++ (j, env_j) :: post) tasks w)
    = concat (repeat [File_find skip limit; File_countDocuments] (S (length pre)))
        ++ repeat (res_json 200 (ListingBody value)) (S n).
Proof.
  intros Hcat Hcfg Hm Ht Hnd Hl Hj Hg. destruct first as [i0 env0].
  cbn [map fst snd] in *.
  apply NoDup_cons in Hnd as [Hi0 Hnd]. apply Forall_cons in Hl as [Hl0 Hl].
  apply Forall_cons in Hg as [Hg0 Hg]. apply Forall_app in Hg as [Hgpre Hg].
  apply Forall_cons in Hg as [Hgj Hgpost]. cbn [fst snd] in *.
  destruct (begin_miss env0 w Hcat Hcfg Hg0 Hm) as (w1 & Hrun0 & Hw1).
  assert (Ht1 : Forall task_of (<[i0 := Waiting asked]> tasks)).
  { apply Forall_insert; [|right; now left].
    eapply Forall_impl; [exact Ht|]. intros t [->| ->]; [now left | right; now right]. }
  destruct (cold_turns pre (<[i0 := Waiting asked]> tasks) w1 Hw1 Ht1 Hnd)
    as (tasks2 & w2 & Hrun1 & Hw2 & Ht2 & Hin & Hout).
  { apply Forall_forall. intros [i' env'] Hmem. cbn [fst].
    rewrite list_lookup_insert_ne.
    - exact (proj1 (Forall_forall _ _) Hl _ Hmem).
    - intros ->. apply Hi0. now apply (list_elem_of_fmap_2 fst _ (i', env')). }
  { exact Hgpre. }
  assert (Hj2 : tasks2 !! j = Some (Waiting asked)).
  { apply elem_of_cons in Hj as [->|Hj]; [|now apply Hin].
    rewrite (Hout i0 Hi0). apply list_lookup_insert_eq.
    now apply lookup_lt_Some in Hl0. }
  destruct Hw2 as (Hcat2 & Hcfg2 & _).
  destruct (resume_stores env_j w2 Hcat2 Hcfg2 Hgj) as (w3 & Hrun2 & Hw3).
  destruct (warm_turns post (<[j := Done]> tasks2) w3 Hw3) as (tasks4 & w4 & n & Hrun3).
  { apply Forall_insert; [exact Ht2 | right; now right]. }
  { exact Hgpost. }
  exists n.
  assert (Htail : turns ((j, env_j) :: post) tasks2 w2
                  = MkRun (Ok tasks4) w4
                      (repeat (res_json 200 (ListingBody value)) (S n))).
  { cbn [run_schedule]. rewrite Hj2. unfold mbind, M_bind, bind.
    rewrite Hrun2, Hrun3. reflexivity. }
  cbn [run_schedule]. rewrite Hl0. unfold mbind, M_bind, bind. rewrite Hrun0.
  rewrite (turns_app pre _ _ _ _ _ _ _ _ _ Hrun1 Htail). reflexivity.
Qed.

End Overlap.

(** C9, as amended.  Listing requests for one page, handled within one
    window of five minutes, the store answering.  Some of them look up
    the cache, one after the other, before any answer is stored
    ([first] and [pre]: the first turns of distinct requests); then one
    of these resumes and stores its answer ([j]); then the event loop
    gives the turns it likes ([post]).  Each request of the first group
    misses and asks the store itself, nothing being recorded of a query
    in flight; every request that looks up the cache later is served
    from it.  So the store is asked as many times as there are requests
    in the first group, once only when that group is the first request
    alone, and every reply carries the same listing.  Both revisions. *)
Theorem early_requests_each_ask_the_store T0 q w filesI filesP tasks first pre j env_j post :
  configured w ->
  fst (NodeCache.get (filesCache w) (IndexTs.cacheKey (IndexTs.page_of q))
         (now (snd first))) = None ->
  fst (NodeCache.get (filesCache w) (Part000.cacheKey (Part000.page_of q))
         (now (snd first))) = None ->
  Forall (idle_or_asking q) tasks ->
  NoDup (map fst (first :: pre)) ->
  Forall (fun turn => tasks !! fst turn = Some (Arrived q)) (first :: pre) ->
  j ∈ map fst (first :: pre) ->
  Forall (fun turn =>
            within_window T0 (snd turn)
            /\ store_answers (snd turn) (catalog w)
                 (mul (sub (IndexTs.page_of q) (of_Z 1)) IndexTs.limit) IndexTs.limit
                 filesI
            /\ store_answers (snd turn) (catalog w)
                 (mul (sub (Part000.page_of q) (of_Z 1)) Part000.limit) Part000.limit
                 filesP)
         (first :: pre ++ (j, env_j) :: post) ->
  (exists n,
     served_by (S (length pre))
       (events (IndexTs_schedule (first :: pre ++ (j, env_j) :: post) tasks w))
       (S n)
       (mul (sub (IndexTs.page_of q) (of_Z 1)) IndexTs.limit) IndexTs.limit
       (IndexTs.response (IndexTs.page_of q) filesI
          (of_Z (Z.of_nat (length (catalog w))))))
  /\ (exists n,
     served_by (S (length pre))
       (events (Part000_schedule (first :: pre ++ (j, env_j) :: post) tasks w))
       (S n)
       (mul (sub (Part000.page_of q) (of_Z 1)) Part000.limit) Part000.limit
       (Part000.response (Part000.page_of q) filesP
          (of_Z (Z.of_nat (length (catalog w)))))).
Proof.
  intros Hcfg HmI HmP Ht Hnd Hl Hj Hg. split.
  - destruct (overlapped IndexTs.page_of IndexTs.limit IndexTs.cacheKey
                IndexTs.response IndexTs.failure q (catalog w) filesI T0
                w tasks first pre j env_j post eq_refl Hcfg HmI Ht Hnd Hl Hj)
      as [n Hn].
    { eapply Forall_impl; [exact Hg|]. intros turn (Hw & HI & _). now split. }
    exists n. now apply served_by_intro.
  - destruct (overlapped Part000.page_of Part000.limit Part000.cacheKey
                Part000.response Part000.failure q (catalog w) filesP T0
                w tasks first pre j env_j post eq_refl Hcfg HmP Ht Hnd Hl Hj)
      as [n Hn].
    { eapply Forall_impl; [exact Hg|]. intros turn (Hw & _ & HP). now split. }
    exists n. now apply served_by_intro.
Qed.

Lemma early_requests_each_ask_the_store_witness :
  let w := IndexTs.boot (catalog_of 45) in
  let q := Some (lit "2") in
  let tasks := [Arrived q; Arrived q; Arrived q] in
  let first := (0%nat, calm 1000 "65a1") in
  let pre := [(1%nat, calm 1001 "65a1")] in
  let post := [(2%nat, calm 1003 "65a1"); (1%nat, calm 1004 "65a1")] in
  let sched := first :: pre ++ (0%nat, calm 1002 "65a1") :: post in
  let files := drop 30 (catalog_of 45) in
  Forall (fun turn => within_window 1000 (snd turn)) sched
  /\ NoDup (map fst (first :: pre))
  /\ (exists n,
        served_by 2 (events (IndexTs_schedule sched tasks w)) (S n)
          (of_Z 30) (of_Z 30) (IndexTs.response (of_Z 2) files (of_Z 45)))
  /\ (exists n,
        served_by 2 (events (Part000_schedule sched tasks w)) (S n)
          (of_Z 30) (of_Z 30) (Part000.response (of_Z 2) files (of_Z 45))).
Proof.
  intros w q tasks first pre post sched files.
  assert (Hnd : NoDup (map fst (first :: pre))).
  { repeat (apply NoDup_cons_2;
              [intros H; repeat (apply elem_of_cons in H as [H|H]; [discriminate|]);
               inversion H|]).
    apply NoDup_nil_2. }
  assert (Hg : Forall (fun turn =>
            within_window 1000 (snd turn)
            /\ store_answers (snd turn) (catalog w)
                 (mul (sub (IndexTs.page_of q) (of_Z 1)) IndexTs.limit) IndexTs.limit
                 files
            /\ store_answers (snd turn) (catalog w)
                 (mul (sub (Part000.page_of q) (of_Z 1)) Part000.limit) Part000.limit
                 files) sched).
  { repeat constructor; vm_compute; congruence. }
  assert (Hwin : Forall (fun turn => within_window 1000 (snd turn)) sched).
  { eapply Forall_impl; [exact Hg|]. intros turn [H _]. exact H. }
  assert (Hl : Forall (fun turn => tasks !! fst turn = Some (Arrived q)) (first :: pre)).
  { repeat constructor. }
  assert (Hj : 0%nat ∈ map fst (first :: pre)) by (left).
  assert (Ht : Forall (idle_or_asking q) tasks).
  { repeat constructor; now left. }
  split; [exact Hwin|]. split; [exact Hnd|].
  exact (early_requests_each_ask_the_store 1000 q w files files tasks first pre
           0%nat (calm 1002 "65a1") post eq_refl eq_refl eq_refl Ht Hnd Hl Hj Hg).
Defined.

(** C9, as stated, fails: two requests for page 2 arrive together, each
    looks up the cache before the query of the other has answered; both
    miss, and the store is asked twice, in both revisions. *)
Lemma concurrent_requests_query_twice :
  store_queries (events (IndexTs_schedule two_at_once two_requests
                           (IndexTs.boot (catalog_of 45)))) = 2%nat
  /\ store_queries (events (Part000_schedule two_at_once two_requests
                              (Part000.boot (catalog_of 45)))) = 2%nat
  /\ store_queries (events (Part000_schedule two_at_once two_requests
                              (Part000.boot (catalog_of 45)))) <> 1%nat.
Proof. vm_compute. split; [reflexivity | split; [reflexivity | discriminate]]. Qed.

Lemma find_first_page env docs :
  find_ok env = true ->
  find_page env docs (mul (sub (of_Z 1) (of_Z 1)) (of_Z 30)) (of_Z 30)
  = Ok (first_page docs).
Proof. intros H. unfold find_page. rewrite H. reflexivity. Qed.

Lemma IndexTs_serves_page_one env w q :
  In q defaulting_inputs -> find_ok env = true -> countDocuments_ok env = true ->
  serves_page_one IndexTs.api_files IndexTs.page_of IndexTs.cacheKey
    IndexTs.response env w q.
Proof.
  intros Hq Hf Hc. destruct (defaulting_inputs_page_one q Hq) as [Hp _].
  split; [exact Hp|]. intros Hm.
  rewrite (api_files_miss IndexTs.page_of IndexTs.limit IndexTs.cacheKey
             IndexTs.response IndexTs.failure IndexTs.api_files IndexTs_api_files_eq
             env q w (first_page (catalog w)) Hm).
  - now rewrite Hp.
  - rewrite Hp. now apply find_first_page.
  - exact Hc.
Qed.

Lemma Part000_serves_page_one env w q :
  In q defaulting_inputs -> find_ok env = true -> countDocuments_ok env = true ->
  serves_page_one Part000.api_files Part000.page_of Part000.cacheKey
    Part000.response env w q.
Proof.
  intros Hq Hf Hc. destruct (defaulting_inputs_page_one q Hq) as [_ Hp].
  split; [exact Hp|]. intros Hm.
  rewrite (api_files_miss Part000.page_of Part000.limit Part000.cacheKey
             Part000.response Part000.failure Part000.api_files Part000_api_files_eq
             env q w (first_page (catalog w)) Hm).
  - now rewrite Hp.
  - rewrite Hp. now apply find_first_page.
  - exact Hc.
Qed.



(** The request of the specification's example: page 3 of a catalog of
    45 records is an empty page, with [totalPages] 2. *)
Lemma listing_page_3_of_45 :
  replies (events (IndexTs.api_files (calm 1000 "65a1") (Some (lit "3"))
                     (IndexTs.boot (catalog_of 45))))
  = [(200, ListingBody {| success := true; page := of_Z 3; perPage := of_Z 30;
                          total := of_Z 45; totalPages := of_Z 2; data := [] |})]
  /\ replies (events (Part000.api_files (calm 1000 "65a1") (Some (lit "3"))
                        (Part000.boot (catalog_of 45))))
  = [(200, ListingBody {| success := true; page := of_Z 3; perPage := of_Z 30;
                          total := of_Z 45; totalPages := of_Z 2; data := [] |})].
Proof. split; vm_compute; reflexivity. Qed.

Lemma insert_desc_Forall (P : FileDoc -> Prop) d l :
  P d -> Forall P l -> Forall P (insert_desc d l).
Proof.
  intros Hd. induction 1 as [|x l Hx Hl IH]; cbn.
  - now repeat constructor.
  - destruct (createdAt x <? createdAt d); repeat constructor; auto.
Qed.

Lemma sort_Forall (P : FileDoc -> Prop) l :
  Forall P l -> Forall P (sort_createdAt_desc l).
Proof.
  induction 1 as [|x l Hx Hl IH]; [constructor|].
  cbn. now apply insert_desc_Forall.
Qed.

(** The newest record is listed first. *)
Lemma sort_newest d l :
  Forall (fun x => createdAt x < createdAt d) l ->
  sort_createdAt_desc (d :: l) = d :: sort_createdAt_desc l.
Proof.
  intros H. apply sort_Forall in H.
  change (sort_createdAt_desc (d :: l)) with (insert_desc d (sort_createdAt_desc l)).
  destruct (sort_createdAt_desc l) as [|x r]; [reflexivity|].
  apply Forall_cons in H as [Hx _]. cbn.
  destruct (Z.ltb_spec (createdAt x) (createdAt d)); [reflexivity | lia].
Qed.

(** X18.  In src/unnamed/part_000, an accepted upload empties the listing
    cache after the record is created and before the acknowledgment is
    sent, and a request for page 1 that is handled afterwards asks the
    store and lists the new record first. *)
Lemma Part000_listing_after_upload_is_fresh penv env ctx w video id env' q :
  not_admin penv ctx = false ->
  message_video ctx = Some video ->
  video_thumbnail video = None \/ relay_fails env = false ->
  create_id env = Some id ->
  lookup_id id (catalog w) = None ->
  reply_ok env = true ->
  Forall (fun x => createdAt x < now env) (catalog w) ->
  Part000.page_of q = of_Z 1 ->
  find_ok env' = true -> countDocuments_ok env' = true ->
  let upload := Part000.on_video penv env ctx w in
  let doc := new_doc penv env ctx video id in
  events upload
  = relay_calls penv env video
      ++ [File_create doc; flushAll;
          reply (Part000.msg_uploaded (title_of ctx) id (thumbnail_url_of penv env video))]
  /\ NodeCache.data (filesCache (world upload)) = ∅
  /\ replies (events (Part000.api_files env' q (world upload)))
     = [(200, ListingBody
               (Part000.response (of_Z 1)
                  (take 30 (doc :: sort_createdAt_desc (catalog w)))
                  (of_Z (Z.of_nat (S (length (catalog w)))))))].
Proof.
  intros Ha Hv Ht Hi Hn Hr Hold Hp Hf Hc upload doc.
  destruct (Part000_on_video_accepts penv env ctx w video id Ha Hv Ht Hi Hn)
    as (Hw & rest & Hev & Hrest).
  subst upload. rewrite Hw, Hev, (Hrest Hr). split; [reflexivity|].
  split; [reflexivity|].
  rewrite (api_files_miss Part000.page_of Part000.limit Part000.cacheKey
             Part000.response Part000.failure Part000.api_files Part000_api_files_eq
             env' q _ (take 30 (doc :: sort_createdAt_desc (catalog w)))).
  - rewrite Hp. reflexivity.
  - cbn [filesCache]. now rewrite get_flushed.
  - rewrite Hp. cbn [catalog]. rewrite find_first_page by exact Hf.
    unfold first_page. now rewrite sort_newest.
  - exact Hc.
Qed.

(** C1 fails in src/src/index.ts.  Page 1 of an empty catalog is listed;
    the administrator uploads a video, the record is created and the
    upload is acknowledged; page 1 is listed again, two seconds after
    the first listing.  In src/src/index.ts the handler never touches
    the listing cache, and the second listing is the cached one: no
    records, total 0.  In src/unnamed/part_000 the handler calls
    [flushAll] between the creation and the acknowledgment, and the
    second listing has the new record. *)
Theorem IndexTs_listing_is_stale_after_upload :
  listed_uploaded_listed IndexTs.boot IndexTs.api_files IndexTs.on_video
  = ([File_create (trailer "65a1" 2000);
      reply (IndexTs.msg_uploaded (lit "Trailer") (lit "65a1") [])],
     [(200, ListingBody (IndexTs.response (of_Z 1) [] (of_Z 0)))])
  /\ listed_uploaded_listed Part000.boot Part000.api_files Part000.on_video
  = ([File_create (trailer "65a1" 2000); flushAll;
      reply (Part000.msg_uploaded (lit "Trailer") (lit "65a1") [])],
     [(200, ListingBody (Part000.response (of_Z 1) [trailer "65a1" 2000] (of_Z 1)))]).
Proof. split; vm_compute; reflexivity. Qed.

(** The invalidation of src/unnamed/part_000 does not reach a listing
    request that is suspended at its await while the upload runs: when
    it resumes it stores the answer it asked for before the upload, and
    the next request for page 1 is served that answer. *)
Remark Part000_listing_suspended_across_upload_is_stale :
  listing_suspended_across_upload
  = [(200, ListingBody (Part000.response (of_Z 1) [] (of_Z 0)))].
Proof. vm_compute. reflexivity. Qed.

(* ------------------------------------------------------------------ *)
(** ** What every handler preserves                                    *)
(* ------------------------------------------------------------------ *)

Lemma notin_lookup_id id docs :
  bool_decide (id ∈ map _id docs) = false -> lookup_id id docs = None.
Proof.
  intros H. apply bool_decide_eq_false in H.
  destruct (lookup_id id docs) as [d|] eqn:E; [|reflexivity].
  exfalso. apply H. unfold lookup_id in E. apply find_some in E as [Hin Hd].
  apply bool_decide_eq_true in Hd. subst id.
  apply list_elem_of_In, in_map, Hin.
Qed.

Lemma consistent_same_store w w' :
  catalog w' = catalog w -> fileIdCache w' = fileIdCache w ->
  cache_consistent w -> cache_consistent w'.
Proof. intros Hc Hf H id h. rewrite Hc, Hf. apply H. Qed.

Lemma start_keeps_consistent env ctx w :
  cache_consistent w ->
  cache_consistent (world (IndexTs.start env ctx w))
  /\ cache_consistent (world (Part000.start env ctx w)).
Proof.
  intros Hc. unfold IndexTs.start, Part000.start.
  destruct (match_ ctx) as [[|c p]|]; cbn [no_payload default from_option id].
  2: { fold (short_id (c :: p)). destruct (short_id (c :: p)) as [|i k] eqn:E;
       unfold_m; cbn.
       - destruct (reply_ok env); destruct w; cbn; auto.
       - match goal with
         | |- context [fileIdCache w !! ?k] =>
             destruct (fileIdCache w !! k) as [[|c0 h]|] eqn:?
         end.
         2: { destruct (reply_ok env), (sendVideo_ok env); destruct w; cbn; auto. }
         all: destruct (findById_ok env); cbn;
              [ fold (lookup_id (i :: k) (catalog w));
                destruct (lookup_id (i :: k) (catalog w)) as [d|] eqn:El; cbn
              | ];
              destruct (reply_ok env), (sendVideo_ok env); cbn;
              try (split; now apply consistent_after_fill);
              destruct w; cbn; auto. }
  all: unfold_m; destruct (reply_ok env); destruct w; cbn; auto.
Qed.

Lemma on_video_keeps_consistent penv env ctx w :
  cache_consistent w ->
  cache_consistent (world (IndexTs.on_video penv env ctx w))
  /\ cache_consistent (world (Part000.on_video penv env ctx w)).
Proof.
  intros Hc. unfold IndexTs.on_video, Part000.on_video.
  destruct (not_admin penv ctx).
  { unfold_m. destruct (deleteMessage_ok env), (reply_ok env); destruct w; cbn; auto. }
  destruct (message_video ctx) as [video|].
  2: { unfold_m. destruct w; cbn; auto. }
  unfold_m.
  destruct (video_thumbnail video) as [h|];
    [ destruct (getFile_path env) as [path|]; [destruct (download_ok env) as [[|]|];
        [destruct (github_ok env) as [[|]|] | |] |] | ];
    cbn;
    try (destruct (reply_ok env); destruct w; cbn; now auto).
  all: destruct (create_id env) as [id|]; cbn;
       [ destruct (bool_decide (id ∈ map _id (catalog w))) eqn:Ei; cbn | ];
       destruct (reply_ok env); cbn;
       try (split; apply consistent_after_create;
            solve [exact Hc | apply notin_lookup_id; exact Ei]);
       destruct w; cbn; auto.
Qed.

Lemma api_files_keeps_store env q w :
  (catalog (world (IndexTs.api_files env q w)) = catalog w
   /\ fileIdCache (world (IndexTs.api_files env q w)) = fileIdCache w
   /\ NodeCache.stdTTL (filesCache (world (IndexTs.api_files env q w)))
      = NodeCache.stdTTL (filesCache w))
  /\ (catalog (world (Part000.api_files env q w)) = catalog w
      /\ fileIdCache (world (Part000.api_files env q w)) = fileIdCache w
      /\ NodeCache.stdTTL (filesCache (world (Part000.api_files env q w)))
         = NodeCache.stdTTL (filesCache w)).
Proof.
  unfold IndexTs.api_files, Part000.api_files, IndexTs.failure, Part000.failure.
  unfold_m. split.
  - pose proof (stdTTL_get (filesCache w) (IndexTs.cacheKey (IndexTs.page_of q)) (now env)) as Ht.
    destruct (NodeCache.get _ _ _) as [[hit|] c]; cbn in *; [auto|].
    destruct (find_page _ _ _ _), (countDocuments _ _); cbn; auto.
  - pose proof (stdTTL_get (filesCache w) (Part000.cacheKey (Part000.page_of q)) (now env)) as Ht.
    destruct (NodeCache.get _ _ _) as [[hit|] c]; cbn in *; [auto|].
    destruct (find_page _ _ _ _), (countDocuments _ _); cbn; auto.
Qed.

Lemma start_keeps_filesCache env ctx w :
  filesCache (world (IndexTs.start env ctx w)) = filesCache w
  /\ filesCache (world (Part000.start env ctx w)) = filesCache w.
Proof.
  unfold IndexTs.start, Part000.start.
  destruct (match_ ctx) as [[|c p]|]; cbn [no_payload default from_option id].
  2: { destruct (replace_video_prefix (trim (c :: p))) as [|i k];
       unfold_m; cbn.
       - destruct (reply_ok env); cbn; auto.
       - match goal with
         | |- context [fileIdCache w !! ?k] =>
             destruct (fileIdCache w !! k) as [[|c0 h]|]
         end;
         try (destruct (reply_ok env), (sendVideo_ok env); cbn; now auto);
         destruct (findById_ok env); cbn;
         try destruct (find _ (catalog w)); cbn;
         destruct (reply_ok env), (sendVideo_ok env); cbn; auto. }
  all: unfold_m; destruct (reply_ok env); cbn; auto.
Qed.

Lemma on_video_keeps_configured penv env ctx w :
  NodeCache.stdTTL (filesCache (world (IndexTs.on_video penv env ctx w)))
  = NodeCache.stdTTL (filesCache w)
  /\ NodeCache.stdTTL (filesCache (world (Part000.on_video penv env ctx w)))
     = NodeCache.stdTTL (filesCache w).
Proof.
  unfold IndexTs.on_video, Part000.on_video.
  destruct (not_admin penv ctx).
  { unfold_m. destruct (deleteMessage_ok env), (reply_ok env); cbn; auto. }
  destruct (message_video ctx) as [video|]; [|unfold_m; cbn; auto].
  unfold_m.
  destruct (video_thumbnail video) as [h|];
    [ destruct (getFile_path env) as [path|]; [destruct (download_ok env) as [[|]|];
        [destruct (github_ok env) as [[|]|] | |] |] | ];
    cbn;
    try (destruct (reply_ok env); cbn; now auto).
  all: destruct (create_id env) as [id|]; cbn;
       [ destruct (bool_decide (id ∈ map _id (catalog w))); cbn | ];
       destruct (reply_ok env); cbn; auto.
Qed.

(** X19.  The worlds the server can reach are [sound]: it starts in one, and
    each run of each handler, whatever its input and whatever the
    collaborators answer, leads from one to another.  Both revisions. *)
Lemma handlers_keep_sound penv env ctx q docs w :
  sound (IndexTs.boot docs)
  /\ (sound w ->
      sound (world (IndexTs.start env ctx w))
      /\ sound (world (IndexTs.on_video penv env ctx w))
      /\ sound (world (IndexTs.api_files env q w))
      /\ sound (world (Part000.start env ctx w))
      /\ sound (world (Part000.on_video penv env ctx w))
      /\ sound (world (Part000.api_files env q w))).
Proof.
  split; [split; [apply boot_consistent | reflexivity]|].
  intros [Hc Hcfg]. unfold sound, configured in *.
  destruct (start_keeps_consistent env ctx w Hc) as [S1 S2].
  destruct (start_keeps_filesCache env ctx w) as [F1 F2].
  destruct (on_video_keeps_consistent penv env ctx w Hc) as [U1 U2].
  destruct (on_video_keeps_configured penv env ctx w) as [T1 T2].
  destruct (api_files_keeps_store env q w) as [(A1 & A2 & A3) (B1 & B2 & B3)].
  rewrite F1, F2, T1, T2, A3, B3.
  repeat split; auto; eapply consistent_same_store; eauto.
Qed.

(* ------------------------------------------------------------------ *)
(** ** Titles, senders and links                                       *)
(* ------------------------------------------------------------------ *)

Lemma trimEnd_last s r c : trimEnd s = r ++ [c] -> StrWhiteSpaceChar c = false.
Proof.
  unfold trimEnd. intros H. apply (f_equal (@rev N)) in H.
  rewrite rev_involutive, rev_app_distr in H. cbn in H.
  now apply trimStart_head in H.
Qed.

Lemma trim_clean_ends s : clean_ends (trim s).
Proof.
  split.
  - intros c r H. unfold trim in H.
    destruct (trimEnd_split (trimStart s)) as (p & Hp & _).
    rewrite H in Hp. cbn in Hp. now apply trimStart_head in Hp.
  - intros r c H. now apply trimEnd_last in H.
Qed.

Lemma trimStart_fixed s :
  (forall c r, s = c :: r -> StrWhiteSpaceChar c = false) -> trimStart s = s.
Proof.
  destruct s as [|c r]; [reflexivity|]. intros H. cbn.
  now rewrite (H c r eq_refl).
Qed.

Lemma clean_ends_trim s : clean_ends s -> trim s = s.
Proof.
  intros [Hh Hl]. unfold trim. rewrite (trimStart_fixed s Hh).
  unfold trimEnd. rewrite trimStart_fixed; [apply rev_involutive|].
  intros c r H. apply (Hl (rev r) c).
  rewrite <- (rev_involutive s), H. reflexivity.
Qed.

Lemma trim_idempotent s : trim (trim s) = trim s.
Proof. apply clean_ends_trim, trim_clean_ends. Qed.

(** X1.  The title of an upload is never empty and has no white space at
    either end (so trimming it again changes nothing); it is the trimmed
    caption whenever that is not empty, and the placeholder
    [Untitled Video] when the caption is absent or blank. *)
Theorem title_is_trimmed_and_never_empty ctx :
  title_of ctx <> []
  /\ clean_ends (title_of ctx)
  /\ trim (title_of ctx) = title_of ctx
  /\ match message_caption ctx with
     | Some c => if blank_text c then title_of ctx = lit "Untitled Video"
                 else title_of ctx = trim c
     | None => title_of ctx = lit "Untitled Video"
     end.
Proof.
  assert (Hd : clean_ends (lit "Untitled Video")).
  { split; intros a b H.
    - injection H as <- _. reflexivity.
    - change (lit "Untitled Video") with (lit "Untitled Vide" ++ [111%N]) in H.
      apply app_inj_tail in H as [_ <-]. reflexivity. }
  assert (Hc : clean_ends (title_of ctx)).
  { unfold title_of. destruct (message_caption ctx) as [c|]; [|exact Hd].
    pose proof (trim_clean_ends c) as H. destruct (trim c); [exact Hd | exact H]. }
  split; [|split; [exact Hc | split; [now apply clean_ends_trim|]]].
  - unfold title_of. destruct (message_caption ctx) as [c|]; [|discriminate].
    destruct (trim c); discriminate.
  - unfold title_of, blank_text. destruct (message_caption ctx) as [c|]; [|reflexivity].
    destruct (trim c); reflexivity.
Qed.

Lemma lit_inj a b : lit a = lit b -> a = b.
Proof.
  unfold lit. intros H.
  rewrite <- (string_of_list_ascii_of_string a), <- (string_of_list_ascii_of_string b).
  f_equal. revert H. generalize (list_ascii_of_string a) (list_ascii_of_string b).
  induction l as [|x l IH]; intros [|y l']; cbn; try discriminate; [reflexivity|].
  intros [= Hx Hl]. f_equal; [|now apply IH].
  rewrite <- (ascii_N_embedding x), <- (ascii_N_embedding y). now f_equal.
Qed.

Lemma to_int_parses z :
  DecimalString.NilZero.int_of_string
    (DecimalString.NilZero.string_of_int (Z.to_int z)) = Some (Z.to_int z).
Proof.
  apply DecimalString.NilZero.isi; destruct z; cbn; try discriminate;
    intros [= H]; now apply DecimalPos.Unsigned.to_uint_nonnil in H.
Qed.

Lemma Z_to_string_inj z z' : Z_to_string z = Z_to_string z' -> z = z'.
Proof.
  unfold Z_to_string. intros H%lit_inj.
  apply DecimalZ.to_int_inj.
  pose proof (to_int_parses z) as Hz. rewrite H, to_int_parses in Hz.
  now injection Hz.
Qed.

Lemma Z_to_string_defined z : Z_to_string z <> lit "undefined".
Proof.
  unfold Z_to_string. intros H%lit_inj.
  pose proof (to_int_parses z) as Hz. rewrite H in Hz. discriminate.
Qed.

(** X2.  When [ADMIN_ID] is the decimal notation of a safe integer (of
    magnitude below 2^53, where [String] of a number is its decimal
    notation), the sender that passes the authorization check of the
    upload handler is the sender with exactly that id: no other id
    passes, nor does an update without a sender. *)
Theorem admin_is_exactly_the_configured_id penv ctx z :
  Z.abs z < 2 ^ 53 ->
  safe_sender ctx ->
  ADMIN_ID penv = Some (Z_to_string z) ->
  (not_admin penv ctx = false <-> from_id ctx = Some z).
Proof.
  intros _ _ Ha. unfold not_admin, jsstring_eqb. rewrite Ha. cbn [ToString].
  rewrite negb_false_iff, bool_decide_eq_true.
  destruct (from_id ctx) as [y|]; cbn [String_of_id].
  - split; [intros H%Z_to_string_inj; now subst | now intros [= ->]].
  - split; [intros H; symmetry in H; now apply Z_to_string_defined in H | discriminate].
Qed.

Lemma admin_is_exactly_the_configured_id_witness :
  Z.abs 42 < 2 ^ 53
  /\ safe_sender (video_from 42 None)
  /\ ADMIN_ID sample_penv = Some (Z_to_string 42)
  /\ (not_admin sample_penv (video_from 42 None) = false
      <-> from_id (video_from 42 None) = Some 42).
Proof.
  assert (Hz : Z.abs 42 < 2 ^ 53) by (vm_compute; reflexivity).
  assert (Hs : safe_sender (video_from 42 None)) by (vm_compute; reflexivity).
  split; [exact Hz|]. split; [exact Hs|]. split; [reflexivity|].
  exact (admin_is_exactly_the_configured_id sample_penv (video_from 42 None) 42
           Hz Hs eq_refl).
Defined.

(* ------------------------------------------------------------------ *)
(** ** The relay helpers                                               *)
(* ------------------------------------------------------------------ *)

(** [downloadTelegramFile] asks the file API for the path first and
    fetches only when it has one; it returns normally exactly when the
    path was given and the download answered [ok]; a response that is
    not [ok] is thrown as the helper's own error; the world is never
    changed. *)
Lemma downloadTelegramFile_outcomes failure penv env handle w :
  let r := downloadTelegramFile failure penv env handle w in
  match getFile_path env, download_ok env with
  | None, _ =>
      relay_step r w [getFile handle] /\ result r = Throw "rejected"
  | Some file_path, None =>
      relay_step r w [getFile handle; fetch_get (telegram_file_url penv file_path)]
      /\ result r = Throw "rejected"
  | Some file_path, Some false =>
      relay_step r w [getFile handle; fetch_get (telegram_file_url penv file_path)]
      /\ result r = Throw failure
  | Some file_path, Some true =>
      relay_step r w [getFile handle; fetch_get (telegram_file_url penv file_path)]
      /\ result r = Ok ()
  end.
Proof.
  unfold relay_step, telegram_file_url, downloadTelegramFile. unfold_m.
  destruct (getFile_path env) as [p|]; [|cbn; auto].
  destruct (download_ok env) as [[|]|]; cbn; auto.
Qed.

Lemma uploadToGitHub_step failure penv env path w :
  match github_ok env with
  | Some true =>
      result (uploadToGitHub failure penv env path w) = Ok (raw_url penv path)
  | Some false => result (uploadToGitHub failure penv env path w) = Throw failure
  | None => result (uploadToGitHub failure penv env path w) = Throw "rejected"
  end.
Proof.
  unfold raw_url, uploadToGitHub. unfold_m.
  destruct (github_ok env) as [[|]|]; cbn; auto.
Qed.

(** [uploadToGitHub] makes one PUT to the contents URL of the path; it
    returns the public URL of that same path exactly when the PUT
    answered [ok], and throws otherwise; the world is never changed. *)
Lemma uploadToGitHub_outcomes failure penv env path w :
  let r := uploadToGitHub failure penv env path w in
  relay_step r w [fetch_put (github_contents_url penv path)]
  /\ match github_ok env with
     | Some true => result r = Ok (raw_url penv path)
     | Some false => result r = Throw failure
     | None => result r = Throw "rejected"
     end.
Proof.
  unfold relay_step, github_contents_url, raw_url, uploadToGitHub. unfold_m.
  destruct (github_ok env) as [[|]|]; cbn; auto.
Qed.

(** X6.  Thumbnails do not collide: two runs that draw different UUIDs put
    their thumbnails at different paths, and the public URLs that
    [uploadToGitHub] returns for them differ. *)
Theorem thumbnail_urls_do_not_collide failure penv env env' w w' url url' :
  randomUUID env <> randomUUID env' ->
  result (uploadToGitHub failure penv env (generateThumbnailPath env) w) = Ok url ->
  result (uploadToGitHub failure penv env' (generateThumbnailPath env') w') = Ok url' ->
  generateThumbnailPath env <> generateThumbnailPath env' /\ url <> url'.
Proof.
  intros Hne H1 H2.
  assert (Hp : generateThumbnailPath env <> generateThumbnailPath env').
  { unfold generateThumbnailPath. intros H. apply app_inv_head in H.
    apply app_inv_tail in H. contradiction. }
  split; [exact Hp|].
  pose proof (uploadToGitHub_step failure penv env (generateThumbnailPath env) w) as A.
  pose proof (uploadToGitHub_step failure penv env' (generateThumbnailPath env') w') as B.
  rewrite H1 in A. rewrite H2 in B.
  destruct (github_ok env) as [[|]|]; try discriminate.
  destruct (github_ok env') as [[|]|]; try discriminate.
  injection A as ->. injection B as ->. unfold raw_url. intros H.
  repeat apply app_inv_head in H. apply app_inv_tail in H. contradiction.
Qed.

(* ------------------------------------------------------------------ *)
(** ** Page numbers                                                    *)
(* ------------------------------------------------------------------ *)

Lemma or_else_max_at_least_one a :
  at_least_one (Math_max (or_else a (of_Z 1)) (of_Z 1)).
Proof.
  unfold or_else, of_Z. change (inject_Z 1) with 1%Q.
  destruct a as [|[|]|x]; cbn; try exact I; try apply Qle_refl.
  destruct (Qeq_bool x 0); cbn; [apply Qle_refl|].
  destruct (Qle_bool x 1) eqn:E; cbn; [apply Qle_refl|].
  apply Qlt_le_weak, Qnot_le_lt. intros H. apply Qle_bool_iff in H. congruence.
Qed.

Lemma trimStart_length s : (length (trimStart s) <= length s)%nat.
Proof.
  induction s as [|c s IH]; [reflexivity|]. simpl.
  destruct (StrWhiteSpaceChar c); simpl; lia.
Qed.

Lemma strip_sign_length s : (length (snd (strip_sign s)) <= length s)%nat.
Proof.
  destruct s as [|c r]; [reflexivity|]. unfold strip_sign.
  destruct (c =? 45)%N; [simpl; lia|]. destruct (c =? 43)%N; simpl; lia.
Qed.

Lemma strip_hex_prefix_cases s :
  strip_hex_prefix s = (10, s)
  \/ exists r, strip_hex_prefix s = (16, r) /\ (length r + 2 = length s)%nat.
Proof.
  destruct s as [|c0 [|c1 r]]; [now left | now left |]. unfold strip_hex_prefix.
  destruct (_ && _)%bool; [right; exists r; split; [reflexivity | simpl; lia] | now left].
Qed.

Lemma digit_of_range radix c d : digit_of radix c = Some d -> 0 <= d < radix.
Proof.
  unfold digit_of.
  destruct ((48 <=? c) && (c <=? 57))%N eqn:E1;
    [|destruct ((97 <=? c) && (c <=? 122))%N eqn:E2;
      [|destruct ((65 <=? c) && (c <=? 90))%N eqn:E3]].
  all: match goal with |- context [?v <? ?r] => destruct (Z.ltb_spec v r) end;
    intros [= <-]; try lia.
  all: match goal with H : (_ && _)%bool = true |- _ =>
         apply andb_true_iff in H as [H1%N.leb_le H2%N.leb_le]; lia end.
Qed.

Lemma span_digits_range radix s :
  (length (fst (span_digits radix s)) <= length s)%nat
  /\ Forall (fun d => 0 <= d < radix) (fst (span_digits radix s)).
Proof.
  induction s as [|c s [IHl IHd]]; [split; [reflexivity | constructor]|].
  simpl. destruct (digit_of radix c) as [d|] eqn:E; [|split; [simpl; lia | constructor]].
  destruct (span_digits radix s) as [ds rest]. simpl in *.
  split; [lia|]. constructor; [now apply (digit_of_range radix c) | exact IHd].
Qed.

Lemma fold_digits_bound radix ds : 0 < radix ->
  Forall (fun d => 0 <= d < radix) ds ->
  forall acc, 0 <= acc ->
    0 <= fold_left (fun a d => a * radix + d) ds acc
      < (acc + 1) * radix ^ Z.of_nat (length ds).
Proof.
  intros Hr. induction 1 as [|d ds Hd _ IH]; intros acc Hacc.
  - simpl. lia.
  - cbn [fold_left length]. rewrite Nat2Z.inj_succ, Z.pow_succ_r by lia.
    specialize (IH (acc * radix + d) ltac:(nia)).
    assert (0 < radix ^ Z.of_nat (length ds)) by (apply Z.pow_pos_nonneg; lia).
    split; [lia|]. nia.
Qed.

Lemma digits_value_bound radix ds n : 0 < radix ->
  Forall (fun d => 0 <= d < radix) ds -> (length ds <= n)%nat ->
  0 <= digits_value radix ds < radix ^ Z.of_nat n.
Proof.
  intros Hr Hd Hn. unfold digits_value.
  pose proof (fold_digits_bound radix ds Hr Hd 0 ltac:(lia)) as H.
  assert (radix ^ Z.of_nat (length ds) <= radix ^ Z.of_nat n)
    by (apply Z.pow_le_mono_r; lia).
  lia.
Qed.

(** In a text of at most 14 characters [parseInt] reads no integer, or
    one of magnitude below 2^48. *)
Lemma parseInt_string_short s : (length s <= 14)%nat ->
  parseInt_string s = NaN
  \/ exists z, parseInt_string s = of_Z z /\ - 2 ^ 48 < z < 2 ^ 48.
Proof.
  intros Hs. unfold parseInt_string.
  pose proof (trimStart_length s) as H0.
  pose proof (strip_sign_length (trimStart s)) as H1.
  destruct (strip_sign (trimStart s)) as [neg S1]. simpl in H1.
  destruct (strip_hex_prefix_cases S1) as [-> | (r & -> & Hr)].
  - pose proof (span_digits_range 10 S1) as [Hl Hd].
    destruct (span_digits 10 S1) as [[|d ds] rest]; [now left|]. right.
    eexists. split; [reflexivity|]. simpl fst in *.
    pose proof (digits_value_bound 10 (d :: ds) 14 ltac:(lia) Hd ltac:(lia)) as Hv.
    change (10 ^ Z.of_nat 14) with 100000000000000 in Hv.
    change (2 ^ 48) with 281474976710656.
    unfold signed. destruct neg; lia.
  - pose proof (span_digits_range 16 r) as [Hl Hd].
    destruct (span_digits 16 r) as [[|d ds] rest]; [now left|]. right.
    eexists. split; [reflexivity|]. simpl fst in *.
    pose proof (digits_value_bound 16 (d :: ds) 12 ltac:(lia) Hd ltac:(lia)) as Hv.
    change (16 ^ Z.of_nat 12) with 281474976710656 in Hv.
    change (2 ^ 48) with 281474976710656.
    unfold signed. destruct neg; lia.
Qed.

Lemma max_of_integer z :
  Math_max (or_else (of_Z z) (of_Z 1)) (of_Z 1) = of_Z (Z.max z 1).
Proof.
  unfold or_else, of_Z. cbn [truthy_number].
  destruct (Qeq_bool (inject_Z z) 0) eqn:E0; cbn [negb].
  - apply Qeq_bool_iff in E0. unfold Qeq in E0. cbn in E0.
    replace z with 0 by lia. reflexivity.
  - change (inject_Z 1) with 1%Q. cbn [Math_max].
    destruct (Qle_bool (inject_Z z) 1) eqn:E.
    + apply Qle_bool_iff in E. unfold Qle in E. cbn in E.
      rewrite Z.max_r by lia. reflexivity.
    + rewrite Z.max_l; [reflexivity|].
      destruct (Z.le_gt_cases 1 z) as [H|H]; [exact H|]. exfalso.
      assert (Qle_bool (inject_Z z) 1 = true); [|congruence].
      apply Qle_bool_iff. unfold Qle. cbn. lia.
Qed.

Lemma IndexTs_page_short q : short_parameter q ->
  exists z, safe_page z /\ IndexTs.page_of q = of_Z z.
Proof.
  intros Hq. unfold IndexTs.page_of, parseInt.
  assert (Hs : (length (ToString q) <= 14)%nat).
  { destruct q as [s|]; [exact Hq | vm_compute; lia]. }
  destruct (parseInt_string_short _ Hs) as [-> | (z & -> & Hz)].
  - exists 1. split; [unfold safe_page; lia | reflexivity].
  - exists (Z.max z 1). split; [unfold safe_page; lia | apply max_of_integer].
Qed.

(** X15.  Whatever the page parameter, the page number is never [NaN], zero
    or negative: it is a number not below 1 (or [Infinity]), in both
    revisions.  For a parameter of at most 14 characters, or none, the
    page of src/src/index.ts is an integer from 1 to below 2^48. *)
Theorem page_is_at_least_one q :
  at_least_one (IndexTs.page_of q)
  /\ at_least_one (Part000.page_of q)
  /\ (short_parameter q -> exists z, safe_page z /\ IndexTs.page_of q = of_Z z).
Proof.
  split; [apply or_else_max_at_least_one|].
  split; [apply or_else_max_at_least_one | apply IndexTs_page_short].
Qed.

Lemma page_is_at_least_one_witness :
  short_parameter (Some (lit " 0x1F "))
  /\ exists z, safe_page z /\ IndexTs.page_of (Some (lit " 0x1F ")) = of_Z z.
Proof.
  assert (Hq : short_parameter (Some (lit " 0x1F "))) by (vm_compute; lia).
  split; [exact Hq|].
  exact (proj2 (proj2 (page_is_at_least_one (Some (lit " 0x1F ")))) Hq).
Defined.

Lemma skip_of_integer_page z :
  mul (sub (of_Z z) (of_Z 1)) (of_Z 30) = of_Z (30 * (z - 1)).
Proof.
  unfold mul, sub, of_Z. f_equal. apply Qred_of_integer.
  rewrite (Qred_of_integer (inject_Z z - inject_Z 1) (z - 1)).
  - unfold Qeq. cbn. lia.
  - unfold Qeq. cbn. lia.
Qed.

Lemma nonneg_integer_of_Z k : 0 <= k -> nonneg_integer (of_Z k) = Some (Z.to_nat k).
Proof.
  intros H. unfold nonneg_integer, of_Z. rewrite Qfloor_Z.
  assert (H0 : Qle_bool 0 (inject_Z k) = true).
  { apply Qle_bool_iff. unfold Qle. cbn. lia. }
  assert (H1 : Qeq_bool (inject_Z k) (inject_Z k) = true).
  { apply Qeq_bool_iff. reflexivity. }
  now rewrite H0, H1.
Qed.

Lemma find_integer_page env docs z :
  1 <= z -> find_ok env = true ->
  find_page env docs (mul (sub (of_Z z) (of_Z 1)) (of_Z 30)) (of_Z 30)
  = Ok (page_window z docs).
Proof.
  intros Hz Hf. unfold find_page. rewrite Hf, skip_of_integer_page.
  rewrite nonneg_integer_of_Z by lia. reflexivity.
Qed.

(** X16.  In src/src/index.ts, a request with a page parameter of at most
    14 characters, or none, that misses the cache and finds the store
    answering (a catalog of fewer than 2^53 records) lists an integer
    page [z], from 1 to below 2^48: it asks the store for 30 records
    after a skip of [30 (z - 1)], a non-negative integer, and replies
    with status 200 and the records at positions [30 (z - 1)] to
    [30 z - 1] of the catalog sorted newest first, the number of records,
    and the number of pages that hold them. *)
Theorem IndexTs_listing_window env q w :
  short_parameter q ->
  Z.of_nat (length (catalog w)) < 2 ^ 53 ->
  fst (NodeCache.get (filesCache w) (IndexTs.cacheKey (IndexTs.page_of q)) (now env))
    = None ->
  find_ok env = true ->
  countDocuments_ok env = true ->
  exists z, safe_page z
    /\ IndexTs.page_of q = of_Z z
    /\ events (IndexTs.api_files env q w)
       = [File_find (of_Z (30 * (z - 1))) (of_Z 30); File_countDocuments;
          res_json 200
            (ListingBody
               {| success := true; page := of_Z z; perPage := of_Z 30;
                  total := of_Z (Z.of_nat (length (catalog w)));
                  totalPages := of_Z ((Z.of_nat (length (catalog w)) + 29) / 30);
                  data := page_window z (catalog w) |})].
Proof.
  intros Hq _ Hm Hf Hc. destruct (IndexTs_page_short q Hq) as (z & Hz & Hp).
  exists z. split; [exact Hz|]. split; [exact Hp|].
  rewrite (api_files_miss IndexTs.page_of IndexTs.limit IndexTs.cacheKey
             IndexTs.response IndexTs.failure IndexTs.api_files IndexTs_api_files_eq
             env q w (page_window z (catalog w)) Hm).
  - rewrite Hp. unfold IndexTs.response, IndexTs.limit.
    rewrite ceil_div_30, skip_of_integer_page. reflexivity.
  - rewrite Hp. apply find_integer_page; [apply Hz | exact Hf].
  - exact Hc.
Qed.

Lemma IndexTs_listing_window_witness :
  let env := calm 1000 "65a1" in
  let w := IndexTs.boot (catalog_of 45) in
  let q := Some (lit "2abc") in
  short_parameter q
  /\ Z.of_nat (length (catalog w)) < 2 ^ 53
  /\ exists z, safe_page z
    /\ IndexTs.page_of q = of_Z z
    /\ events (IndexTs.api_files env q w)
       = [File_find (of_Z (30 * (z - 1))) (of_Z 30); File_countDocuments;
          res_json 200
            (ListingBody
               {| success := true; page := of_Z z; perPage := of_Z 30;
                  total := of_Z 45; totalPages := of_Z 2;
                  data := page_window z (catalog_of 45) |})].
Proof.
  intros env w q.
  assert (Hq : short_parameter q) by (vm_compute; lia).
  assert (Hlen : Z.of_nat (length (catalog w)) < 2 ^ 53) by (vm_compute; reflexivity).
  split; [exact Hq|]. split; [exact Hlen|].
  exact (IndexTs_listing_window env q w Hq Hlen eq_refl eq_refl eq_refl).
Defined.

(* ------------------------------------------------------------------ *)
(** ** What the handlers change, and what they never do                *)
(* ------------------------------------------------------------------ *)

(** X4.  An upload, whoever sends it and whatever the collaborators answer,
    either leaves the world as it was or adds exactly one record, made
    from the video's handle and the caption's title under an id the
    catalog did not hold, in front of the catalog; records already
    there are never removed or altered, and the identifier cache is not
    touched.  src/src/index.ts never touches the listing cache;
    src/unnamed/part_000 empties it exactly when the record is added. *)
Theorem upload_adds_at_most_one_record penv env ctx w :
  upload_effect false penv ctx w (IndexTs.on_video penv env ctx w)
  /\ upload_effect true penv ctx w (Part000.on_video penv env ctx w).
Proof.
  unfold upload_effect, IndexTs.on_video, Part000.on_video.
  destruct (not_admin penv ctx) eqn:Ha.
  { unfold_m. destruct (deleteMessage_ok env), (reply_ok env); destruct w; cbn; auto. }
  destruct (message_video ctx) as [video|] eqn:Hv.
  2: { unfold_m. destruct w; cbn; auto. }
  unfold_m.
  destruct (video_thumbnail video) as [h|];
    [ destruct (getFile_path env) as [path|]; [destruct (download_ok env) as [[|]|];
        [destruct (github_ok env) as [[|]|] | |] |] | ];
    cbn;
    try (destruct (reply_ok env); destruct w; cbn; now auto).
  all: destruct (create_id env) as [id|]; cbn;
       [ destruct (bool_decide (id ∈ map _id (catalog w))) eqn:Ei; cbn | ];
       destruct (reply_ok env); cbn;
       try (destruct w; cbn; now auto);
       split; right; eexists; exists video;
       (split; [reflexivity|]); (split; [reflexivity|]); (split; [reflexivity|]);
       (split; [reflexivity|]); (split; [reflexivity|]);
       apply notin_lookup_id; exact Ei.
Qed.

(** X7.  [/start], whatever the payload and whatever the collaborators
    answer, either leaves the world as it was or adds to the identifier
    cache the handle of the record that the store holds for the id of
    the link; it never changes the catalog or the listing cache, and it
    never caches an id the store does not hold.  Both revisions. *)
Theorem start_only_fills_identifier_cache env ctx w :
  start_effect ctx w (IndexTs.start env ctx w)
  /\ start_effect ctx w (Part000.start env ctx w).
Proof.
  unfold start_effect, IndexTs.start, Part000.start.
  destruct (match_ ctx) as [[|c p]|] eqn:Hp; cbn [no_payload default from_option id].
  2: { fold (short_id (c :: p)). destruct (short_id (c :: p)) as [|i k] eqn:E;
       unfold_m; cbn.
       - destruct (reply_ok env); destruct w; cbn; auto.
       - match goal with
         | |- context [fileIdCache w !! ?k] =>
             destruct (fileIdCache w !! k) as [[|c0 h]|] eqn:?
         end.
         2: { destruct (reply_ok env), (sendVideo_ok env); destruct w; cbn; auto. }
         all: destruct (findById_ok env); cbn;
              [ fold (lookup_id (i :: k) (catalog w));
                destruct (lookup_id (i :: k) (catalog w)) as [d|] eqn:El; cbn
              | ];
              destruct (reply_ok env), (sendVideo_ok env); cbn;
              try (destruct w; cbn; now auto);
              split; right; exists (c :: p), d; rewrite E; auto. }
  all: unfold_m; destruct (reply_ok env); destruct w; cbn; auto.
Qed.

Section ListingEffects.
Variable page_of : option jsstring -> number.
Variable limit : number.
Variable cacheKey : number -> jsstring.
Variable response : number -> list FileDoc -> number -> Listing.
Variable failure_body : option string.
Variable api_files : Env -> option jsstring -> M unit.

Local Abbreviation skip_of q := (mul (sub (page_of q) (of_Z 1)) limit).

Hypothesis api_files_eq : forall env q,
  api_files env q =
  try_catch
    (cached ← filesCache_get (cacheKey (page_of q)) (now env);
     match cached with
     | Some hit => log (res_json 200 (ListingBody hit))
     | None =>
         '(files, total) ← find_and_count env (skip_of q) limit;
         filesCache_set (cacheKey (page_of q)) (response (page_of q) files total)
           (now_set env);;
         log (res_json 200 (ListingBody (response (page_of q) files total)))
     end)
    (log console_error;; log (res_json 500 (FailureBody failure_body))).

Lemma api_files_effect env q w :
  listing_effect (cacheKey (page_of q)) w (api_files env q w).
Proof.
  unfold listing_effect. rewrite api_files_eq. unfold_m.
  pose proof (get_other_keys (filesCache w) (cacheKey (page_of q)) (now env)) as Hk.
  destruct (NodeCache.get _ _ _) as [[hit|] c]; cbn in *; [auto|].
  destruct (find_page _ _ _ _), (countDocuments _ _); cbn; auto.
  repeat split; auto. intros k Hne. unfold NodeCache.set, NodeCache.with_data. cbn.
  rewrite lookup_insert_ne by congruence. now apply Hk.
Qed.

Lemma api_files_answered_once env q w : answered_once (api_files env q w).
Proof.
  unfold answered_once. rewrite api_files_eq. unfold_m.
  destruct (NodeCache.get _ _ _) as [[hit|] c]; cbn.
  - split; [reflexivity|]. split; [|lia]. eauto.
  - destruct (find_page _ _ _ _), (countDocuments _ _); cbn;
      (split; [reflexivity|]); (split; [|lia]); eauto.
Qed.

(** A request whose queries are rejected. *)
Lemma api_files_store_failure env q w e :
  fst (NodeCache.get (filesCache w) (cacheKey (page_of q)) (now env)) = None ->
  both (find_page env (catalog w) (skip_of q) limit) (countDocuments env (catalog w))
    = Throw e ->
  replies (events (api_files env q w)) = [(500, FailureBody failure_body)]
  /\ store_queries (events (api_files env q w)) = 1%nat
  /\ forall env', fst (NodeCache.get (filesCache (world (api_files env q w)))
                         (cacheKey (page_of q)) (now env')) = None.
Proof.
  intros Hm Hb. rewrite api_files_eq. unfold_m.
  pose proof (get_miss_absent (filesCache w) (cacheKey (page_of q)) (now env) Hm) as Ha.
  destruct (NodeCache.get _ _ _) as [r c]. cbn in Hm, Ha. subst r. cbn.
  rewrite Hb. cbn. repeat split. intros env'. unfold NodeCache.get. now rewrite Ha.
Qed.

End ListingEffects.

(** X12.  A listing request changes neither the catalog nor the identifier
    cache, and in the listing cache it touches the entry of its own
    page only: the cached snapshots of other keys stay as they are.
    Both revisions, whatever the store answers. *)
Theorem listing_touches_only_its_page env q w :
  listing_effect (IndexTs.cacheKey (IndexTs.page_of q)) w (IndexTs.api_files env q w)
  /\ listing_effect (Part000.cacheKey (Part000.page_of q)) w
       (Part000.api_files env q w).
Proof.
  split.
  - exact (api_files_effect IndexTs.page_of IndexTs.limit IndexTs.cacheKey
             IndexTs.response _ IndexTs.api_files IndexTs_api_files_eq env q w).
  - exact (api_files_effect Part000.page_of Part000.limit Part000.cacheKey
             Part000.response _ Part000.api_files Part000_api_files_eq env q w).
Qed.

(** X11.  Every listing request is answered, and answered once: whatever the
    page parameter, the state of the cache and the answers of the
    store, the handler ends normally having sent exactly one reply,
    with status 200 or 500, and having asked the store at most once.
    Both revisions. *)
Theorem listing_is_answered_exactly_once env q w :
  answered_once (IndexTs.api_files env q w)
  /\ answered_once (Part000.api_files env q w).
Proof.
  split.
  - exact (api_files_answered_once IndexTs.page_of IndexTs.limit IndexTs.cacheKey
             IndexTs.response _ IndexTs.api_files IndexTs_api_files_eq env q w).
  - exact (api_files_answered_once Part000.page_of Part000.limit Part000.cacheKey
             Part000.response _ Part000.api_files Part000_api_files_eq env q w).
Qed.

(** X13.  A listing request that misses the cache and whose queries the store
    rejects is answered with status 500 and the failure body, and
    nothing is stored for its page: the next request for that page, at
    whatever time, misses the cache again.  Both revisions. *)
Theorem failed_listing_is_not_cached env q w eI eP :
  fst (NodeCache.get (filesCache w) (IndexTs.cacheKey (IndexTs.page_of q)) (now env))
    = None ->
  fst (NodeCache.get (filesCache w) (Part000.cacheKey (Part000.page_of q)) (now env))
    = None ->
  both (find_page env (catalog w)
          (mul (sub (IndexTs.page_of q) (of_Z 1)) IndexTs.limit) IndexTs.limit)
       (countDocuments env (catalog w)) = Throw eI ->
  both (find_page env (catalog w)
          (mul (sub (Part000.page_of q) (of_Z 1)) Part000.limit) Part000.limit)
       (countDocuments env (catalog w)) = Throw eP ->
  (replies (events (IndexTs.api_files env q w))
     = [(500, FailureBody (Some "Failed to fetch files"%string))]
   /\ store_queries (events (IndexTs.api_files env q w)) = 1%nat
   /\ forall env', fst (NodeCache.get (filesCache (world (IndexTs.api_files env q w)))
                          (IndexTs.cacheKey (IndexTs.page_of q)) (now env')) = None)
  /\ (replies (events (Part000.api_files env q w)) = [(500, FailureBody None)]
      /\ store_queries (events (Part000.api_files env q w)) = 1%nat
      /\ forall env', fst (NodeCache.get (filesCache (world (Part000.api_files env q w)))
                             (Part000.cacheKey (Part000.page_of q)) (now env')) = None).
Proof.
  intros HmI HmP HbI HbP. split.
  - exact (api_files_store_failure IndexTs.page_of IndexTs.limit IndexTs.cacheKey
             IndexTs.response _ IndexTs.api_files IndexTs_api_files_eq env q w eI HmI HbI).
  - exact (api_files_store_failure Part000.page_of Part000.limit Part000.cacheKey
             Part000.response _ Part000.api_files Part000_api_files_eq env q w eP HmP HbP).
Qed.

Lemma failed_listing_is_not_cached_witness :
  let env := store_down 1000 in
  let w := IndexTs.boot (catalog_of 45) in
  let q := Some (lit "2") in
  (replies (events (IndexTs.api_files env q w))
     = [(500, FailureBody (Some "Failed to fetch files"%string))]
   /\ store_queries (events (IndexTs.api_files env q w)) = 1%nat
   /\ forall env', fst (NodeCache.get (filesCache (world (IndexTs.api_files env q w)))
                          (IndexTs.cacheKey (IndexTs.page_of q)) (now env')) = None)
  /\ (replies (events (Part000.api_files env q w)) = [(500, FailureBody None)]
      /\ store_queries (events (Part000.api_files env q w)) = 1%nat
      /\ forall env', fst (NodeCache.get (filesCache (world (Part000.api_files env q w)))
                             (Part000.cacheKey (Part000.page_of q)) (now env')) = None).
Proof.
  intros env w q.
  exact (failed_listing_is_not_cached env q w "rejected" "rejected"
           eq_refl eq_refl eq_refl eq_refl).
Defined.

(* ------------------------------------------------------------------ *)
(** ** Resolved links                                                  *)
(* ------------------------------------------------------------------ *)

Section Cached.
Variables (env : Env) (ctx : Ctx) (w : World) (p : jsstring) (c : N) (h : jsstring).
Hypothesis Hp : match_ ctx = Some p.
Hypothesis Hid : short_id p <> [].
Hypothesis Hr : reply_ok env = true.
Hypothesis Hc : fileIdCache w !! short_id p = Some (c :: h).

Ltac deliver_cached :=
  rewrite Hp;
  assert (Hpne : p <> []) by (intros ->; apply Hid; reflexivity);
  destruct p as [|c1 p']; [congruence|];
  cbn [no_payload default from_option id];
  fold (short_id (c1 :: p')); fold (short_id (c1 :: p')) in Hc;
  destruct (short_id (c1 :: p')) as [|i id] eqn:E; [congruence|];
  unfold_m; cbn; rewrite Hc, Hr; cbn;
  destruct (sendVideo_ok env); destruct w; cbn; rewrite ?Hr; cbn; auto.

Lemma IndexTs_start_cached :
  events (IndexTs.start env ctx w)
  = delivery IndexTs.msg_ready IndexTs.msg_error env ctx (c :: h)
  /\ world (IndexTs.start env ctx w) = w.
Proof. unfold delivery, IndexTs.start. deliver_cached. Qed.

Lemma Part000_start_cached :
  events (Part000.start env ctx w)
  = delivery Part000.msg_ready Part000.msg_error env ctx (c :: h)
  /\ world (Part000.start env ctx w) = w.
Proof. unfold delivery, Part000.start. deliver_cached. Qed.

End Cached.

Section FirstResolution.
Variables (env : Env) (ctx : Ctx) (w : World) (p : jsstring) (d : FileDoc).
Hypothesis Hp : match_ ctx = Some p.
Hypothesis Hid : short_id p <> [].
Hypothesis Hc : cache_consistent w.
Hypothesis Hf : findById_ok env = true.
Hypothesis Hd : lookup_id (short_id p) (catalog w) = Some d.

Ltac first_resolution :=
  rewrite Hp;
  assert (Hpne : p <> []) by (intros ->; apply Hid; reflexivity);
  destruct p as [|c p']; [congruence|];
  cbn [no_payload default from_option id];
  fold (short_id (c :: p')); fold (short_id (c :: p')) in Hd;
  destruct (short_id (c :: p')) as [|i id] eqn:E; [congruence|];
  unfold_m; cbn;
  match goal with
  | |- context [fileIdCache w !! ?k] =>
      destruct (fileIdCache w !! k) as [[|c0 h]|] eqn:?
  end;
  [ | match goal with
      | Hx : _ !! _ = Some (_ :: _) |- _ =>
          rewrite <- (consistent_hit _ _ _ _ Hc Hx Hd);
          destruct (reply_ok env), (sendVideo_ok env); cbn; exact Hx
      end
    | ];
  rewrite Hf; cbn; fold (lookup_id (i :: id) (catalog w)); rewrite Hd; cbn;
  destruct (reply_ok env), (sendVideo_ok env); cbn; apply lookup_insert_eq.

(** After a resolution that reached the store, the handle is cached,
    delivered or not. *)
Lemma IndexTs_start_caches :
  fileIdCache (world (IndexTs.start env ctx w)) !! short_id p = Some (file_id d).
Proof. unfold IndexTs.start. first_resolution. Qed.

Lemma Part000_start_caches :
  fileIdCache (world (Part000.start env ctx w)) !! short_id p = Some (file_id d).
Proof. unfold Part000.start. first_resolution. Qed.

End FirstResolution.

(** X8.  Once a link has been resolved against the store, the handle is in
    the identifier cache, whether or not the delivery went through; a
    later [/start] with the same link makes no call to the store, even
    when the store is unreachable, and sends the same handle.  (The
    handle must not be the empty string, which the handler takes for an
    absent entry.)  Both revisions. *)
Theorem resolved_link_needs_no_store env env' ctx w p d :
  match_ ctx = Some p ->
  short_id p <> [] ->
  cache_consistent w ->
  lookup_id (short_id p) (catalog w) = Some d ->
  file_id d <> [] ->
  findById_ok env = true ->
  reply_ok env' = true ->
  events (IndexTs.start env' ctx (world (IndexTs.start env ctx w)))
    = delivery IndexTs.msg_ready IndexTs.msg_error env' ctx (file_id d)
  /\ events (Part000.start env' ctx (world (Part000.start env ctx w)))
    = delivery Part000.msg_ready Part000.msg_error env' ctx (file_id d).
Proof.
  intros Hp Hid Hc Hd Hh Hf Hr.
  destruct (file_id d) as [|c h] eqn:E; [congruence|]. split.
  - apply (IndexTs_start_cached env' ctx _ p c h Hp Hid Hr).
    rewrite <- E. now apply IndexTs_start_caches.
  - apply (Part000_start_cached env' ctx _ p c h Hp Hid Hr).
    rewrite <- E. now apply Part000_start_caches.
Qed.

Lemma resolved_link_needs_no_store_witness :
  let env := calm 1000 "65a1" in
  let env' := store_down 2000 in
  let ctx := start_with "video_64ff" in
  let w := IndexTs.boot [trailer "64ff" 500] in
  events (IndexTs.start env' ctx (world (IndexTs.start env ctx w)))
    = [reply IndexTs.msg_ready; sendVideo (Some 7) (lit "BAACAgQAAx0")]
  /\ events (Part000.start env' ctx (world (Part000.start env ctx w)))
    = [reply Part000.msg_ready; sendVideo (Some 7) (lit "BAACAgQAAx0")].
Proof.
  intros env env' ctx w.
  assert (Hid : short_id (lit "video_64ff") <> []) by (vm_compute; discriminate).
  assert (Hh : file_id (trailer "64ff" 500) <> []) by (vm_compute; discriminate).
  exact (resolved_link_needs_no_store env env' ctx w (lit "video_64ff")
           (trailer "64ff" 500) eq_refl Hid (boot_consistent _) eq_refl Hh eq_refl eq_refl).
Defined.

Lemma video_link_clean_ends id : clean_ends id -> clean_ends (lit "video_" ++ id).
Proof.
  intros [_ Hl]. split.
  - intros c r H. injection H as <- _. reflexivity.
  - intros r c H. destruct (decide (id = [])) as [->|Hn];
      [|destruct (exists_last Hn) as (r' & l & ->)].
    + rewrite app_nil_r in H.
      change (lit "video_") with (lit "video" ++ [95%N]) in H.
      apply app_inj_tail in H as [_ <-]. reflexivity.
    + rewrite app_assoc in H. apply app_inj_tail in H as [_ <-].
      now apply (Hl r' l).
Qed.

Lemma short_id_of_link id : clean_ends id -> short_id (lit "video_" ++ id) = id.
Proof.
  intros H. unfold short_id.
  rewrite (clean_ends_trim _ (video_link_clean_ends id H)). reflexivity.
Qed.

Lemma short_id_of_bare_id id :
  clean_ends id -> startsWith (lit "video_") id = None -> short_id id = id.
Proof.
  intros H Hs. unfold short_id, replace_video_prefix.
  now rewrite (clean_ends_trim _ H), Hs.
Qed.

(** X9.  The link of a record leads back to it: for a record of the catalog
    whose id has no white space at its ends, [/start video_<id>]
    delivers the record's handle; so does [/start <id>], unless the id
    itself begins with [video_].  Both revisions, in a sound world and
    with a store and a transport that answer. *)
Theorem link_of_a_record_resolves env ctx w d payload :
  _id d <> [] ->
  clean_ends (_id d) ->
  lookup_id (_id d) (catalog w) = Some d ->
  payload = lit "video_" ++ _id d
    \/ (payload = _id d /\ startsWith (lit "video_") (_id d) = None) ->
  match_ ctx = Some payload ->
  cache_consistent w ->
  findById_ok env = true ->
  reply_ok env = true ->
  short_id payload = _id d
  /\ delivered (events (IndexTs.start env ctx w)) = Some (file_id d)
  /\ delivered (events (Part000.start env ctx w)) = Some (file_id d).
Proof.
  intros Hne Hclean Hd Hpay Hp Hc Hf Hr.
  assert (Hs : short_id payload = _id d).
  { destruct Hpay as [->|[-> Hb]];
      [now apply short_id_of_link | now apply short_id_of_bare_id]. }
  split; [exact Hs|]. rewrite <- Hs in Hne, Hd. split.
  - now apply (IndexTs_start_resolves env ctx w payload d).
  - now apply (Part000_start_resolves env ctx w payload d).
Qed.

Lemma link_of_a_record_resolves_witness :
  let env := calm 1000 "65a1" in
  let d := trailer "64ff" 500 in
  let w := IndexTs.boot [d] in
  clean_ends (_id d)
  /\ short_id (lit "64ff") = _id d
  /\ delivered (events (IndexTs.start env (start_with "64ff") w)) = Some (file_id d)
  /\ delivered (events (Part000.start env (start_with "64ff") w)) = Some (file_id d).
Proof.
  intros env d w.
  assert (Hne : _id d <> []) by (vm_compute; discriminate).
  assert (Hclean : clean_ends (_id d)).
  { change (clean_ends (trim (lit "64ff"))). apply trim_clean_ends. }
  split; [exact Hclean|].
  exact (link_of_a_record_resolves env (start_with "64ff") w d (lit "64ff")
           Hne Hclean eq_refl (or_intror (conj eq_refl eq_refl)) eq_refl
           (boot_consistent _) eq_refl eq_refl).
Defined.

(* ------------------------------------------------------------------ *)
(** ** Failures stay inside the handlers                               *)
(* ------------------------------------------------------------------ *)

(** X10.  As long as the transport accepts replies, the bot handlers end
    normally whatever else fails (the store, the file API, GitHub, the
    deletion of a message, the delivery of a video): every exception
    is caught by the handler's own [catch] block.  Both revisions. *)
Theorem bot_handlers_end_normally penv env ctx w :
  reply_ok env = true ->
  (result (IndexTs.start env ctx w) = Ok ()
   /\ result (IndexTs.on_video penv env ctx w) = Ok ())
  /\ (result (Part000.start env ctx w) = Ok ()
      /\ result (Part000.on_video penv env ctx w) = Ok ()).
Proof.
  intros Hr.
  assert (Hs : result (IndexTs.start env ctx w) = Ok ()
               /\ result (Part000.start env ctx w) = Ok ()).
  { unfold IndexTs.start, Part000.start.
    destruct (match_ ctx) as [[|c p]|]; cbn [no_payload default from_option id].
    2: { destruct (replace_video_prefix (trim (c :: p))) as [|i k];
         unfold_m; cbn; rewrite ?Hr; cbn; [auto|].
         match goal with
         | |- context [fileIdCache w !! ?k] =>
             destruct (fileIdCache w !! k) as [[|c0 h]|]
         end;
         try (rewrite ?Hr; cbn; destruct (sendVideo_ok env); cbn; rewrite ?Hr; now auto);
         destruct (findById_ok env); cbn; rewrite ?Hr; cbn; auto;
         destruct (find _ (catalog w)); cbn; rewrite ?Hr; cbn; auto;
         destruct (sendVideo_ok env); cbn; rewrite ?Hr; auto. }
    all: unfold_m; rewrite Hr; cbn; auto. }
  assert (Hu : result (IndexTs.on_video penv env ctx w) = Ok ()
               /\ result (Part000.on_video penv env ctx w) = Ok ()).
  { unfold IndexTs.on_video, Part000.on_video.
    destruct (not_admin penv ctx).
    { unfold_m. destruct (deleteMessage_ok env); cbn; rewrite ?Hr; cbn; auto. }
    destruct (message_video ctx) as [video|]; [|unfold_m; cbn; auto].
    unfold_m.
    destruct (video_thumbnail video) as [h|];
      [ destruct (getFile_path env) as [path|]; [destruct (download_ok env) as [[|]|];
          [destruct (github_ok env) as [[|]|] | |] |] | ];
      cbn; rewrite ?Hr; cbn; auto.
    all: destruct (create_id env) as [id|]; cbn;
         [ destruct (bool_decide (id ∈ map _id (catalog w))); cbn | ];
         rewrite ?Hr; cbn; auto. }
  tauto.
Qed.

Lemma bot_handlers_end_normally_witness :
  let env := store_down 1000 in
  let w := IndexTs.boot [] in
  reply_ok env = true
  /\ (result (IndexTs.start env (start_with "video_64ff") w) = Ok ()
      /\ result (IndexTs.on_video sample_penv env (video_from 42 None) w) = Ok ())
  /\ (result (Part000.start env (start_with "video_64ff") w) = Ok ()
      /\ result (Part000.on_video sample_penv env (video_from 42 None) w) = Ok ()).
Proof.
  intros env w. split; [reflexivity|].
  pose proof (bot_handlers_end_normally sample_penv env (start_with "video_64ff") w eq_refl)
    as [[S1 _] [S2 _]].
  pose proof (bot_handlers_end_normally sample_penv env (video_from 42 None) w eq_refl)
    as [[_ U1] [_ U2]].
  auto.
Defined.

(* ------------------------------------------------------------------ *)
(** ** The end of a listing's life                                     *)
(* ------------------------------------------------------------------ *)

Section Expiry.
Variable page_of : option jsstring -> number.
Variable limit : number.
Variable cacheKey : number -> jsstring.
Variable response : number -> list FileDoc -> number -> Listing.
Variable failure : M unit.
Variable api_files : Env -> option jsstring -> M unit.

Local Abbreviation skip_of q := (mul (sub (page_of q) (of_Z 1)) limit).
Local Abbreviation fresh q w files :=
  (response (page_of q) files (of_Z (Z.of_nat (length (catalog w))))).

Hypothesis api_files_eq : forall env q,
  api_files env q =
  try_catch
    (cached ← filesCache_get (cacheKey (page_of q)) (now env);
     match cached with
     | Some hit => log (res_json 200 (ListingBody hit))
     | None =>
         '(files, total) ← find_and_count env (skip_of q) limit;
         filesCache_set (cacheKey (page_of q)) (response (page_of q) files total)
           (now_set env);;
         log (res_json 200 (ListingBody (response (page_of q) files total)))
     end)
    failure.

Lemma expired_then_refetched env env' q w files files' :
  configured w ->
  fst (NodeCache.get (filesCache w) (cacheKey (page_of q)) (now env)) = None ->
  find_page env (catalog w) (skip_of q) limit = Ok files ->
  countDocuments_ok env = true ->
  0 <= now_set env ->
  now_set env + TTL_ms < now env' ->
  find_page env' (catalog w) (skip_of q) limit = Ok files' ->
  countDocuments_ok env' = true ->
  events (repeat_request api_files [env; env'] q w)
  = [File_find (skip_of q) limit; File_countDocuments;
     res_json 200 (ListingBody (fresh q w files));
     File_find (skip_of q) limit; File_countDocuments;
     res_json 200 (ListingBody (fresh q w files'))].
Proof.
  intros Hcfg Hm Hf Hc Hpos Hlate Hf' Hc'.
  cbn [repeat_request]. unfold mbind, M_bind, bind.
  rewrite (api_files_miss page_of limit cacheKey response failure api_files
             api_files_eq env q w files Hm Hf Hc).
  destruct (filled_entry w (cacheKey (page_of q)) (fresh q w files) env Hcfg)
    as (e & He & _ & Ht).
  rewrite (api_files_miss page_of limit cacheKey response failure api_files
             api_files_eq env' q _ files').
  - reflexivity.
  - unfold NodeCache.get. rewrite He.
    assert (Hx : NodeCache.check (now env') e = false).
    { unfold NodeCache.check. rewrite Ht. unfold TTL_ms in *.
      destruct (Z.eqb_spec (now_set env + 60 * 5 * 1000) 0); [lia|].
      destruct (Z.ltb_spec (now_set env + 60 * 5 * 1000) (now env')); [reflexivity|lia]. }
    now rewrite Hx.
  - exact Hf'.
  - exact Hc'.
Qed.

End Expiry.

(** X14.  A cached listing is not served beyond its life: a request made more
    than five minutes after the listing was stored misses the cache,
    asks the store again and is answered with what the store returns
    then.  Both revisions. *)
Theorem expired_listing_is_fetched_again env env' q w fI fI' fP fP' :
  configured w ->
  fst (NodeCache.get (filesCache w) (IndexTs.cacheKey (IndexTs.page_of q)) (now env))
    = None ->
  fst (NodeCache.get (filesCache w) (Part000.cacheKey (Part000.page_of q)) (now env))
    = None ->
  find_page env (catalog w)
    (mul (sub (IndexTs.page_of q) (of_Z 1)) IndexTs.limit) IndexTs.limit = Ok fI ->
  find_page env (catalog w)
    (mul (sub (Part000.page_of q) (of_Z 1)) Part000.limit) Part000.limit = Ok fP ->
  find_page env' (catalog w)
    (mul (sub (IndexTs.page_of q) (of_Z 1)) IndexTs.limit) IndexTs.limit = Ok fI' ->
  find_page env' (catalog w)
    (mul (sub (Part000.page_of q) (of_Z 1)) Part000.limit) Part000.limit = Ok fP' ->
  countDocuments_ok env = true ->
  countDocuments_ok env' = true ->
  0 <= now_set env ->
  now_set env + TTL_ms < now env' ->
  (store_queries (events (repeat_request IndexTs.api_files [env; env'] q w)) = 2%nat
   /\ replies (events (repeat_request IndexTs.api_files [env; env'] q w))
      = [(200, ListingBody (IndexTs.response (IndexTs.page_of q) fI
                              (of_Z (Z.of_nat (length (catalog w))))));
         (200, ListingBody (IndexTs.response (IndexTs.page_of q) fI'
                              (of_Z (Z.of_nat (length (catalog w))))))])
  /\ (store_queries (events (repeat_request Part000.api_files [env; env'] q w)) = 2%nat
      /\ replies (events (repeat_request Part000.api_files [env; env'] q w))
         = [(200, ListingBody (Part000.response (Part000.page_of q) fP
                                 (of_Z (Z.of_nat (length (catalog w))))));
            (200, ListingBody (Part000.response (Part000.page_of q) fP'
                                 (of_Z (Z.of_nat (length (catalog w))))))]).
Proof.
  intros Hcfg HmI HmP HfI HfP HfI' HfP' Hc Hc' Hpos Hlate. split.
  - rewrite (expired_then_refetched IndexTs.page_of IndexTs.limit IndexTs.cacheKey
               IndexTs.response IndexTs.failure IndexTs.api_files IndexTs_api_files_eq
               env env' q w fI fI' Hcfg HmI HfI Hc Hpos Hlate HfI' Hc').
    split; reflexivity.
  - rewrite (expired_then_refetched Part000.page_of Part000.limit Part000.cacheKey
               Part000.response Part000.failure Part000.api_files Part000_api_files_eq
               env env' q w fP fP' Hcfg HmP HfP Hc Hpos Hlate HfP' Hc').
    split; reflexivity.
Qed.

Lemma expired_listing_is_fetched_again_witness :
  let w := IndexTs.boot (catalog_of 45) in
  let q := Some (lit "2") in
  let env := calm 1000 "65a1" in
  let env' := calm 301001 "65a1" in
  let files := drop 30 (catalog_of 45) in
  now_set env + TTL_ms < now env'
  /\ store_queries (events (repeat_request IndexTs.api_files [env; env'] q w)) = 2%nat
  /\ store_queries (events (repeat_request Part000.api_files [env; env'] q w)) = 2%nat.
Proof.
  intros w q env env' files.
  assert (Hpos : 0 <= now_set env) by (vm_compute; discriminate).
  assert (Hlate : now_set env + TTL_ms < now env') by reflexivity.
  split; [exact Hlate|].
  pose proof (expired_listing_is_fetched_again env env' q w files files files files
                eq_refl eq_refl eq_refl eq_refl eq_refl eq_refl eq_refl eq_refl eq_refl
                Hpos Hlate) as [[HI _] [HP _]].
  split; [exact HI | exact HP].
Defined.

(* ------------------------------------------------------------------ *)
(** ** Accepted uploads                                                *)
(* ------------------------------------------------------------------ *)

(** X3.  An upload by the administrator whose thumbnail relay goes through
    (or that has no thumbnail) and whose record the store accepts makes
    its calls in this order: [getFile], the download, the PUT (when
    there is a thumbnail), [File.create], in src/unnamed/part_000
    [flushAll], and the acknowledgment.  The record has the video's
    handle, the caption's title, and as thumbnail the public URL of the
    path the thumbnail was put at (the empty string without thumbnail);
    it is placed in front of the catalog, and the acknowledgment quotes
    its title, id and thumbnail URL. *)
Theorem accepted_upload_persists_the_record penv env ctx w video id :
  not_admin penv ctx = false ->
  message_video ctx = Some video ->
  video_thumbnail video = None \/ relay_fails env = false ->
  create_id env = Some id ->
  lookup_id id (catalog w) = None ->
  reply_ok env = true ->
  let doc := {| _id := id; file_id := video_file_id video; title := title_of ctx;
                thumbnail := match video_thumbnail video with
                             | Some _ => raw_url penv (generateThumbnailPath env)
                             | None => []
                             end;
                createdAt := now env |} in
  (catalog (world (IndexTs.on_video penv env ctx w)) = doc :: catalog w
   /\ events (IndexTs.on_video penv env ctx w)
      = relay_calls penv env video
          ++ [File_create doc;
              reply (IndexTs.msg_uploaded (title doc) id (thumbnail doc))])
  /\ (catalog (world (Part000.on_video penv env ctx w)) = doc :: catalog w
      /\ events (Part000.on_video penv env ctx w)
         = relay_calls penv env video
             ++ [File_create doc; flushAll;
                 reply (Part000.msg_uploaded (title doc) id (thumbnail doc))]).
Proof.
  intros Ha Hv Ht Hi Hn Hr doc.
  destruct (IndexTs_on_video_accepts penv env ctx w video id Ha Hv Ht Hi Hn)
    as (HwI & restI & HeI & HrI).
  destruct (Part000_on_video_accepts penv env ctx w video id Ha Hv Ht Hi Hn)
    as (HwP & restP & HeP & HrP).
  rewrite HwI, HwP, HeI, HeP, (HrI Hr), (HrP Hr). repeat split.
Qed.

Lemma accepted_upload_persists_the_record_witness :
  let env := calm 2000 "65a1" in
  let ctx := video_from 42 (Some (lit "AAMCBAAD")) in
  let w := IndexTs.boot [trailer "64ff" 500] in
  let doc := {| _id := lit "65a1"; file_id := lit "BAACAgQAAx0"; title := lit "Trailer";
                thumbnail := raw_url sample_penv (generateThumbnailPath env);
                createdAt := 2000 |} in
  not_admin sample_penv ctx = false
  /\ catalog (world (IndexTs.on_video sample_penv env ctx w)) = [doc; trailer "64ff" 500]
  /\ catalog (world (Part000.on_video sample_penv env ctx w)) = [doc; trailer "64ff" 500].
Proof.
  intros env ctx w doc.
  assert (Ha : not_admin sample_penv ctx = false) by (vm_compute; reflexivity).
  split; [exact Ha|].
  pose proof (accepted_upload_persists_the_record sample_penv env ctx w
                {| video_file_id := lit "BAACAgQAAx0";
                   video_thumbnail := Some (lit "AAMCBAAD") |} (lit "65a1")
                Ha eq_refl (or_intror eq_refl) eq_refl eq_refl eq_refl)
    as [[HI _] [HP _]].
  split; [exact HI | exact HP].
Defined.

Lemma Part000_listing_after_upload_is_fresh_witness :
  let env := calm 2000 "65a1" in
  let ctx := video_from 42 None in
  let w := Part000.boot [trailer "64ff" 500] in
  let upload := Part000.on_video sample_penv env ctx w in
  not_admin sample_penv ctx = false
  /\ Forall (fun x => createdAt x < now env) (catalog w)
  /\ NodeCache.data (filesCache (world upload)) = ∅
  /\ replies (events (Part000.api_files (calm 3000 "65a1") (Some (lit "1")) (world upload)))
     = [(200, ListingBody
               (Part000.response (of_Z 1) [trailer "65a1" 2000; trailer "64ff" 500]
                  (of_Z 2)))].
Proof.
  intros env ctx w upload.
  assert (Ha : not_admin sample_penv ctx = false) by (vm_compute; reflexivity).
  assert (Hold : Forall (fun x => createdAt x < now env) (catalog w)).
  { repeat constructor. }
  split; [exact Ha|]. split; [exact Hold|].
  pose proof (Part000_listing_after_upload_is_fresh sample_penv env ctx w
                {| video_file_id := lit "BAACAgQAAx0"; video_thumbnail := None |}
                (lit "65a1") (calm 3000 "65a1") (Some (lit "1"))
                Ha eq_refl (or_introl eq_refl) eq_refl eq_refl eq_refl Hold
                eq_refl eq_refl eq_refl) as (_ & Hd & Hl).
  split; [exact Hd | exact Hl].
Defined.

Lemma handlers_keep_sound_witness :
  let w := IndexTs.boot [trailer "64ff" 500] in
  let env := calm 2000 "65a1" in
  sound w
  /\ sound (world (Part000.on_video sample_penv env (video_from 42 None) w))
  /\ sound (world (IndexTs.api_files env (Some (lit "1"))
                     (world (IndexTs.start env (start_with "video_64ff") w)))).
Proof.
  intros w env.
  pose proof (handlers_keep_sound sample_penv env (video_from 42 None) (Some (lit "1"))
                [trailer "64ff" 500] w) as [Hb Hk].
  destruct (Hk Hb) as (_ & _ & _ & _ & HU & _).
  pose proof (handlers_keep_sound sample_penv env (start_with "video_64ff") (Some (lit "1"))
                [trailer "64ff" 500] w) as [_ Hk'].
  destruct (Hk' Hb) as (HS & _).
  pose proof (handlers_keep_sound sample_penv env (start_with "video_64ff") (Some (lit "1"))
                [] (world (IndexTs.start env (start_with "video_64ff") w))) as [_ Hk''].
  destruct (Hk'' HS) as (_ & _ & HA & _).
  split; [exact Hb|]. split; [exact HU | exact HA].
Defined.

Lemma thumbnail_urls_do_not_collide_witness :
  let env := calm 1000 "65a1" in
  let env' := calm_again 2000 "65a2" in
  let w := IndexTs.boot [] in
  randomUUID env <> randomUUID env'
  /\ generateThumbnailPath env <> generateThumbnailPath env'
  /\ raw_url sample_penv (generateThumbnailPath env)
     <> raw_url sample_penv (generateThumbnailPath env').
Proof.
  intros env env' w.
  assert (Hne : randomUUID env <> randomUUID env') by (vm_compute; discriminate).
  split; [exact Hne|].
  exact (thumbnail_urls_do_not_collide "GitHub upload failed" sample_penv env env' w w
           _ _ Hne eq_refl eq_refl).
Defined.

(** X5.  When the store rejects the new record after the thumbnail relay
    went through, the thumbnail has been put on GitHub all the same: the
    PUT was made, no record is created, the world is unchanged (in
    src/unnamed/part_000 the listing cache is not emptied either), and
    the reply is the failure message. *)
Theorem rejected_create_leaves_the_thumbnail penv env ctx w video thumbnail_file_id :
  not_admin penv ctx = false ->
  message_video ctx = Some video ->
  video_thumbnail video = Some thumbnail_file_id ->
  relay_fails env = false ->
  create_id env = None ->
  (world (IndexTs.on_video penv env ctx w) = w
   /\ exists attempt,
        events (IndexTs.on_video penv env ctx w)
        = relay_calls penv env video
            ++ [File_create attempt; console_error; reply IndexTs.msg_failed])
  /\ (world (Part000.on_video penv env ctx w) = w
      /\ exists attempt,
           events (Part000.on_video penv env ctx w)
           = relay_calls penv env video
               ++ [File_create attempt; console_error; reply Part000.msg_failed]).
Proof.
  intros Ha Hv Ht Hf Hi. unfold IndexTs.on_video, Part000.on_video, relay_calls.
  rewrite Ha, Hv, Ht. unfold relay_fails in Hf. unfold_m.
  destruct (getFile_path env) as [path|]; [|discriminate].
  destruct (download_ok env) as [[|]|]; try discriminate.
  destruct (github_ok env) as [[|]|]; try discriminate.
  cbn. rewrite Hi. cbn. destruct w; cbn. split; (split; [reflexivity | eauto]).
Qed.

Lemma rejected_create_leaves_the_thumbnail_witness :
  let env := create_rejected 2000 in
  let ctx := video_from 42 (Some (lit "AAMCBAAD")) in
  let w := IndexTs.boot [trailer "64ff" 500] in
  not_admin sample_penv ctx = false
  /\ relay_fails env = false
  /\ world (IndexTs.on_video sample_penv env ctx w) = w
  /\ world (Part000.on_video sample_penv env ctx w) = w
  /\ existsb is_relay (events (IndexTs.on_video sample_penv env ctx w)) = true.
Proof.
  intros env ctx w.
  assert (Ha : not_admin sample_penv ctx = false) by (vm_compute; reflexivity).
  split; [exact Ha|]. split; [reflexivity|].
  pose proof (rejected_create_leaves_the_thumbnail sample_penv env ctx w
                {| video_file_id := lit "BAACAgQAAx0";
                   video_thumbnail := Some (lit "AAMCBAAD") |}
                (lit "AAMCBAAD") Ha eq_refl eq_refl eq_refl eq_refl)
    as [[HI _] [HP _]].
  split; [exact HI|]. split; [exact HP | reflexivity].
Defined.

(* ------------------------------------------------------------------ *)
(** ** Pages                                                           *)
(* ------------------------------------------------------------------ *)

Lemma insert_desc_perm d l : insert_desc d l ≡ₚ d :: l.
Proof.
  induction l as [|x l IH]; [reflexivity|]. cbn.
  destruct (createdAt x <? createdAt d); [reflexivity|].
  rewrite IH. apply Permutation_swap.
Qed.

Lemma sort_perm l : sort_createdAt_desc l ≡ₚ l.
Proof.
  induction l as [|x l IH]; [reflexivity|]. cbn.
  now rewrite insert_desc_perm, IH.
Qed.

Lemma chunks_take {A} (l : list A) k :
  concat (map (fun i => take 30 (drop (30 * i) l)) (seq 0 k)) = take (30 * k) l.
Proof.
  induction k as [|k IH]; [reflexivity|].
  rewrite seq_S, map_app, concat_app, IH. cbn [map concat Nat.add].
  rewrite app_nil_r, take_take_drop. f_equal. lia.
Qed.

Lemma page_window_chunk i docs :
  page_window (Z.of_nat (S i)) docs
  = take 30 (drop (30 * i) (sort_createdAt_desc docs)).
Proof. unfold page_window. do 2 f_equal. lia. Qed.

Lemma uint_digits_decimal d :
  forallb is_decimal_digit (lit (DecimalString.NilEmpty.string_of_uint d)) = true.
Proof. unfold lit. induction d; cbn; auto. Qed.

Lemma uint_digits_fold d : forall acc,
  fold_left (fun a x => a * 10 + x)
    (map (fun c => Z.of_N c - 48) (lit (DecimalString.NilEmpty.string_of_uint d)))
    (Z.pos acc)
  = Z.pos (Pos.of_uint_acc d acc).
Proof.
  unfold lit. induction d; intros acc; cbn [DecimalString.NilEmpty.string_of_uint
    list_ascii_of_string map fold_left Pos.of_uint_acc]; [reflexivity|..];
    rewrite <- IHd; f_equal; cbn; lia.
Qed.

Lemma uint_digits_value d :
  digits_value 10
    (map (fun c => Z.of_N c - 48) (lit (DecimalString.NilEmpty.string_of_uint d)))
  = Z.of_N (Pos.of_uint d).
Proof.
  unfold digits_value, lit. induction d;
    cbn [DecimalString.NilEmpty.string_of_uint list_ascii_of_string map fold_left
         Pos.of_uint]; [reflexivity | exact IHd |..];
    apply (uint_digits_fold d).
Qed.

(** The decimal notation of a natural number: a run of digits that
    denotes it. *)
Lemma Z_to_string_digits z : 0 <= z ->
  exists c u, Z_to_string z = c :: u
    /\ forallb is_decimal_digit (c :: u) = true
    /\ digits_value 10 (map (fun c => Z.of_N c - 48) (c :: u)) = z.
Proof.
  intros Hz. destruct z as [|p|p]; [| |lia].
  - exists 48%N, []. repeat split.
  - unfold Z_to_string. cbn [Z.to_int DecimalString.NilZero.string_of_int].
    assert (Hs : DecimalString.NilZero.string_of_uint (Pos.to_uint p)
                 = DecimalString.NilEmpty.string_of_uint (Pos.to_uint p)).
    { destruct (Pos.to_uint p) eqn:E; try reflexivity.
      now apply DecimalPos.Unsigned.to_uint_nonnil in E. }
    rewrite Hs.
    pose proof (uint_digits_decimal (Pos.to_uint p)) as Hd.
    pose proof (uint_digits_value (Pos.to_uint p)) as Hv.
    rewrite DecimalPos.Unsigned.of_to in Hv.
    destruct (lit _) as [|c u] eqn:E.
    + discriminate Hv.
    + exists c, u. auto.
Qed.

Lemma digits_no_sign c u :
  is_decimal_digit c = true -> strip_sign (c :: u) = (false, c :: u).
Proof.
  intros Hc. destruct (decimal_digit_not_marker c Hc) as (H45 & H43 & _).
  unfold strip_sign. now rewrite H45, H43.
Qed.

Lemma digit_not_whitespace c : is_decimal_digit c = true -> StrWhiteSpaceChar c = false.
Proof.
  intros Hc. destruct (StrWhiteSpaceChar c) eqn:E; [|reflexivity].
  pose proof (whitespace_not_digit c 10 E ltac:(lia)) as Hn.
  rewrite (digit_of_decimal c Hc) in Hn. discriminate.
Qed.

Lemma digits_trim s : forallb is_decimal_digit s = true -> trim s = s.
Proof.
  intros Hd. apply clean_ends_trim. split.
  - intros c r ->. apply digit_not_whitespace. simpl in Hd.
    now apply andb_true_iff in Hd.
  - intros r c ->. apply digit_not_whitespace.
    rewrite forallb_app in Hd. apply andb_true_iff in Hd as [_ Hd]. simpl in Hd.
    now apply andb_true_iff in Hd.
Qed.

(** Both revisions read [?page=z] as page [z], for [z >= 1]. *)
Lemma page_of_parameter z : 1 <= z ->
  IndexTs.page_of (page_parameter z) = of_Z z
  /\ Part000.page_of (page_parameter z) = of_Z z.
Proof.
  intros Hz. destruct (Z_to_string_digits z ltac:(lia)) as (c & u & Hs & Hd & Hv).
  assert (Hc : is_decimal_digit c = true) by (simpl in Hd; now apply andb_true_iff in Hd).
  assert (Ht : trim (Z_to_string z) = c :: u).
  { rewrite Hs. now apply digits_trim. }
  assert (Hsign : strip_sign (trim (Z_to_string z)) = (false, c :: u)).
  { rewrite Ht. now apply digits_no_sign. }
  assert (Hw : forall w, strip_sign (trim (Z_to_string z) ++ w) = (false, (c :: u) ++ w)).
  { intros w. rewrite Ht. now apply digits_no_sign. }
  unfold IndexTs.page_of, Part000.page_of, page_parameter, parseInt, Number, ToString.
  rewrite (parseInt_decimal _ false c u Hsign Hd Hw), (Number_decimal _ false c u Hsign Hd).
  rewrite Hv. cbn [signed]. rewrite max_of_integer, Z.max_l by lia. auto.
Qed.

Lemma Number_toString_of_Z z : 0 <= z -> Number_toString (of_Z z) = Z_to_string z.
Proof.
  intros Hz. unfold Number_toString, of_Z.
  assert (Ha : Qabs (inject_Z z) = inject_Z z).
  { unfold Qabs, inject_Z. now rewrite Z.abs_eq. }
  rewrite Ha, Qfloor_Z.
  assert (Hs : sign_neg (inject_Z z) = false).
  { unfold sign_neg. apply negb_false_iff, Qle_bool_iff. unfold Qle. cbn. lia. }
  rewrite Hs.
  assert (Hf : Qred (inject_Z z - inject_Z z) = 0%Q).
  { apply (Qred_of_integer _ 0). unfold Qeq. cbn. lia. }
  rewrite Hf. cbn [Qeq_bool]. change (Qeq_bool 0 0) with true. cbv iota.
  now rewrite app_nil_r.
Qed.

Lemma cacheKey_inj z z' : 0 <= z -> 0 <= z' ->
  (IndexTs.cacheKey (of_Z z) = IndexTs.cacheKey (of_Z z') -> z = z')
  /\ (Part000.cacheKey (of_Z z) = Part000.cacheKey (of_Z z') -> z = z').
Proof.
  intros Hz Hz'. unfold IndexTs.cacheKey, Part000.cacheKey.
  rewrite !Number_toString_of_Z by lia.
  split; intros H%app_inv_head; now apply Z_to_string_inj.
Qed.

Lemma replies_cons_query skip limit evs :
  replies (File_find skip limit :: File_countDocuments :: evs) = replies evs.
Proof. reflexivity. Qed.

Section Walk.
Variable page_of : option jsstring -> number.
Variable cacheKey : number -> jsstring.
Variable response : number -> list FileDoc -> number -> Listing.
Variable failure : M unit.
Variable api_files : Env -> option jsstring -> M unit.

Hypothesis api_files_eq : forall env q,
  api_files env q =
  try_catch
    (cached ← filesCache_get (cacheKey (page_of q)) (now env);
     match cached with
     | Some hit => log (res_json 200 (ListingBody hit))
     | None =>
         '(files, total) ← find_and_count env
            (mul (sub (page_of q) (of_Z 1)) (of_Z 30)) (of_Z 30);
         filesCache_set (cacheKey (page_of q)) (response (page_of q) files total)
           (now_set env);;
         log (res_json 200 (ListingBody (response (page_of q) files total)))
     end)
    failure.
Hypothesis page_of_eq : forall z, 1 <= z -> page_of (page_parameter z) = of_Z z.
Hypothesis cacheKey_eq : forall z z', 0 <= z -> 0 <= z' ->
  cacheKey (of_Z z) = cacheKey (of_Z z') -> z = z'.
Hypothesis response_eq : forall z files n,
  response (of_Z z) files (of_Z n)
  = {| success := true; page := of_Z z; perPage := of_Z 30; total := of_Z n;
       totalPages := of_Z ((n + 29) / 30); data := files |}.

(** One request of the walk: the page is not in the cache, the store
    is asked for its window, and the listing is stored and sent. *)
Lemma walk_step env z w :
  1 <= z -> find_ok env = true -> countDocuments_ok env = true ->
  NodeCache.data (filesCache w) !! cacheKey (of_Z z) = None ->
  exists w',
    api_files env (page_parameter z) w
    = MkRun (Ok ()) w'
        [File_find (of_Z (30 * (z - 1))) (of_Z 30); File_countDocuments;
         res_json 200 (ListingBody (page_listing z (catalog w)))]
    /\ catalog w' = catalog w
    /\ forall k, k <> cacheKey (of_Z z) ->
         NodeCache.data (filesCache w') !! k = NodeCache.data (filesCache w) !! k.
Proof.
  intros Hz Hf Hc Ha. eexists.
  rewrite (api_files_miss page_of (of_Z 30) cacheKey response failure api_files
             api_files_eq env (page_parameter z) w (page_window z (catalog w))).
  - rewrite page_of_eq by exact Hz. rewrite response_eq, skip_of_integer_page.
    split; [reflexivity|]. split; [reflexivity|].
    intros k Hk. unfold filled. cbn [filesCache].
    unfold NodeCache.set, NodeCache.with_data. cbn [NodeCache.data].
    rewrite lookup_insert_ne by congruence. now apply get_other_keys.
  - rewrite page_of_eq by exact Hz. now rewrite get_absent.
  - rewrite page_of_eq by exact Hz. now apply find_integer_page.
  - exact Hc.
Qed.

Lemma walk_replies env pages : forall w,
  NoDup pages -> Forall (fun z => 1 <= z) pages ->
  find_ok env = true -> countDocuments_ok env = true ->
  (forall z, z ∈ pages -> NodeCache.data (filesCache w) !! cacheKey (of_Z z) = None) ->
  replies (events (walk api_files env pages w))
  = map (fun z => (200, ListingBody (page_listing z (catalog w)))) pages
  /\ store_queries (events (walk api_files env pages w)) = length pages.
Proof.
  induction pages as [|z pages IH]; intros w Hnd Hp Hf Hc Ha; [split; reflexivity|].
  apply NoDup_cons in Hnd as [Hz Hnd]. apply Forall_cons in Hp as [Hz1 Hp].
  destruct (walk_step env z w Hz1 Hf Hc) as (w' & Hrun & Hcat & Hkeys).
  { apply Ha. left. }
  cbn [walk]. unfold mbind, M_bind, bind. rewrite Hrun.
  destruct (IH w' Hnd Hp Hf Hc) as [Hr Hq].
  { intros z' Hz'. rewrite Hkeys.
    - apply Ha. now right.
    - intros Hk. apply cacheKey_eq in Hk.
      + subst z'. contradiction.
      + apply (proj1 (Forall_forall _ _) Hp) in Hz'. lia.
      + lia. }
  destruct (walk api_files env pages w') as [r w'' evs]. cbn [events] in *.
  rewrite Hcat in Hr. split.
  - cbn [app]. rewrite replies_cons_query. cbn [map].
    change (replies (res_json 200 ?b :: evs)) with ((200, b) :: replies evs) in |- *.
    now rewrite Hr.
  - cbn [app length]. unfold store_queries in *. cbn. now rewrite Hq.
Qed.

End Walk.

Lemma IndexTs_response_eq z files n :
  IndexTs.response (of_Z z) files (of_Z n)
  = {| success := true; page := of_Z z; perPage := of_Z 30; total := of_Z n;
       totalPages := of_Z ((n + 29) / 30); data := files |}.
Proof. unfold IndexTs.response, IndexTs.limit. now rewrite ceil_div_30. Qed.

Lemma Part000_response_eq z files n :
  Part000.response (of_Z z) files (of_Z n)
  = {| success := true; page := of_Z z; perPage := of_Z 30; total := of_Z n;
       totalPages := of_Z ((n + 29) / 30); data := files |}.
Proof. unfold Part000.response, Part000.limit. now rewrite ceil_div_30. Qed.

Lemma first_pages_fmap n : first_pages n = Z.of_nat <$> seq 1 n.
Proof. reflexivity. Qed.

Lemma first_pages_spec n z : z ∈ first_pages n <-> 1 <= z <= Z.of_nat n.
Proof.
  rewrite first_pages_fmap, list_elem_of_fmap. split.
  - intros (i & -> & Hi). apply elem_of_seq in Hi. lia.
  - intros Hz. exists (Z.to_nat z). split; [lia|]. apply elem_of_seq. lia.
Qed.

Lemma first_pages_NoDup n : NoDup (first_pages n).
Proof.
  rewrite first_pages_fmap. apply NoDup_fmap_2; [|apply NoDup_seq].
  intros a b H. lia.
Qed.

Lemma pages_of_cover n : (n <= 30 * pages_of n)%nat.
Proof.
  unfold pages_of. apply Nat2Z.inj_le. rewrite Nat2Z.inj_mul, Z2Nat.id.
  - change (Z.of_nat 30) with 30. Z.div_mod_to_equations. lia.
  - apply Z.div_pos; lia.
Qed.

Lemma windows_of_first_pages docs :
  concat (map (fun z => page_window z docs) (first_pages (pages_of (length docs))))
  = sort_createdAt_desc docs.
Proof.
  unfold first_pages. rewrite <- seq_shift, !map_map.
  erewrite map_ext; [|intros i; apply page_window_chunk].
  rewrite chunks_take. apply take_ge.
  rewrite (Permutation_length (sort_perm docs)). apply pages_of_cover.
Qed.

Lemma window_beyond docs z :
  Z.of_nat (pages_of (length docs)) < z -> page_window z docs = [].
Proof.
  intros Hz. unfold page_window. rewrite drop_ge; [reflexivity|].
  rewrite (Permutation_length (sort_perm docs)).
  pose proof (pages_of_cover (length docs)). lia.
Qed.

Lemma listed_of_replies evs (pages : list Z) docs :
  replies evs = map (fun z => (200, ListingBody (page_listing z docs))) pages ->
  listed evs = concat (map (fun z => page_window z docs) pages).
Proof. intros H. unfold listed. rewrite H, map_map. reflexivity. Qed.

(** X17.  A client that walks the pages of the listing endpoint reads the
    catalog.  On a server whose listing cache is empty and whose store
    answers (fewer than 2^52 records), the requests [?page=1] to
    [?page=totalPages], made one after the other, are each answered
    with status 200 and the listing of their page, each asks the store
    once, and the records of the replies, in the order received, are
    the whole catalog sorted newest first, in which every record occurs
    exactly as often as in the catalog; a request for a page beyond
    [totalPages] is answered with an empty list.  Both revisions. *)
Theorem pages_divide_the_catalog env w :
  NodeCache.data (filesCache w) = ∅ ->
  find_ok env = true ->
  countDocuments_ok env = true ->
  Z.of_nat (length (catalog w)) < 2 ^ 52 ->
  let pages := first_pages (pages_of (length (catalog w))) in
  Forall safe_page pages
  /\ (replies (events (walk IndexTs.api_files env pages w))
        = map (fun z => (200, ListingBody (page_listing z (catalog w)))) pages
      /\ store_queries (events (walk IndexTs.api_files env pages w)) = length pages
      /\ listed (events (walk IndexTs.api_files env pages w))
         = sort_createdAt_desc (catalog w))
  /\ (replies (events (walk Part000.api_files env pages w))
        = map (fun z => (200, ListingBody (page_listing z (catalog w)))) pages
      /\ store_queries (events (walk Part000.api_files env pages w)) = length pages
      /\ listed (events (walk Part000.api_files env pages w))
         = sort_createdAt_desc (catalog w))
  /\ sort_createdAt_desc (catalog w) ≡ₚ catalog w
  /\ (forall z, safe_page z -> Z.of_nat (pages_of (length (catalog w))) < z ->
        replies (events (IndexTs.api_files env (page_parameter z) w))
          = [(200, ListingBody (page_listing z (catalog w)))]
        /\ replies (events (Part000.api_files env (page_parameter z) w))
          = [(200, ListingBody (page_listing z (catalog w)))]
        /\ data (page_listing z (catalog w)) = []).
Proof.
  intros He Hf Hc Hlen pages.
  assert (Habs : forall k, NodeCache.data (filesCache w) !! k = None).
  { intros k. rewrite He. apply lookup_empty. }
  assert (Hsafe : Forall safe_page pages).
  { apply Forall_forall. intros z Hz%first_pages_spec. unfold safe_page.
    split; [lia|]. unfold pages_of in Hz. rewrite Z2Nat.id in Hz by (apply Z.div_pos; lia).
    change (2 ^ 52) with 4503599627370496 in Hlen.
    change (2 ^ 48) with 281474976710656.
    Z.div_mod_to_equations. lia. }
  assert (Hone : Forall (fun z => 1 <= z) pages).
  { eapply Forall_impl; [exact Hsafe|]. intros z [H _]. exact H. }
  pose proof (walk_replies IndexTs.page_of IndexTs.cacheKey IndexTs.response
                IndexTs.failure IndexTs.api_files (fun _ _ => eq_refl)
                (fun z Hz => proj1 (page_of_parameter z Hz))
                (fun z z' Hz Hz' => proj1 (cacheKey_inj z z' Hz Hz'))
                IndexTs_response_eq env pages w (first_pages_NoDup _) Hone Hf Hc
                (fun z _ => Habs _)) as [HrI HqI].
  pose proof (walk_replies Part000.page_of Part000.cacheKey Part000.response
                Part000.failure Part000.api_files (fun _ _ => eq_refl)
                (fun z Hz => proj2 (page_of_parameter z Hz))
                (fun z z' Hz Hz' => proj2 (cacheKey_inj z z' Hz Hz'))
                Part000_response_eq env pages w (first_pages_NoDup _) Hone Hf Hc
                (fun z _ => Habs _)) as [HrP HqP].
  split; [exact Hsafe|].
  split; [split; [exact HrI|]; split; [exact HqI|];
          rewrite (listed_of_replies _ _ _ HrI); apply windows_of_first_pages|].
  split; [split; [exact HrP|]; split; [exact HqP|];
          rewrite (listed_of_replies _ _ _ HrP); apply windows_of_first_pages|].
  split; [apply sort_perm|].
  intros z [Hz1 Hz2] Hz.
  destruct (walk_step IndexTs.page_of IndexTs.cacheKey IndexTs.response
              IndexTs.failure IndexTs.api_files (fun _ _ => eq_refl)
              (fun z Hz => proj1 (page_of_parameter z Hz))
              IndexTs_response_eq env z w Hz1 Hf Hc (Habs _)) as (wI & -> & _).
  destruct (walk_step Part000.page_of Part000.cacheKey Part000.response
              Part000.failure Part000.api_files (fun _ _ => eq_refl)
              (fun z Hz => proj2 (page_of_parameter z Hz))
              Part000_response_eq env z w Hz1 Hf Hc (Habs _)) as (wP & -> & _).
  split; [reflexivity|]. split; [reflexivity|]. now apply window_beyond.
Qed.

Lemma pages_divide_the_catalog_witness :
  let env := calm 1000 "65a1" in
  let w := Part000.boot (catalog_of 45) in
  Z.of_nat (length (catalog w)) < 2 ^ 52
  /\ listed (events (walk IndexTs.api_files env [1; 2] w))
     = sort_createdAt_desc (catalog_of 45)
  /\ listed (events (walk Part000.api_files env [1; 2] w))
     = sort_createdAt_desc (catalog_of 45)
  /\ replies (events (Part000.api_files env (page_parameter 3) w))
     = [(200, ListingBody (page_listing 3 (catalog_of 45)))]
  /\ data (page_listing 3 (catalog_of 45)) = [].
Proof.
  intros env w.
  assert (Hlen : Z.of_nat (length (catalog w)) < 2 ^ 52) by (vm_compute; reflexivity).
  pose proof (pages_divide_the_catalog env w eq_refl eq_refl eq_refl Hlen)
    as (_ & (_ & _ & HI) & (_ & _ & HP) & _ & Hb).
  destruct (Hb 3) as (_ & H3 & H0); [unfold safe_page; lia | vm_compute; reflexivity |].
  split; [exact Hlen|]. split; [exact HI|]. split; [exact HP|]. split; [exact H3 | exact H0].
Defined.
